(** * The snake game engine of 贪吃蛇/game.js

    A shallow embedding of the class [SnakeGame]: its fields, the part of the
    page it reads and writes (timers, localStorage, the overlay, the tone
    generator, [Math.random]) and its methods, followed by the properties of
    the tick, the food generator, the direction buffer, the lifecycle flags
    and the high-score store.

    The integers the script counts with (cell coordinates, the score, timer
    delays) are modelled as [Z]. Where the script leaves them, numbers are
    IEEE 754 doubles as in JavaScript: the quotient [canvas.width / gridSize]
    and the product [Math.random() * tileCount] are rounded to the nearest
    double, and the high score, which [parseInt] reads from a text that
    anyone may have stored, is a rounded integer, an infinity or [NaN].
    Strings are sequences of bytes, the UTF-8 encoding of the script's
    strings.
    Canvas drawing (but for the eyes), the text and state of the score and
    button elements and the one-shot timer that ends the score animation are
    written by the script and never read back; they are left out. The document is taken to
    hold every element the script looks up. *)

From Stdlib Require Import ZArith QArith Qround Qpower Qreduction Lqa.
From Stdlib Require Import List String Ascii Bool Lia.
From Stdlib Require Import DecimalString DecimalPos.
From Stdlib Require Import Floats.SpecFloat.
Import ListNotations.

Open Scope Z_scope.

(** ** Numbers *)

(** A finite double is kept as the rational it denotes. *)

(** The power of two with exponent [e]. *)
Definition pow2 (e : Z) : Q := (2 ^ e)%Q.

(** The exponent of the greatest power of two that is at most [x], for
    positive [x]. *)
Definition floor_log2 (x : Q) : Z :=
  let e := Z.log2 (Qnum x) - Z.log2 (Zpos (Qden x)) in
  if Qle_bool (pow2 e) x then e else e - 1.

(** The nearest integer, the even one of two that are equally near. *)
Definition round_half_even (m : Q) : Z :=
  let f := Qfloor m in
  match (m - inject_Z f ?= 1 # 2)%Q with
  | Lt => f
  | Gt => f + 1
  | Eq => if Z.even f then f else f + 1
  end.

(** The exponent of the unit in the last place of the doubles around a
    positive [x]. *)
Definition ulp_exponent (x : Q) : Z := Z.max (floor_log2 x - 52) (-1074).

(** [RN] rounds a rational to the nearest double, ties to the even
    significand: 53 bits of precision, exponents from -1074 on, and no
    largest value (where a result can reach 2^1024 the caller tests for
    it). [RN_pos] is its positive half. *)
Definition RN_pos (x : Q) : Q :=
  let u := pow2 (ulp_exponent x) in
  (inject_Z (round_half_even (x / u)) * u)%Q.

Definition RN (x : Q) : Q :=
  Qred match (x ?= 0)%Q with
       | Eq => 0%Q
       | Gt => RN_pos x
       | Lt => (- RN_pos (- x))%Q
       end.

(** [a * b] and [a / b] on doubles whose result stays below 2^1024, as
    it does for a factor below 1 and for the width of a canvas. *)
Definition Number_mul (a b : Q) : Q := RN (a * b).

Definition Number_div (a b : Q) : Q := RN (a / b).

(** The rational is the value of a double: a significand below 2^53 in
    magnitude times a power of two from 2^-1074 on. *)
Definition is_double (q : Q) : Prop :=
  exists m e : Z,
    Z.abs m < 2 ^ 53 /\ -1074 <= e /\ (q == inject_Z m * pow2 e)%Q.

(** The rational a finite binary64 value of the Standard Library denotes. *)
Definition SF2Q (f : spec_float) : Q :=
  match f with
  | S754_finite s m e =>
      ((if s then -1 else 1) * inject_Z (Zpos m) * pow2 e)%Q
  | _ => 0%Q
  end.

(** A JavaScript number that is an integer, an infinity or [NaN]. *)
Inductive JsNumber : Type :=
| NaN
| Num (z : Z)
| Infinity (negative : bool).

(** The number value of a mathematical integer: the nearest double, and an
    infinity when that reaches 2^1024. *)
Definition Number_of_Z (m : Z) : JsNumber :=
  let v := Qfloor (RN (inject_Z m)) in
  if 2 ^ 1024 <=? Z.abs v then Infinity (m <? 0) else Num v.

(** [a > b]; false when either side is [NaN]. *)
Definition Number_gtb (a b : JsNumber) : bool :=
  match a, b with
  | NaN, _ => false
  | _, NaN => false
  | Num x, Num y => x >? y
  | Num _, Infinity negative => negative
  | Infinity negative, Num _ => negb negative
  | Infinity n1, Infinity n2 => negb n1 && n2
  end.

(** [v || 0] for a number [v]: [NaN] and zero are falsy. *)
Definition or_zero (v : JsNumber) : JsNumber :=
  match v with
  | NaN => Num 0
  | _ => v
  end.

(** *** [String(n)] *)

(** The decimal digits of a natural number. *)
Definition decimal_digits (z : Z) : string :=
  NilZero.string_of_uint (N.to_uint (Z.to_N z)).

(** The digits of the exponent notation of a double [x] of [n] decimal
    digits: the least number [k] of digits, from [k] on, for which the
    decimal nearest to [x] is read back as [x], with that decimal as
    (digits, number of integer digits). At most 17 digits are needed. *)
Fixpoint shortest_digits (passes : nat) (k : Z) (n : Z) (x : Z)
  : option (Z * Z) :=
  match passes with
  | O => None
  | S passes' =>
      let s := round_half_even (inject_Z x / inject_Z (10 ^ (n - k))) in
      if Qeq_bool (RN (inject_Z (s * 10 ^ (n - k)))) (inject_Z x)
      then Some (if s =? 10 ^ k then (10 ^ (k - 1), n + 1) else (s, n))
      else shortest_digits passes' (k + 1) n x
  end.

(** [String(x)] for a double [x] that is an integer from 10^21 on, which
    is written with an exponent: [d.ddde+n]. *)
Definition exponent_notation (x : Z) : string :=
  let n := Z.of_nat (Decimal.nb_digits (N.to_uint (Z.to_N x))) in
  match shortest_digits 17 1 n x with
  | Some (s, n) =>
      match decimal_digits s with
      | String d EmptyString => String d ("e+" ++ decimal_digits (n - 1))
      | String d ds =>
          String d ("." ++ ds ++ "e+" ++ decimal_digits (n - 1))
      | EmptyString => decimal_digits x
      end
  | None => decimal_digits x
  end.

(** [String(v)]: decimal digits below 10^21, exponent notation from there
    on. *)
Definition Number_toString (v : JsNumber) : string :=
  match v with
  | NaN => "NaN"
  | Infinity false => "Infinity"
  | Infinity true => "-Infinity"
  | Num z =>
      if Z.abs z <? 10 ^ 21 then NilZero.string_of_int (Z.to_int z)
      else if z <? 0 then String "-" (exponent_notation (Z.abs z))
      else exponent_notation z
  end.

(** *** [parseInt] *)

(** The rest of [s] after the white space or line terminator it starts
    with, if it starts with one. In UTF-8 these are TAB, LF, VT, FF, CR and
    SP; U+00A0; U+1680; U+2000 to U+200A, U+2028, U+2029, U+202F; U+205F;
    U+3000; U+FEFF. *)
Definition isWhiteSpace1 (b1 : nat) : bool :=
  ((9 <=? b1) && (b1 <=? 13) || (b1 =? 32))%nat.

Definition isWhiteSpace2 (b1 b2 : nat) : bool :=
  ((b1 =? 194) && (b2 =? 160))%nat.

Definition isWhiteSpace3 (b1 b2 b3 : nat) : bool :=
  ((b1 =? 225) && (b2 =? 154) && (b3 =? 128)
   || (b1 =? 226) && (b2 =? 128)
      && ((128 <=? b3) && (b3 <=? 138) || (b3 =? 168) || (b3 =? 169)
          || (b3 =? 175))
   || (b1 =? 226) && (b2 =? 129) && (b3 =? 159)
   || (b1 =? 227) && (b2 =? 128) && (b3 =? 128)
   || (b1 =? 239) && (b2 =? 187) && (b3 =? 191))%nat.

Fixpoint trimStart (s : string) : string :=
  match s with
  | String c1 s1 =>
      if isWhiteSpace1 (nat_of_ascii c1) then trimStart s1
      else
        match s1 with
        | String c2 s2 =>
            if isWhiteSpace2 (nat_of_ascii c1) (nat_of_ascii c2)
            then trimStart s2
            else
              match s2 with
              | String c3 s3 =>
                  if isWhiteSpace3 (nat_of_ascii c1) (nat_of_ascii c2)
                       (nat_of_ascii c3)
                  then trimStart s3
                  else s
              | EmptyString => s
              end
        | EmptyString => s
        end
  | EmptyString => s
  end.

(** The value of a character as a digit, up to radix 36. *)
Definition digitValue (c : ascii) : option Z :=
  let n := Z.of_nat (nat_of_ascii c) in
  if (48 <=? n) && (n <=? 57) then Some (n - 48)
  else if (97 <=? n) && (n <=? 122) then Some (n - 87)
  else if (65 <=? n) && (n <=? 90) then Some (n - 55)
  else None.

(** The longest prefix of radix-[R] digits, as a number; [acc] is [None]
    while no digit has been read. *)
Fixpoint parseDigits (R : Z) (s : string) (acc : option Z) : option Z :=
  match s with
  | String c s' =>
      match digitValue c with
      | Some d =>
          if d <? R
          then parseDigits R s'
                 (Some (match acc with Some a => a * R + d | None => d end))
          else acc
      | None => acc
      end
  | EmptyString => acc
  end.

(** [parseInt(s)] with no radix argument: skip white space, read a sign,
    read a [0x] or [0X] prefix (radix 16, else radix 10), read digits, and
    take the number value of the signed integer read. That integer is
    rounded once, from all its digits, as the engines of the browsers do;
    the standard would also let them drop decimal digits after the
    twentieth. *)
Definition parseInt (s : string) : JsNumber :=
  let s := trimStart s in
  let '(sign, s) :=
    match s with
    | String "-" s' => (-1, s')
    | String "+" s' => (1, s')
    | _ => (1, s)
    end in
  let '(R, s) :=
    match s with
    | String "0" (String "x" s') => (16, s')
    | String "0" (String "X" s') => (16, s')
    | _ => (10, s)
    end in
  match parseDigits R s None with
  | Some m => Number_of_Z (sign * m)
  | None => NaN
  end.

(** ** Data *)

(** An object [{ x, y }]: a grid cell or a direction vector. *)
Record Point : Type := mkPoint { px : Z; py : Z }.

Definition Point_eqb (a b : Point) : bool :=
  (px a =? px b) && (py a =? py b).

(** The fields of [this] that the methods read back. [food] is [None] for the
    empty object [{}] the constructor starts with; [gameLoop] is [None] for
    [null]; [audioContext] records whether [initAudio] obtained a context. *)
Record SnakeGame : Type := mkSnakeGame {
  gridSize : Z;
  tileCount : Q;
  snake : list Point;
  food : option Point;
  direction : Point;
  nextDirection : Point;
  score : Z;
  highScore : JsNumber;
  gameLoop : option nat;
  gameSpeed : Z;
  isGameRunning : bool;
  isPaused : bool;
  soundEnabled : bool;
  audioContext : bool
}.

(** The overlay element: its three texts and whether its class list holds
    [hidden]. *)
Record Overlay : Type := mkOverlay {
  overlayTitle : string;
  overlayMessage : string;
  overlayButton : string;
  overlayHidden : bool
}.

(** The part of the browser the engine acts on.
    - [intervals]: the repeating timers that are armed, as (handle, delay);
      every one of them was armed with the callback [() => this.update()].
    - [nextHandle]: the handle the next [setInterval] returns.
    - [storedHighScore]: the value under the key [snakeHighScore].
    - [setItemThrows]: whether [localStorage.setItem] throws, as it does
      when the quota is used up or the store cannot be written.
    - [setItemLog]: every value written by [localStorage.setItem], oldest
      first.
    - [sounds]: the tones started by [playSound], oldest first.
    - [Math_random], [randomCalls]: the sequence of results of [Math.random]
      and how many of them have been consumed. *)
Record Page : Type := mkPage {
  intervals : list (nat * Z);
  nextHandle : nat;
  storedHighScore : option string;
  setItemThrows : bool;
  setItemLog : list string;
  overlay : Overlay;
  sounds : list string;
  Math_random : nat -> Q;
  randomCalls : nat
}.

Record World : Type := mkWorld { this : SnakeGame; page : Page }.

(** What a call can end in: it returns; it throws before there is an
    engine ([Throws], for the constructor); it throws out of a method of the
    engine, which stays behind in the world [behind] as the statements before
    the throw made it ([Raises]); or its loop is still running when the fuel
    is used up. *)
Inductive Outcome (A : Type) : Type :=
| Done (a : A)
| Throws (error : string)
| Raises (error : string) (behind : World)
| Spinning.

Arguments Done {A} a.
Arguments Throws {A} error.
Arguments Raises {A} error behind.
Arguments Spinning {A}.

Definition bind {A B : Type} (m : Outcome A) (k : A -> Outcome B) : Outcome B :=
  match m with
  | Done a => k a
  | Throws e => Throws e
  | Raises e w => Raises e w
  | Spinning => Spinning
  end.

Notation "x <- m ;; k" := (bind m (fun x => k))
  (at level 61, m at next level, right associativity).

(** ** Field assignment *)

Definition set_snake (v : list Point) (g : SnakeGame) : SnakeGame :=
  mkSnakeGame (gridSize g) (tileCount g) v (food g) (direction g)
    (nextDirection g) (score g) (highScore g) (gameLoop g) (gameSpeed g)
    (isGameRunning g) (isPaused g) (soundEnabled g) (audioContext g).

Definition set_food (v : option Point) (g : SnakeGame) : SnakeGame :=
  mkSnakeGame (gridSize g) (tileCount g) (snake g) v (direction g)
    (nextDirection g) (score g) (highScore g) (gameLoop g) (gameSpeed g)
    (isGameRunning g) (isPaused g) (soundEnabled g) (audioContext g).

Definition set_direction (v : Point) (g : SnakeGame) : SnakeGame :=
  mkSnakeGame (gridSize g) (tileCount g) (snake g) (food g) v
    (nextDirection g) (score g) (highScore g) (gameLoop g) (gameSpeed g)
    (isGameRunning g) (isPaused g) (soundEnabled g) (audioContext g).

Definition set_nextDirection (v : Point) (g : SnakeGame) : SnakeGame :=
  mkSnakeGame (gridSize g) (tileCount g) (snake g) (food g)
    (direction g) v (score g) (highScore g) (gameLoop g) (gameSpeed g)
    (isGameRunning g) (isPaused g) (soundEnabled g) (audioContext g).

Definition set_score (v : Z) (g : SnakeGame) : SnakeGame :=
  mkSnakeGame (gridSize g) (tileCount g) (snake g) (food g)
    (direction g) (nextDirection g) v (highScore g) (gameLoop g)
    (gameSpeed g) (isGameRunning g) (isPaused g) (soundEnabled g)
    (audioContext g).

Definition set_highScore (v : JsNumber) (g : SnakeGame) : SnakeGame :=
  mkSnakeGame (gridSize g) (tileCount g) (snake g) (food g)
    (direction g) (nextDirection g) (score g) v (gameLoop g)
    (gameSpeed g) (isGameRunning g) (isPaused g) (soundEnabled g)
    (audioContext g).

Definition set_gameLoop (v : option nat) (g : SnakeGame) : SnakeGame :=
  mkSnakeGame (gridSize g) (tileCount g) (snake g) (food g)
    (direction g) (nextDirection g) (score g) (highScore g)
    v (gameSpeed g) (isGameRunning g) (isPaused g) (soundEnabled g)
    (audioContext g).

Definition set_gameSpeed (v : Z) (g : SnakeGame) : SnakeGame :=
  mkSnakeGame (gridSize g) (tileCount g) (snake g) (food g)
    (direction g) (nextDirection g) (score g) (highScore g)
    (gameLoop g) v (isGameRunning g) (isPaused g) (soundEnabled g)
    (audioContext g).

Definition set_isGameRunning (v : bool) (g : SnakeGame) : SnakeGame :=
  mkSnakeGame (gridSize g) (tileCount g) (snake g) (food g)
    (direction g) (nextDirection g) (score g) (highScore g)
    (gameLoop g) (gameSpeed g) v (isPaused g) (soundEnabled g)
    (audioContext g).

Definition set_isPaused (v : bool) (g : SnakeGame) : SnakeGame :=
  mkSnakeGame (gridSize g) (tileCount g) (snake g) (food g)
    (direction g) (nextDirection g) (score g) (highScore g)
    (gameLoop g) (gameSpeed g) (isGameRunning g) v
    (soundEnabled g) (audioContext g).

Definition set_soundEnabled (v : bool) (g : SnakeGame) : SnakeGame :=
  mkSnakeGame (gridSize g) (tileCount g) (snake g) (food g)
    (direction g) (nextDirection g) (score g) (highScore g)
    (gameLoop g) (gameSpeed g) (isGameRunning g) (isPaused g)
    v (audioContext g).

Definition set_audioContext (v : bool) (g : SnakeGame) : SnakeGame :=
  mkSnakeGame (gridSize g) (tileCount g) (snake g) (food g)
    (direction g) (nextDirection g) (score g) (highScore g)
    (gameLoop g) (gameSpeed g) (isGameRunning g) (isPaused g)
    (soundEnabled g) v.

Definition set_intervals (v : list (nat * Z)) (p : Page) : Page :=
  mkPage v (nextHandle p) (storedHighScore p) (setItemThrows p)
    (setItemLog p) (overlay p)
    (sounds p) (Math_random p) (randomCalls p).

Definition set_nextHandle (v : nat) (p : Page) : Page :=
  mkPage (intervals p) v (storedHighScore p) (setItemThrows p)
    (setItemLog p) (overlay p)
    (sounds p) (Math_random p) (randomCalls p).

Definition set_storedHighScore (v : option string) (p : Page) : Page :=
  mkPage (intervals p) (nextHandle p) v (setItemThrows p) (setItemLog p)
    (overlay p)
    (sounds p) (Math_random p) (randomCalls p).

Definition set_setItemThrows (v : bool) (p : Page) : Page :=
  mkPage (intervals p) (nextHandle p) (storedHighScore p) v (setItemLog p)
    (overlay p) (sounds p) (Math_random p) (randomCalls p).

Definition set_setItemLog (v : list string) (p : Page) : Page :=
  mkPage (intervals p) (nextHandle p) (storedHighScore p) (setItemThrows p) v
    (overlay p)
    (sounds p) (Math_random p) (randomCalls p).

Definition set_overlay (v : Overlay) (p : Page) : Page :=
  mkPage (intervals p) (nextHandle p) (storedHighScore p) (setItemThrows p)
    (setItemLog p) v
    (sounds p) (Math_random p) (randomCalls p).

Definition set_sounds (v : list string) (p : Page) : Page :=
  mkPage (intervals p) (nextHandle p) (storedHighScore p) (setItemThrows p)
    (setItemLog p)
    (overlay p) v (Math_random p) (randomCalls p).

Definition set_randomCalls (v : nat) (p : Page) : Page :=
  mkPage (intervals p) (nextHandle p) (storedHighScore p) (setItemThrows p)
    (setItemLog p)
    (overlay p) (sounds p) (Math_random p) v.

(** [this.f = v] and a write to the page, as world transformers. *)
Definition on_this (f : SnakeGame -> SnakeGame) (w : World) : World :=
  mkWorld (f (this w)) (page w).

Definition on_page (f : Page -> Page) (w : World) : World :=
  mkWorld (this w) (f (page w)).

(** ** The browser interfaces the engine calls *)

(** [setInterval(() => this.update(), ms)]: arms a timer and returns its
    handle. *)
Definition setInterval (ms : Z) (w : World) : nat * World :=
  let h := nextHandle (page w) in
  (h, on_page (fun p => set_nextHandle (S h)
                          (set_intervals ((h, ms) :: intervals p) p)) w).

(** [clearInterval(handle)]: disarms the timer with that handle; nothing
    happens for [null] or for a handle that is not armed. *)
Definition clearInterval (handle : option nat) (w : World) : World :=
  match handle with
  | None => w
  | Some h =>
      on_page (fun p =>
        set_intervals
          (filter (fun t => negb (Nat.eqb (fst t) h)) (intervals p)) p) w
  end.

(** One call of [Math.random()]. *)
Definition Math_random_call (w : World) : Q * World :=
  let n := randomCalls (page w) in
  (Math_random (page w) n, on_page (set_randomCalls (S n)) w).

(** [Math.floor(r * this.tileCount)]: the product is a double. *)
Definition floor_scaled (r : Q) (n : Q) : Z := Qfloor (Number_mul r n).

(** [localStorage.setItem('snakeHighScore', v)]: it stores [String(v)], or
    it throws and stores nothing. *)
Definition localStorage_setItem (v : JsNumber) (w : World) : Outcome World :=
  if setItemThrows (page w) then Raises "QuotaExceededError" w
  else
    Done (on_page (fun p =>
            set_setItemLog (setItemLog p ++ [Number_toString v])
              (set_storedHighScore (Some (Number_toString v)) p)) w).

(** ** Methods of [SnakeGame] *)

Definition playSound (type : string) (w : World) : World :=
  if negb (soundEnabled (this w)) || negb (audioContext (this w)) then w
  else if (String.eqb type "eat" || String.eqb type "gameover"
           || String.eqb type "start")%bool
       then on_page (fun p => set_sounds (sounds p ++ [type]) p) w
       else w.

Definition showOverlay (title message buttonText : string) (w : World) : World :=
  on_page (set_overlay (mkOverlay title message buttonText false)) w.

Definition hideOverlay (w : World) : World :=
  on_page (fun p =>
    set_overlay (mkOverlay (overlayTitle (overlay p))
                   (overlayMessage (overlay p))
                   (overlayButton (overlay p)) true) p) w.

(** [this.snake.some(segment => segment.x === x && segment.y === y)]. *)
Definition isSnakeOnPosition (w : World) (x y : Z) : bool :=
  existsb (fun segment => (px segment =? x) && (py segment =? y))
          (snake (this w)).

(** The [do ... while] loop of [generateFood]: one unit of fuel per pass. *)
Fixpoint generateFood (fuel : nat) (w : World) : Outcome World :=
  match fuel with
  | O => Spinning
  | S fuel' =>
      let '(r1, w) := Math_random_call w in
      let '(r2, w) := Math_random_call w in
      let newFood :=
        mkPoint (floor_scaled r1 (tileCount (this w)))
                (floor_scaled r2 (tileCount (this w))) in
      if isSnakeOnPosition w (px newFood) (py newFood)
      then generateFood fuel' w
      else Done (on_this (set_food (Some newFood)) w)
  end.

Definition resetGame (fuel : nat) (w : World) : Outcome World :=
  let w := on_this (set_snake [mkPoint 10 10; mkPoint 9 10; mkPoint 8 10]) w in
  let w := on_this (set_direction (mkPoint 1 0)) w in
  let w := on_this (set_nextDirection (mkPoint 1 0)) w in
  let w := on_this (set_score 0) w in
  generateFood fuel w.

(** The scan of [checkCollision] over [this.snake[i]]. *)
Fixpoint hitsSegment (head : Point) (segments : list Point) : bool :=
  match segments with
  | [] => false
  | segment :: segments' =>
      if (px head =? px segment) && (py head =? py segment) then true
      else hitsSegment head segments'
  end.

Definition checkCollision (w : World) (head : Point) : bool :=
  if (px head <? 0) || Qle_bool (tileCount (this w)) (inject_Z (px head))
     || (py head <? 0) || Qle_bool (tileCount (this w)) (inject_Z (py head))
  then true
  else hitsSegment head (snake (this w)).

Definition stopGame (w : World) : World :=
  let w := on_this (set_isGameRunning false) w in
  let w := on_this (set_isPaused false) w in
  clearInterval (gameLoop (this w)) w.

Definition gameOver (w : World) : Outcome World :=
  let w := stopGame w in
  let w := playSound "gameover" w in
  w <- (if Number_gtb (Num (score (this w))) (highScore (this w)) then
          let w := on_this (fun g => set_highScore (Num (score g)) g) w in
          localStorage_setItem (highScore (this w)) w
        else Done w) ;;
  Done (showOverlay "游戏结束"
          ("最终得分: " ++ Number_toString (Num (score (this w))))
          "重新开始" w).

(** [head.x === this.food.x && head.y === this.food.y]; both comparisons
    are false while [food] is still [{}]. *)
Definition onFood (head : Point) (f : option Point) : bool :=
  match f with
  | Some c => (px head =? px c) && (py head =? py c)
  | None => false
  end.

Definition update (fuel : nat) (w : World) : Outcome World :=
  let w := on_this (fun g => set_direction (nextDirection g) g) w in
  match snake (this w) with
  | [] => Raises "TypeError" w
  | s0 :: _ =>
      let head := mkPoint (px s0 + px (direction (this w)))
                          (py s0 + py (direction (this w))) in
      if checkCollision w head then gameOver w
      else
        let w := on_this (fun g => set_snake (head :: snake g) g) w in
        if onFood head (food (this w)) then
          let w := on_this (fun g => set_score (score g + 10) g) w in
          let w := playSound "eat" w in
          generateFood fuel w
        else
          Done (on_this (fun g => set_snake (removelast (snake g)) g) w)
  end.

Definition startGame (fuel : nat) (w : World) : Outcome World :=
  if isGameRunning (this w) then Done w
  else
    w <- resetGame fuel w ;;
    let w := on_this (set_isGameRunning true) w in
    let w := on_this (set_isPaused false) w in
    let w := playSound "start" w in
    let w := hideOverlay w in
    let '(h, w) := setInterval (gameSpeed (this w)) w in
    Done (on_this (set_gameLoop (Some h)) w).

Definition pauseGame (w : World) : World :=
  if negb (isGameRunning (this w)) || isPaused (this w) then w
  else
    let w := on_this (set_isPaused true) w in
    let w := clearInterval (gameLoop (this w)) w in
    showOverlay "游戏暂停" "点击继续按钮恢复游戏" "继续" w.

Definition resumeGame (w : World) : World :=
  if negb (isGameRunning (this w)) || negb (isPaused (this w)) then w
  else
    let w := on_this (set_isPaused false) w in
    let w := hideOverlay w in
    let '(h, w) := setInterval (gameSpeed (this w)) w in
    on_this (set_gameLoop (Some h)) w.

Definition restartGame (fuel : nat) (w : World) : Outcome World :=
  startGame fuel (stopGame w).

Definition setDifficulty (difficulty : string) (w : World) : World :=
  let w :=
    if String.eqb difficulty "easy" then on_this (set_gameSpeed 200) w
    else if String.eqb difficulty "medium" then on_this (set_gameSpeed 150) w
    else if String.eqb difficulty "hard" then on_this (set_gameSpeed 100) w
    else w in
  if isGameRunning (this w) && negb (isPaused (this w)) then
    let w := clearInterval (gameLoop (this w)) w in
    let '(h, w) := setInterval (gameSpeed (this w)) w in
    on_this (set_gameLoop (Some h)) w
  else w.

Definition setSoundEnabled (enabled : bool) (w : World) : World :=
  on_this (set_soundEnabled enabled) w.

Definition changeDirection (newDirection : Point) (w : World) : World :=
  let x := px newDirection in
  let y := py newDirection in
  if negb (x =? 0) && negb (px (direction (this w)) =? 0) then w
  else if negb (y =? 0) && negb (py (direction (this w)) =? 0) then w
  else on_this (set_nextDirection (mkPoint x y)) w.

(** ** Construction *)

(** [localStorage] as the constructor finds it: access throws, or it holds
    the items ([None]: no item under [snakeHighScore], for which [getItem]
    returns [null]). *)
Inductive LocalStorage : Type :=
| StorageUnavailable
| StorageItems (snakeHighScore : option string).

(** [String(v)] for the result of [getItem]. *)
Definition item_toString (item : option string) : string :=
  match item with
  | Some s => s
  | None => "null"
  end.

(** The document and browser a [SnakeGame] is constructed in:
    [canvas_width] is the attribute [width] of the canvas, an unsigned
    long; [setItem_throws] tells whether the store refuses writes at that
    time. *)
Record Browser : Type := mkBrowser {
  canvas_width : Z;
  localStorage : LocalStorage;
  setItem_throws : bool;
  AudioContext_supported : bool;
  random_source : nat -> Q;
  overlay_markup : Overlay
}.

Definition initAudio (supported : bool) (w : World) : World :=
  if supported then on_this (set_audioContext true) w else w.

Definition init (fuel : nat) (b : Browser) (w : World) : Outcome World :=
  let w := initAudio (AudioContext_supported b) w in
  resetGame fuel w.

(** The field assignments of the constructor, in a page that has no timer
    armed yet, once [localStorage.getItem] has returned [item]. *)
Definition assign_fields (b : Browser) (item : option string) : World :=
  let gridSize := 20 in
  mkWorld
    (mkSnakeGame gridSize
       (Number_div (inject_Z (canvas_width b)) (inject_Z gridSize))
       [] None (mkPoint 0 0) (mkPoint 0 0) 0
       (or_zero (parseInt (item_toString item)))
       None 150 false false true false)
    (mkPage [] 1 item (setItem_throws b) [] (overlay_markup b) []
       (random_source b) 0).

(** [new SnakeGame()]. A world exists only when the read of the store did
    not throw. *)
Definition constructor (fuel : nat) (b : Browser) : Outcome World :=
  match localStorage b with
  | StorageUnavailable => Throws "SecurityError"
  | StorageItems item => init fuel b (assign_fields b item)
  end.

(** ** Commands and lifecycle *)

(** The calls the page makes on the engine, and the timer firing. *)
Inductive Command : Type :=
| Start
| Pause
| Resume
| Restart
| ChangeDirection (newDirection : Point)
| SetDifficulty (difficulty : string)
| SetSoundEnabled (enabled : bool)
| Tick.

Definition run (fuel : nat) (c : Command) (w : World) : Outcome World :=
  match c with
  | Start => startGame fuel w
  | Pause => Done (pauseGame w)
  | Resume => Done (resumeGame w)
  | Restart => restartGame fuel w
  | ChangeDirection d => Done (changeDirection d w)
  | SetDifficulty l => Done (setDifficulty l w)
  | SetSoundEnabled e => Done (setSoundEnabled e w)
  | Tick => update fuel w
  end.

(** The page goes on after a call, whether it returned or threw: with the
    world it returned, or with the world it left behind. *)
Definition and_then (o : Outcome World) (k : World -> Outcome World)
  : Outcome World :=
  match o with
  | Done w => k w
  | Raises _ w => k w
  | Throws e => Throws e
  | Spinning => Spinning
  end.

Fixpoint runs (fuel : nat) (cs : list Command) (w : World) : Outcome World :=
  match cs with
  | [] => Done w
  | c :: cs' => and_then (run fuel c w) (runs fuel cs')
  end.

(** The worlds the engine can be in: constructed, then driven by commands
    and ticks, each of which returns or throws, while the store may start
    or stop to refuse writes at any time. *)
Inductive reachable (b : Browser) : World -> Prop :=
| reach_new : forall fuel w,
    constructor fuel b = Done w -> reachable b w
| reach_run : forall fuel c w w',
    reachable b w -> run fuel c w = Done w' -> reachable b w'
| reach_raise : forall fuel c w e w',
    reachable b w -> run fuel c w = Raises e w' -> reachable b w'
| reach_store : forall w v,
    reachable b w -> reachable b (on_page (set_setItemThrows v) w).

(** The lifecycle state the page shows. The engine keeps two flags and no
    state field; after a collision it is stopped like a game never started,
    and only the overlay put up by [gameOver] tells the two apart. *)
Inductive Lifecycle : Type := Idle | Running | Paused | GameOver.

Definition lifecycle (w : World) : Lifecycle :=
  if isGameRunning (this w) then
    if isPaused (this w) then Paused else Running
  else if negb (overlayHidden (overlay (page w)))
          && String.eqb (overlayTitle (overlay (page w))) "游戏结束"
       then GameOver
       else Idle.

(** ** Vocabulary of the properties *)

(** A cell of the board: both coordinates in [[0, tileCount)]. *)
Definition inBounds (w : World) (c : Point) : Prop :=
  0 <= px c /\ (inject_Z (px c) < tileCount (this w))%Q /\
  0 <= py c /\ (inject_Z (py c) < tileCount (this w))%Q.

(** The step the pending direction takes from the head of the snake: the
    cell the tick tries to enter. *)
Definition candidate (w : World) (s0 : Point) : Point :=
  mkPoint (px s0 + px (nextDirection (this w)))
          (py s0 + py (nextDirection (this w))).

(** The cell drawn in pass [k] (from 0) of a [generateFood] loop entered in
    world [w]. *)
Definition draw (w : World) (k : nat) : Point :=
  mkPoint
    (floor_scaled (Math_random (page w) (randomCalls (page w) + 2 * k)%nat)
                  (tileCount (this w)))
    (floor_scaled (Math_random (page w) (randomCalls (page w) + 2 * k + 1)%nat)
                  (tileCount (this w))).

Definition occupied (w : World) (c : Point) : bool :=
  isSnakeOnPosition w (px c) (py c).

(** [w] after [generateFood] accepted the draw of pass [k]. *)
Definition fed (w : World) (k : nat) : World :=
  on_this (set_food (Some (draw w k)))
    (on_page (set_randomCalls (randomCalls (page w) + 2 * S k)%nat) w).

(** [Math.random] returns a double in [[0, 1)]. *)
Definition unit_interval (random : nat -> Q) : Prop :=
  forall n, is_double (random n) /\ (0 <= random n /\ random n < 1)%Q.

(** Food lies on a cell that no segment of the snake occupies. *)
Definition food_off_snake (w : World) : Prop :=
  exists f, food (this w) = Some f /\ ~ In f (snake (this w)).

(** The forbidden pair of flags does not occur. *)
Definition flags_ok (w : World) : Prop :=
  ~ (isPaused (this w) = true /\ isGameRunning (this w) = false).

(** At most one timer is armed: the one in [gameLoop], at [gameSpeed], while
    the game runs unpaused, and none otherwise. *)
Definition schedule_ok (w : World) : Prop :=
  if isGameRunning (this w) && negb (isPaused (this w))
  then exists h, gameLoop (this w) = Some h /\
                 intervals (page w) = [(h, gameSpeed (this w))]
  else intervals (page w) = [].

(** A direction request passes the guard of [changeDirection]. *)
Definition accepted (current newDirection : Point) : bool :=
  negb (negb (px newDirection =? 0) && negb (px current =? 0))
  && negb (negb (py newDirection =? 0) && negb (py current =? 0)).

Definition changeDirections (ds : list Point) (w : World) : World :=
  fold_left (fun w d => changeDirection d w) ds w.

(** The levels [setDifficulty] knows. *)
Definition known_level (difficulty : string) : bool :=
  String.eqb difficulty "easy" || String.eqb difficulty "medium"
  || String.eqb difficulty "hard".

(** The first statement of [update]: the pending direction becomes the
    current one. *)
Definition commitDirection (w : World) : World :=
  on_this (fun g => set_direction (nextDirection g) g) w.

(** [w] after one rejected pass of the [generateFood] loop. *)
Definition redraw (w : World) : World :=
  on_page (set_randomCalls (S (S (randomCalls (page w))))) w.

(** The assignments of [resetGame] before it calls [generateFood]. *)
Definition reset_board (w : World) : World :=
  let w := on_this (set_snake [mkPoint 10 10; mkPoint 9 10; mkPoint 8 10]) w in
  let w := on_this (set_direction (mkPoint 1 0)) w in
  let w := on_this (set_nextDirection (mkPoint 1 0)) w in
  on_this (set_score 0) w.

(** The statements of [startGame] after [resetGame] returned. *)
Definition launch (w : World) : World :=
  let w := on_this (set_isGameRunning true) w in
  let w := on_this (set_isPaused false) w in
  let w := playSound "start" w in
  let w := hideOverlay w in
  let '(h, w) := setInterval (gameSpeed (this w)) w in
  on_this (set_gameLoop (Some h)) w.

(** The world a call leaves behind: the one it returns, or the one it
    threw in. *)
Definition left_by (o : Outcome World) (w' : World) : Prop :=
  match o with
  | Done a => w' = a
  | Raises _ a => w' = a
  | _ => False
  end.

(** [this.score > this.highScore], the test of [gameOver]. *)
Definition record_broken (w : World) : bool :=
  Number_gtb (Num (score (this w))) (highScore (this w)).

(** [w] after the statements of [gameOver] up to the assignment of the
    high score: the game is stopped, the tone is started and the high score
    is the score if that is greater. *)
Definition gameOver_stopped (w : World) : World :=
  let w := playSound "gameover" (stopGame w) in
  if record_broken w
  then on_this (fun g => set_highScore (Num (score g)) g) w
  else w.

(** [w] after a [gameOver] that returned: the new high score is stored and
    the overlay is up. *)
Definition gameOver_completed (w : World) : World :=
  let w1 := gameOver_stopped w in
  showOverlay "游戏结束"
    ("最终得分: " ++ Number_toString (Num (score (this w)))) "重新开始"
    (if record_broken w
     then on_page (fun p =>
            set_setItemLog
              (setItemLog p ++ [Number_toString (Num (score (this w)))])
              (set_storedHighScore
                 (Some (Number_toString (Num (score (this w))))) p)) w1
     else w1).

(** The overlay is hidden while the game runs unpaused. *)
Definition overlay_ok (w : World) : Prop :=
  isGameRunning (this w) = true -> isPaused (this w) = false ->
  overlayHidden (overlay (page w)) = true.

(** What holds of every world the engine can be in. *)
Definition invariant (w : World) : Prop :=
  food_off_snake w /\ flags_ok w /\ schedule_ok w /\ snake (this w) <> [].

(** The number a string of decimal digits denotes, read from the left with
    [acc] the value of the digits already read. *)
Fixpoint horner (d : Decimal.uint) (acc : Z) : Z :=
  match d with
  | Decimal.Nil => acc
  | Decimal.D0 d => horner d (acc * 10 + 0)
  | Decimal.D1 d => horner d (acc * 10 + 1)
  | Decimal.D2 d => horner d (acc * 10 + 2)
  | Decimal.D3 d => horner d (acc * 10 + 3)
  | Decimal.D4 d => horner d (acc * 10 + 4)
  | Decimal.D5 d => horner d (acc * 10 + 5)
  | Decimal.D6 d => horner d (acc * 10 + 6)
  | Decimal.D7 d => horner d (acc * 10 + 7)
  | Decimal.D8 d => horner d (acc * 10 + 8)
  | Decimal.D9 d => horner d (acc * 10 + 9)
  end.

(** The last step of [parseInt] at radix 10. *)
Definition read_digits (sign : Z) (s : string) : JsNumber :=
  match parseDigits 10 s None with
  | Some m => Number_of_Z (sign * m)
  | None => NaN
  end.

(** ** Sample pages and games *)

(** A sequence of results of [Math.random]: the first two place Food on
    (3,7), the next two on (11,10), all later ones on (7,7). *)
Definition sample_random (n : nat) : Q :=
  match n with
  | 0%nat => 5 # 32
  | 2%nat => 9 # 16
  | 3%nat => 1 # 2
  | _ => 3 # 8
  end.

(** A page with a canvas 400 wide, a stored high score of 100 that can be
    overwritten, and an empty, visible overlay. *)
Definition sample_browser : Browser :=
  mkBrowser 400 (StorageItems (Some "100"%string)) false true sample_random
    (mkOverlay "" "" "" false).

(** The same page with a store that cannot be read. *)
Definition locked_browser : Browser :=
  mkBrowser 400 StorageUnavailable false true sample_random
    (mkOverlay "" "" "" false).

(** The same page with an empty store that can be read and refuses every
    write. *)
Definition readonly_browser : Browser :=
  mkBrowser 400 (StorageItems None) true true sample_random
    (mkOverlay "" "" "" false).

(** The game right after [new SnakeGame()] and [startGame()] in the sample
    page: snake (10,10),(9,10),(8,10) heading right, Food on (11,10). *)
Definition eating : World :=
  mkWorld
    (mkSnakeGame 20 (inject_Z 20)
       [mkPoint 10 10; mkPoint 9 10; mkPoint 8 10] (Some (mkPoint 11 10))
       (mkPoint 1 0) (mkPoint 1 0) 0 (Num 100) (Some 1%nat) 150
       true false true true)
    (mkPage [(1%nat, 150)] 2 (Some "100"%string) false []
       (mkOverlay "" "" "" true) ["start"%string] sample_random 4).

(** The world an outcome holds, or else [w]. *)
Definition outcome_or (w : World) (o : Outcome World) : World :=
  match o with
  | Done w' => w'
  | Raises _ w' => w'
  | _ => w
  end.

(** Nine ticks later: the head is on (19,10), the last column. *)
Definition at_wall : World :=
  Eval vm_compute in outcome_or eating (runs 1 (repeat Tick 9) eating).

(** The tenth tick runs into the wall. *)
Definition crashed : World :=
  Eval vm_compute in outcome_or eating (update 1 at_wall).

(** A game about to hit the wall with a score of 120 against a high score
    of 100. *)
Definition record_run : World := on_this (set_score 120) at_wall.

(** The same game when the store refuses writes. *)
Definition record_run_refused : World :=
  on_page (set_setItemThrows true) record_run.

(** The game in the page whose store refuses writes, after [startGame()]
    and nine ticks: it has eaten once, so its score of 10 is above the
    high score of 0, and the head is on (19,10). *)
Definition refused_at_wall : World :=
  Eval vm_compute in
    outcome_or eating
      (w <- constructor 1 readonly_browser ;; runs 1 (Start :: repeat Tick 9) w).

(** What its tenth tick, into the wall, leaves behind. *)
Definition refused_crashed : World :=
  Eval vm_compute in outcome_or eating (update 1 refused_at_wall).

(** ** The listeners of [bindEvents] and the timer *)

(** [case k1: case k2: ...] of the key switch. *)
Definition key_in (key : string) (keys : list string) : bool :=
  existsb (String.eqb key) keys.

(** The [keydown] listener. *)
Definition onKeyDown (fuel : nat) (key : string) (w : World) : Outcome World :=
  if negb (isGameRunning (this w)) || isPaused (this w) then
    if String.eqb key " " || String.eqb key "Enter" then
      if isPaused (this w) then Done (resumeGame w)
      else if negb (isGameRunning (this w)) then startGame fuel w
      else Done w
    else Done w
  else if key_in key ["ArrowUp"%string; "w"%string; "W"%string]
       then Done (changeDirection (mkPoint 0 (-1)) w)
  else if key_in key ["ArrowDown"%string; "s"%string; "S"%string]
       then Done (changeDirection (mkPoint 0 1) w)
  else if key_in key ["ArrowLeft"%string; "a"%string; "A"%string]
       then Done (changeDirection (mkPoint (-1) 0) w)
  else if key_in key ["ArrowRight"%string; "d"%string; "D"%string]
       then Done (changeDirection (mkPoint 1 0) w)
  else if String.eqb key " " then Done (pauseGame w)
  else Done w.

(** The [click] listeners, by the id of the element clicked. A click is
    taken whether or not [updateButtonStates] left the button enabled: more
    clicks than the page delivers. *)
Definition onClick (fuel : nat) (id : string) (w : World) : Outcome World :=
  if String.eqb id "start-btn" then startGame fuel w
  else if String.eqb id "pause-btn" then
    if isPaused (this w) then Done (resumeGame w) else Done (pauseGame w)
  else if String.eqb id "restart-btn" then restartGame fuel w
  else if String.eqb id "overlay-button" then
    if isPaused (this w) then Done (resumeGame w) else restartGame fuel w
  else if String.eqb id "up-btn"
       then Done (changeDirection (mkPoint 0 (-1)) w)
  else if String.eqb id "down-btn"
       then Done (changeDirection (mkPoint 0 1) w)
  else if String.eqb id "left-btn"
       then Done (changeDirection (mkPoint (-1) 0) w)
  else if String.eqb id "right-btn"
       then Done (changeDirection (mkPoint 1 0) w)
  else Done w.

(** The timer with handle [handle] is armed. *)
Definition armed (handle : nat) (w : World) : bool :=
  existsb (fun t => Nat.eqb (fst t) handle) (intervals (page w)).

(** What the page delivers to the engine: a key, a click, a change of the
    difficulty select or of the sound checkbox, and the callback
    [() => this.update()] of a timer, which runs only while that timer is
    armed. *)
Inductive Event : Type :=
| KeyDown (key : string)
| Click (id : string)
| ChangeDifficulty (value : string)
| ChangeSoundToggle (checked : bool)
| IntervalFires (handle : nat).

Definition dispatch (fuel : nat) (e : Event) (w : World) : Outcome World :=
  match e with
  | KeyDown key => onKeyDown fuel key w
  | Click id => onClick fuel id w
  | ChangeDifficulty value => Done (setDifficulty value w)
  | ChangeSoundToggle checked => Done (setSoundEnabled checked w)
  | IntervalFires handle =>
      if armed handle w then update fuel w else Done w
  end.

(** The worlds the page can bring the engine to: a listener or a timer
    callback returns or throws, and the store may start or stop to refuse
    writes at any time. *)
Inductive reachable_by_events (b : Browser) : World -> Prop :=
| events_new : forall fuel w,
    constructor fuel b = Done w -> reachable_by_events b w
| events_step : forall fuel e w w',
    reachable_by_events b w -> dispatch fuel e w = Done w' ->
    reachable_by_events b w'
| events_raise : forall fuel e w err w',
    reachable_by_events b w -> dispatch fuel e w = Raises err w' ->
    reachable_by_events b w'
| events_store : forall w v,
    reachable_by_events b w ->
    reachable_by_events b (on_page (set_setItemThrows v) w).

(** ** Vocabulary of the further properties *)

(** One of the four unit steps along an axis. *)
Definition cardinal (d : Point) : bool :=
  Point_eqb d (mkPoint 1 0) || Point_eqb d (mkPoint (-1) 0)
  || Point_eqb d (mkPoint 0 1) || Point_eqb d (mkPoint 0 (-1)).

(** [a] is [b] turned by 180 degrees. *)
Definition opposite (a b : Point) : Prop :=
  px a = - px b /\ py a = - py b.

(** Two cells that share an edge. *)
Definition adjacent (a b : Point) : Prop :=
  Z.abs (px a - px b) + Z.abs (py a - py b) = 1.

(** Every segment shares an edge with the next one. *)
Fixpoint chain (cells : list Point) : Prop :=
  match cells with
  | a :: (b :: _) as rest => adjacent a b /\ chain rest
  | _ => True
  end.

(** The second segment lies one step of the current direction behind the
    head. *)
Definition neck_behind (w : World) : Prop :=
  match snake (this w) with
  | h :: n :: _ =>
      n = mkPoint (px h - px (direction (this w)))
                  (py h - py (direction (this w)))
  | _ => True
  end.

(** What the listeners keep of the two direction slots and the body. *)
Definition steering_ok (w : World) : Prop :=
  cardinal (direction (this w)) = true /\
  cardinal (nextDirection (this w)) = true /\
  ~ opposite (nextDirection (this w)) (direction (this w)) /\
  chain (snake (this w)) /\
  (isGameRunning (this w) = true -> neck_behind w).

(** The board the constructor lays out for a canvas of the given width. *)
Definition side_of (b : Browser) : Q :=
  Number_div (inject_Z (canvas_width b)) (inject_Z 20).

(** What every reachable world keeps of the board and the score. *)
Definition board_ok (b : Browser) (w : World) : Prop :=
  gridSize (this w) = 20 /\
  tileCount (this w) = side_of b /\
  Math_random (page w) = random_source b /\
  NoDup (snake (this w)) /\
  (3 <= List.length (snake (this w)))%nat /\
  score (this w) = 10 * (Z.of_nat (List.length (snake (this w))) - 3) /\
  (gameSpeed (this w) = 100 \/ gameSpeed (this w) = 150
   \/ gameSpeed (this w) = 200) /\
  ((10 < side_of b)%Q -> forall c, In c (snake (this w)) -> inBounds w c) /\
  ((0 < side_of b)%Q -> unit_interval (random_source b) ->
   forall f, food (this w) = Some f -> inBounds w f).

(** The tones a command may start. *)
Definition audible (w : World) : bool :=
  soundEnabled (this w) && audioContext (this w).

(** The snake [resetGame] lays out. *)
Definition three_cells : list Point :=
  [mkPoint 10 10; mkPoint 9 10; mkPoint 8 10].

(** ** Drawing the eyes *)

(** The canvas calls [drawEyes] makes. Every [arc] there is a full circle,
    from angle 0 to [Math.PI * 2]; only centre and radius are kept. *)
Inductive CanvasCall : Type :=
| fillStyle (colour : string)
| beginPath
| arc (x y : Z) (radius : Q)
| fill.

Definition drawEyes (w : World) (head : Point) : list CanvasCall :=
  let eyeSize := 3 in
  let eyeOffset := 5 in
  let gridSize := gridSize (this w) in
  let '(eye1X, eye1Y, eye2X, eye2Y) :=
    if px (direction (this w)) =? 1 then
      (px head * gridSize + gridSize - eyeOffset,
       py head * gridSize + eyeOffset,
       px head * gridSize + gridSize - eyeOffset,
       py head * gridSize + gridSize - eyeOffset)
    else if px (direction (this w)) =? -1 then
      (px head * gridSize + eyeOffset,
       py head * gridSize + eyeOffset,
       px head * gridSize + eyeOffset,
       py head * gridSize + gridSize - eyeOffset)
    else if py (direction (this w)) =? 1 then
      (px head * gridSize + eyeOffset,
       py head * gridSize + gridSize - eyeOffset,
       px head * gridSize + gridSize - eyeOffset,
       py head * gridSize + gridSize - eyeOffset)
    else
      (px head * gridSize + eyeOffset,
       py head * gridSize + eyeOffset,
       px head * gridSize + gridSize - eyeOffset,
       py head * gridSize + eyeOffset) in
  [fillStyle "#fff"; beginPath; arc eye1X eye1Y (inject_Z eyeSize); fill;
   beginPath; arc eye2X eye2Y (inject_Z eyeSize); fill;
   fillStyle "#000"; beginPath; arc eye1X eye1Y (3 # 2); fill;
   beginPath; arc eye2X eye2Y (3 # 2); fill].

(** A circle is drawn within the square of the cell [head]. *)
Definition inside_cell (w : World) (head : Point) (c : CanvasCall) : Prop :=
  match c with
  | arc x y r =>
      (inject_Z (px head * gridSize (this w)) <= inject_Z x - r /\
       inject_Z x + r
         <= inject_Z (px head * gridSize (this w) + gridSize (this w)) /\
       inject_Z (py head * gridSize (this w)) <= inject_Z y - r /\
       inject_Z y + r
         <= inject_Z (py head * gridSize (this w) + gridSize (this w)))%Q
  | _ => True
  end.

(** A circle has its centre in the half of the cell [head] that lies in
    the direction [d]. *)
Definition in_leading_half (w : World) (head d : Point) (c : CanvasCall)
  : Prop :=
  match c with
  | arc x y _ =>
      0 < (2 * (x - px head * gridSize (this w)) - gridSize (this w)) * px d
          + (2 * (y - py head * gridSize (this w)) - gridSize (this w)) * py d
  | _ => True
  end.

(** ** More sample games *)

Fixpoint dispatches (fuel : nat) (es : list Event) (w : World)
  : Outcome World :=
  match es with
  | [] => Done w
  | e :: es' => and_then (dispatch fuel e w) (dispatches fuel es')
  end.

(** The sample engine right after construction. *)
Definition at_rest : World :=
  Eval vm_compute in outcome_or eating (constructor 1 sample_browser).

(** The first sample game, paused. *)
Definition paused_game : World := Eval vm_compute in pauseGame eating.

(** The page of the record run, visited again with a new engine. *)
Definition revisited_browser : Browser :=
  mkBrowser 400
    (StorageItems (storedHighScore (page (gameOver_completed record_run))))
    false true sample_random (mkOverlay "" "" "" false).

Definition revisited : World :=
  Eval vm_compute in outcome_or eating (constructor 1 revisited_browser).

(** * Properties *)

(** ** Rounding to a double *)

Lemma pow2_pos (e : Z) : (0 < pow2 e)%Q.
Proof. apply Qpower_0_lt. reflexivity. Qed.

Lemma pow2_add (a b : Z) : (pow2 (a + b) == pow2 a * pow2 b)%Q.
Proof. apply Qpower_plus. discriminate. Qed.

Lemma pow2_le (a b : Z) : a <= b -> (pow2 a <= pow2 b)%Q.
Proof. intros H. apply Qpower_le_compat_l; [exact H | discriminate]. Qed.

Lemma pow2_Z (e : Z) : 0 <= e -> (pow2 e == inject_Z (2 ^ e))%Q.
Proof. intros H. unfold pow2. rewrite Zpower_Qpower by exact H. reflexivity. Qed.

Lemma floor_log2_le (x : Q) : (0 < x)%Q -> (pow2 (floor_log2 x) <= x)%Q.
Proof.
  intros Hx. unfold floor_log2.
  set (e := Z.log2 (Qnum x) - Z.log2 (Z.pos (Qden x))).
  destruct (Qle_bool (pow2 e) x) eqn:E; [apply Qle_bool_iff; exact E|].
  destruct x as [a b]. cbn [Qnum Qden] in *.
  assert (Ha : 0 < a).
  { unfold Qlt in Hx. cbn in Hx. lia. }
  pose proof (Z.log2_spec a Ha) as [Hla _].
  pose proof (Z.log2_spec (Z.pos b) (Pos2Z.is_pos b)) as [_ Hlb].
  pose proof (Z.log2_nonneg a) as Hna.
  pose proof (Z.log2_nonneg (Z.pos b)) as Hnb.
  assert (Hb : (inject_Z (Z.pos b) <= pow2 (Z.log2 (Z.pos b) + 1))%Q).
  { rewrite pow2_Z by lia. rewrite <- Zle_Qle.
    replace (Z.log2 (Z.pos b) + 1) with (Z.succ (Z.log2 (Z.pos b))) by lia.
    lia. }
  assert (Hq : (pow2 (Z.log2 a) <= inject_Z a)%Q).
  { rewrite pow2_Z by lia. rewrite <- Zle_Qle. exact Hla. }
  assert (Hsplit : (pow2 (Z.log2 a) == pow2 (e - 1) * pow2 (Z.log2 (Z.pos b) + 1))%Q).
  { rewrite <- pow2_add. unfold e.
    replace (Z.log2 a - Z.log2 (Z.pos b) - 1 + (Z.log2 (Z.pos b) + 1))
      with (Z.log2 a) by lia. reflexivity. }
  assert (Hab : (a # b == inject_Z a / inject_Z (Z.pos b))%Q).
  { rewrite (Qmake_Qdiv a b). reflexivity. }
  rewrite Hab. apply Qle_shift_div_l; [reflexivity|].
  eapply Qle_trans; [|exact Hq]. rewrite Hsplit.
  apply Qmult_le_l; [apply pow2_pos | exact Hb].
Qed.

Lemma round_half_even_le (m : Q) :
  (inject_Z (round_half_even m) <= m + (1 # 2))%Q.
Proof.
  unfold round_half_even.
  pose proof (Qfloor_le m) as Hf.
  destruct (Qcompare_spec (m - inject_Z (Qfloor m)) (1 # 2)) as [E|E|E].
  - destruct (Z.even (Qfloor m)); [lra|].
    rewrite inject_Z_plus. change (inject_Z 1) with 1%Q. lra.
  - lra.
  - rewrite inject_Z_plus. change (inject_Z 1) with 1%Q. lra.
Qed.

Lemma round_half_even_nonneg (m : Q) : (0 <= m)%Q -> 0 <= round_half_even m.
Proof.
  intros Hm. unfold round_half_even.
  assert (Hf : 0 <= Qfloor m).
  { rewrite <- (Qfloor_Z 0). apply Qfloor_resp_le. exact Hm. }
  destruct (m - inject_Z (Qfloor m) ?= 1 # 2)%Q;
    [destruct (Z.even (Qfloor m))|..]; lia.
Qed.

Lemma RN_pos_le (x : Q) :
  (0 < x)%Q -> (RN_pos x <= x + pow2 (ulp_exponent x) * (1 # 2))%Q.
Proof.
  intros Hx. unfold RN_pos.
  pose proof (pow2_pos (ulp_exponent x)) as Hu.
  set (u := pow2 (ulp_exponent x)) in *.
  pose proof (round_half_even_le (x / u)) as H.
  assert (E : (x + u * (1 # 2) == (x / u + (1 # 2)) * u)%Q).
  { field. intros E. rewrite E in Hu. exact (Qlt_irrefl _ Hu). }
  rewrite E. apply Qmult_le_compat_r; [exact H | apply Qlt_le_weak; exact Hu].
Qed.

Lemma RN_pos_nonneg (x : Q) : (0 < x)%Q -> (0 <= RN_pos x)%Q.
Proof.
  intros Hx. unfold RN_pos.
  pose proof (pow2_pos (ulp_exponent x)) as Hu.
  apply Qmult_le_0_compat; [|apply Qlt_le_weak; exact Hu].
  change 0%Q with (inject_Z 0). rewrite <- Zle_Qle.
  apply round_half_even_nonneg.
  apply Qle_shift_div_l; [exact Hu|]. lra.
Qed.

(** The half ulp of a positive number is at most the 2^-53 part of it, or it is 2^-1075. *)
Lemma half_ulp (x : Q) :
  (0 < x)%Q ->
  (pow2 (ulp_exponent x) * (1 # 2) <= x * pow2 (-53))%Q \/
  (pow2 (ulp_exponent x) * (1 # 2) == pow2 (-1075))%Q.
Proof.
  intros Hx. unfold ulp_exponent.
  destruct (Z.max_spec (floor_log2 x - 52) (-1074)) as [[_ ->] | [_ ->]].
  - right. reflexivity.
  - left. replace (floor_log2 x - 52) with (floor_log2 x + (-53) + 1) by lia.
    rewrite !pow2_add.
    pose proof (floor_log2_le x Hx) as H.
    pose proof (pow2_pos (-53)) as H53.
    change (pow2 1) with 2%Q.
    setoid_replace (pow2 (floor_log2 x) * pow2 (-53) * 2 * (1 # 2))%Q
      with (pow2 (floor_log2 x) * pow2 (-53))%Q by ring.
    apply Qmult_le_compat_r; [exact H | apply Qlt_le_weak; exact H53].
Qed.

Lemma RN_nonneg (x : Q) : (0 <= x)%Q -> (0 <= RN x)%Q.
Proof.
  intros Hx. unfold RN. rewrite Qred_correct.
  destruct (Qcompare_spec x 0) as [E|E|E].
  - lra.
  - lra.
  - apply RN_pos_nonneg. exact E.
Qed.

(** The product of a double below 1 and a positive number, rounded, has its integer part below that number *)
Lemma Number_mul_below (r n : Q) :
  (0 <= r)%Q -> (r <= 1 - pow2 (-53))%Q -> (0 < n)%Q ->
  (inject_Z (Qfloor (Number_mul r n)) < n)%Q.
Proof.
  intros H0 H1 Hn. unfold Number_mul, RN. rewrite Qred_correct.
  assert (H53 : (pow2 (-53) == 1 # 9007199254740992)%Q) by reflexivity.
  destruct (Qcompare_spec (r * n) 0) as [E|E|E].
  - change (inject_Z (Qfloor 0)) with 0%Q. exact Hn.
  - exfalso. assert (0 <= r * n)%Q by (apply Qmult_le_0_compat; lra). lra.
  - pose proof (RN_pos_le (r * n) E) as Hle.
    assert (Hrn : (r * n <= (1 - pow2 (-53)) * n)%Q).
    { apply Qmult_le_compat_r; lra. }
    destruct (half_ulp (r * n) E) as [Hh | Hh].
    + eapply Qle_lt_trans; [apply Qfloor_le|].
      eapply Qle_lt_trans; [exact Hle|].
      rewrite H53 in *. nra.
    + destruct (Qlt_le_dec (r * n) (pow2 (-1022))) as [Hs | Hb].
      * assert (Hlt : (RN_pos (r * n) < 1)%Q).
        { eapply Qle_lt_trans; [exact Hle|]. rewrite Hh.
          eapply Qlt_trans; [apply Qplus_lt_l; exact Hs|]. reflexivity. }
        assert (Hfl : Qfloor (RN_pos (r * n)) <= 0).
        { apply Z.lt_succ_r. rewrite Zlt_Qlt.
          eapply Qle_lt_trans; [apply Qfloor_le | exact Hlt]. }
        eapply Qle_lt_trans; [|exact Hn].
        change 0%Q with (inject_Z 0). rewrite <- Zle_Qle. exact Hfl.
      * eapply Qle_lt_trans; [apply Qfloor_le|].
        eapply Qle_lt_trans; [exact Hle|]. rewrite Hh.
        assert (Hx : (pow2 (-1075) <= r * n * pow2 (-53))%Q).
        { setoid_replace (pow2 (-1075)) with (pow2 (-1022) * pow2 (-53))%Q
            by (rewrite <- pow2_add; reflexivity).
          apply Qmult_le_compat_r; [exact Hb|]. rewrite H53. discriminate. }
        rewrite H53 in *. nra.
Qed.

Lemma is_double_below_one (r : Q) :
  is_double r -> (r < 1)%Q -> (r <= 1 - pow2 (-53))%Q.
Proof.
  intros [m [e [Hm [He Hr]]]] H1.
  assert (H53 : (pow2 (-53) == 1 # 9007199254740992)%Q) by reflexivity.
  destruct (Z_lt_le_dec e (-53)) as [Hlow | Hhigh].
  - (* below 2^-54 * 2^53 *)
    assert (Hm' : (inject_Z m <= inject_Z (2 ^ 53))%Q).
    { rewrite <- Zle_Qle. lia. }
    assert (He' : (pow2 e <= pow2 (-54))%Q) by (apply pow2_le; lia).
    pose proof (pow2_pos e) as Hpe.
    assert (H54 : (pow2 (-54) == 1 # 18014398509481984)%Q) by reflexivity.
    rewrite Hr.
    destruct (Qlt_le_dec (inject_Z m) 0) as [Hneg | Hpos].
    + assert (inject_Z m * pow2 e <= 0)%Q by nra. rewrite H53. lra.
    + assert ((inject_Z m * pow2 e <= inject_Z (2 ^ 53) * pow2 (-54))%Q).
      { eapply Qle_trans.
        - apply Qmult_le_compat_r; [exact Hm' | lra].
        - apply Qmult_le_l; [reflexivity | exact He']. }
      eapply Qle_trans; [exact H|]. discriminate.
  - (* a multiple of 2^-53 *)
    assert (Hk : (r == inject_Z (m * 2 ^ (e + 53)) * pow2 (-53))%Q).
    { rewrite Hr, inject_Z_mult, <- pow2_Z by lia.
      rewrite <- Qmult_assoc, <- pow2_add.
      replace (e + 53 + -53) with e by lia. reflexivity. }
    rewrite Hk in *.
    assert (Hlt : m * 2 ^ (e + 53) < 2 ^ 53).
    { rewrite Zlt_Qlt. rewrite H53 in H1.
      change (inject_Z (2 ^ 53)) with (9007199254740992 # 1)%Q. lra. }
    assert (Hle : (inject_Z (m * 2 ^ (e + 53)) <= inject_Z (2 ^ 53 - 1))%Q).
    { rewrite <- Zle_Qle. lia. }
    change (inject_Z (2 ^ 53 - 1)) with (9007199254740991 # 1)%Q in Hle.
    rewrite H53. lra.
Qed.

Lemma floor_scaled_range (r n : Q) :
  is_double r -> (0 <= r)%Q -> (r < 1)%Q -> (0 < n)%Q ->
  0 <= floor_scaled r n /\ (inject_Z (floor_scaled r n) < n)%Q.
Proof.
  intros Hd H0 H1 Hn. unfold floor_scaled. split.
  - rewrite <- (Qfloor_Z 0). apply Qfloor_resp_le.
    apply RN_nonneg. apply Qmult_le_0_compat; lra.
  - apply Number_mul_below; [exact H0 | | exact Hn].
    apply is_double_below_one; assumption.
Qed.

Lemma floor_log2_lt (x : Q) : (0 < x)%Q -> (x < pow2 (floor_log2 x + 1))%Q.
Proof.
  intros Hx. unfold floor_log2.
  set (e := Z.log2 (Qnum x) - Z.log2 (Z.pos (Qden x))).
  destruct (Qle_bool (pow2 e) x) eqn:E.
  - destruct x as [a b]. cbn [Qnum Qden] in *.
    assert (Ha : 0 < a).
    { unfold Qlt in Hx. cbn in Hx. lia. }
    pose proof (Z.log2_spec a Ha) as [_ Hla].
    pose proof (Z.log2_spec (Z.pos b) (Pos2Z.is_pos b)) as [Hlb _].
    pose proof (Z.log2_nonneg a) as Hna.
    pose proof (Z.log2_nonneg (Z.pos b)) as Hnb.
    assert (Hq : (inject_Z a < pow2 (Z.log2 a + 1))%Q).
    { rewrite pow2_Z by lia. rewrite <- Zlt_Qlt.
      replace (Z.log2 a + 1) with (Z.succ (Z.log2 a)) by lia. exact Hla. }
    assert (Hb : (pow2 (Z.log2 (Z.pos b)) <= inject_Z (Z.pos b))%Q).
    { rewrite pow2_Z by lia. rewrite <- Zle_Qle. exact Hlb. }
    assert (Hsplit : (pow2 (Z.log2 a + 1)
                      == pow2 (e + 1) * pow2 (Z.log2 (Z.pos b)))%Q).
    { rewrite <- pow2_add. unfold e.
      replace (Z.log2 a - Z.log2 (Z.pos b) + 1 + Z.log2 (Z.pos b))
        with (Z.log2 a + 1) by lia. reflexivity. }
    assert (Hab : (a # b == inject_Z a / inject_Z (Z.pos b))%Q).
    { rewrite (Qmake_Qdiv a b). reflexivity. }
    rewrite Hab. apply Qlt_shift_div_r; [reflexivity|].
    eapply Qlt_le_trans; [exact Hq|]. rewrite Hsplit.
    apply Qmult_le_l; [apply pow2_pos | exact Hb].
  - replace (e - 1 + 1) with e by lia.
    apply Qnot_le_lt. intros Hle. apply Qle_bool_iff in Hle. congruence.
Qed.

Lemma round_half_even_ge (m : Q) :
  (m - (1 # 2) <= inject_Z (round_half_even m))%Q.
Proof.
  unfold round_half_even.
  pose proof (Qlt_floor m) as Hf.
  rewrite inject_Z_plus in Hf. change (inject_Z 1) with 1%Q in Hf.
  destruct (Qcompare_spec (m - inject_Z (Qfloor m)) (1 # 2)) as [E|E|E].
  - destruct (Z.even (Qfloor m)); [lra|].
    rewrite inject_Z_plus. change (inject_Z 1) with 1%Q. lra.
  - lra.
  - rewrite inject_Z_plus. change (inject_Z 1) with 1%Q. lra.
Qed.

Lemma round_half_even_floor (m : Q) :
  Qfloor m <= round_half_even m <= Qfloor m + 1.
Proof.
  unfold round_half_even.
  destruct (m - inject_Z (Qfloor m) ?= 1 # 2)%Q;
    [destruct (Z.even (Qfloor m))|..]; lia.
Qed.

(** The rounded value is within half a unit in the last place. *)
Lemma RN_pos_ge (x : Q) :
  (0 < x)%Q -> (x - pow2 (ulp_exponent x) * (1 # 2) <= RN_pos x)%Q.
Proof.
  intros Hx. unfold RN_pos.
  pose proof (pow2_pos (ulp_exponent x)) as Hu.
  set (u := pow2 (ulp_exponent x)) in *.
  pose proof (round_half_even_ge (x / u)) as H.
  assert (E : (x - u * (1 # 2) == (x / u - (1 # 2)) * u)%Q).
  { field. intros E. rewrite E in Hu. exact (Qlt_irrefl _ Hu). }
  rewrite E. apply Qmult_le_compat_r; [exact H | apply Qlt_le_weak; exact Hu].
Qed.

(** The rounded value is a double. *)
Lemma RN_pos_is_double (x : Q) : (0 < x)%Q -> is_double (RN_pos x).
Proof.
  intros Hx. unfold RN_pos.
  pose proof (pow2_pos (ulp_exponent x)) as Hu.
  assert (He : -1074 <= ulp_exponent x) by (unfold ulp_exponent; lia).
  assert (Hfl : floor_log2 x - 52 <= ulp_exponent x)
    by (unfold ulp_exponent; lia).
  set (e := ulp_exponent x) in *.
  assert (Hq : (x / pow2 e < inject_Z (2 ^ 53))%Q).
  { apply Qlt_shift_div_r; [exact Hu|].
    eapply Qlt_le_trans; [apply (floor_log2_lt x Hx)|].
    rewrite <- pow2_Z by lia. rewrite <- pow2_add.
    apply pow2_le. lia. }
  assert (Hpos : (0 <= x / pow2 e)%Q).
  { apply Qle_shift_div_l; [exact Hu|]. lra. }
  pose proof (round_half_even_floor (x / pow2 e)) as [_ Hup].
  pose proof (round_half_even_nonneg _ Hpos) as Hlow.
  assert (Hf : Qfloor (x / pow2 e) < 2 ^ 53).
  { rewrite Zlt_Qlt. eapply Qle_lt_trans; [apply Qfloor_le | exact Hq]. }
  set (m := round_half_even (x / pow2 e)) in *.
  destruct (Z.eq_dec m (2 ^ 53)) as [Em | Em].
  - exists (2 ^ 52), (e + 1). split; [reflexivity|]. split; [lia|].
    rewrite Em, pow2_add. change (pow2 1) with 2%Q.
    change (inject_Z (2 ^ 53)) with (inject_Z (2 ^ 52) * 2)%Q. ring.
  - exists m, e. split; [lia|]. split; [exact He | reflexivity].
Qed.

(** An integer is its own nearest integer. *)
Lemma round_half_even_Z (q : Q) (k : Z) :
  (q == inject_Z k)%Q -> round_half_even q = k.
Proof.
  intros E. unfold round_half_even.
  assert (Hf : Qfloor q = k) by (rewrite E; apply Qfloor_Z).
  rewrite Hf.
  assert (H : (q - inject_Z k ?= 1 # 2)%Q = Lt).
  { apply Qlt_alt. rewrite E. unfold Qminus. rewrite Qplus_opp_r.
    reflexivity. }
  rewrite H. reflexivity.
Qed.

Lemma floor_log2_Z (z : Z) : 0 < z -> floor_log2 (inject_Z z) = Z.log2 z.
Proof.
  intros Hz. unfold floor_log2. cbn [Qnum Qden inject_Z].
  change (Z.log2 1) with 0. rewrite Z.sub_0_r.
  assert (H : Qle_bool (pow2 (Z.log2 z)) (inject_Z z) = true).
  { apply Qle_bool_iff. rewrite pow2_Z by apply Z.log2_nonneg.
    rewrite <- Zle_Qle. apply Z.log2_spec. exact Hz. }
  change (z # 1)%Q with (inject_Z z). rewrite H. reflexivity.
Qed.

(** The integers below 2^53 are doubles: rounding leaves them. *)
Lemma RN_pos_Z (z : Z) :
  0 < z < 2 ^ 53 -> (RN_pos (inject_Z z) == inject_Z z)%Q.
Proof.
  intros [Hz Hlt]. unfold RN_pos, ulp_exponent.
  rewrite (floor_log2_Z z Hz).
  pose proof (Z.log2_nonneg z) as H0.
  assert (H52 : Z.log2 z < 53) by (apply Z.log2_lt_pow2; assumption).
  rewrite Z.max_l by lia.
  set (e := Z.log2 z - 52).
  pose proof (pow2_pos e) as Hpe.
  assert (Hinv : (pow2 (- e) * pow2 e == 1)%Q).
  { rewrite <- pow2_add. replace (- e + e) with 0 by lia. reflexivity. }
  assert (Hdiv : (inject_Z z / pow2 e == inject_Z (z * 2 ^ (- e)))%Q).
  { rewrite inject_Z_mult, <- pow2_Z by (unfold e; lia).
    apply Qmult_inj_r with (z := pow2 e); [lra|].
    setoid_replace (inject_Z z / pow2 e * pow2 e)%Q with (inject_Z z)
      by (field; lra).
    rewrite <- Qmult_assoc, Hinv. ring. }
  rewrite (round_half_even_Z _ _ Hdiv).
  rewrite inject_Z_mult, <- pow2_Z by (unfold e; lia).
  rewrite <- Qmult_assoc, Hinv. ring.
Qed.

Lemma Number_of_Z_exact (z : Z) : Z.abs z < 2 ^ 53 -> Number_of_Z z = Num z.
Proof.
  intros Hz. unfold Number_of_Z.
  assert (Hv : Qfloor (RN (inject_Z z)) = z).
  { unfold RN. rewrite Qred_correct.
    destruct (Qcompare_spec (inject_Z z) 0) as [E|E|E].
    - rewrite <- E. apply Qfloor_Z.
    - assert (Hneg : z < 0).
      { rewrite Zlt_Qlt. exact E. }
      rewrite <- (Qfloor_Z z) at 2. apply Qfloor_comp.
      rewrite <- inject_Z_opp, (RN_pos_Z (- z)) by lia.
      rewrite inject_Z_opp. ring.
    - assert (Hpos : 0 < z).
      { rewrite Zlt_Qlt. exact E. }
      rewrite <- (Qfloor_Z z) at 2. apply Qfloor_comp.
      apply RN_pos_Z. lia. }
  rewrite Hv.
  assert (H : (2 ^ 1024 <=? Z.abs z) = false).
  { apply Z.leb_gt. eapply Z.lt_trans; [exact Hz|]. reflexivity. }
  rewrite H. reflexivity.
Qed.

(** The integer part of a rounded product, as a pair of bounds. *)
Lemma floor_scaled_cell (r n : Q) (i : Z) :
  floor_scaled r n = i <->
  (inject_Z i <= Number_mul r n /\ Number_mul r n < inject_Z (i + 1))%Q.
Proof.
  unfold floor_scaled. split.
  - intros <-. split; [apply Qfloor_le | apply Qlt_floor].
  - intros [Hlo Hhi]. apply Z.le_antisymm.
    + apply Z.lt_succ_r. rewrite Zlt_Qlt.
      eapply Qle_lt_trans; [apply Qfloor_le | exact Hhi].
    + rewrite <- (Qfloor_Z i). apply Qfloor_resp_le. exact Hlo.
Qed.

(** [RN] against the binary64 arithmetic of the Standard Library: the
    product of the double 3152519739159347 / 2^53, which is below 7/20, and
    20 is the double 7, and 401 / 20 is a double above 20.05. *)
Example Number_mul_binary64 :
  let r := S754_finite false 3152519739159347 (-53) in
  let n := S754_finite false 5 2 in
  (SF2Q r < 7 # 20)%Q /\
  Number_mul (SF2Q r) (SF2Q n) = Qred (SF2Q (SFmul 53 1024 r n)) /\
  floor_scaled (SF2Q r) (SF2Q n) = 7.
Proof. vm_compute. repeat split. Qed.

Example Number_div_binary64 :
  let a := S754_finite false 401 0 in
  let b := S754_finite false 5 2 in
  Number_div (SF2Q a) (SF2Q b) = Qred (SF2Q (SFdiv 53 1024 a b)) /\
  (401 # 20 < Number_div (SF2Q a) (SF2Q b))%Q.
Proof. vm_compute. repeat split. Qed.

Example Number_of_Z_rounds :
  Number_of_Z (2 ^ 53 + 1) = Num (2 ^ 53) /\
  Number_of_Z (2 ^ 53 + 3) = Num (2 ^ 53 + 4) /\
  Number_of_Z (10 ^ 400) = Infinity false /\
  Number_of_Z (- 10 ^ 400) = Infinity true.
Proof. vm_compute. repeat split. Qed.

Example Number_toString_forms :
  Number_toString (Num 120) = "120"%string /\
  Number_toString (Num (-5)) = "-5"%string /\
  Number_toString (Num (10 ^ 21)) = "1e+21"%string /\
  Number_toString (Num (2 ^ 70)) = "1.1805916207174113e+21"%string /\
  Number_toString (Infinity true) = "-Infinity"%string.
Proof. vm_compute. repeat split. Qed.

(** ** Cells, the snake and the board *)

Lemma same_cell_iff (a b : Point) :
  (px a =? px b) && (py a =? py b) = true <-> a = b.
Proof.
  destruct a as [ax ay], b as [bx cy]; simpl.
  rewrite andb_true_iff, !Z.eqb_eq.
  split.
  - intros [-> ->]; reflexivity.
  - intros H; inversion H; auto.
Qed.

Lemma hitsSegment_In (head : Point) (segments : list Point) :
  hitsSegment head segments = true <-> In head segments.
Proof.
  induction segments as [|s l IH]; simpl.
  - split; [discriminate | tauto].
  - destruct ((px head =? px s) && (py head =? py s)) eqn:E.
    + apply same_cell_iff in E; subst; tauto.
    + rewrite IH; split; [tauto|].
      intros [H|H]; [|exact H].
      subst s. rewrite (proj2 (same_cell_iff head head) eq_refl) in E.
      discriminate.
Qed.

Lemma occupied_In (w : World) (c : Point) :
  occupied w c = true <-> In c (snake (this w)).
Proof.
  unfold occupied, isSnakeOnPosition. rewrite existsb_exists. split.
  - intros [s [Hin H]]. apply same_cell_iff in H. subst; exact Hin.
  - intros H. exists c. split; [exact H | now apply same_cell_iff].
Qed.

Lemma occupied_false (w : World) (c : Point) :
  occupied w c = false <-> ~ In c (snake (this w)).
Proof.
  rewrite <- occupied_In. destruct (occupied w c); split; congruence.
Qed.

Lemma Qle_bool_false (a b : Q) : Qle_bool a b = false <-> (b < a)%Q.
Proof.
  split.
  - intros H. apply Qnot_le_lt. intros Hle.
    apply Qle_bool_iff in Hle. congruence.
  - intros H. destruct (Qle_bool a b) eqn:E; [|reflexivity].
    apply Qle_bool_iff in E. exfalso. exact (Qlt_not_le _ _ H E).
Qed.

Lemma checkCollision_false (w : World) (head : Point) :
  checkCollision w head = false <->
  inBounds w head /\ ~ In head (snake (this w)).
Proof.
  unfold checkCollision, inBounds.
  destruct (px head <? 0) eqn:E1; simpl.
  { apply Z.ltb_lt in E1. split; [discriminate | lia]. }
  apply Z.ltb_ge in E1.
  destruct (Qle_bool (tileCount (this w)) (inject_Z (px head))) eqn:E2; simpl.
  { apply Qle_bool_iff in E2. split; [discriminate|].
    intros [[_ [H _]] _]. exfalso. exact (Qlt_not_le _ _ H E2). }
  apply Qle_bool_false in E2.
  destruct (py head <? 0) eqn:E3; simpl.
  { apply Z.ltb_lt in E3. split; [discriminate | lia]. }
  apply Z.ltb_ge in E3.
  destruct (Qle_bool (tileCount (this w)) (inject_Z (py head))) eqn:E4; simpl.
  { apply Qle_bool_iff in E4. split; [discriminate|].
    intros [[_ [_ [_ H]]] _]. exfalso. exact (Qlt_not_le _ _ H E4). }
  apply Qle_bool_false in E4.
  split.
  - intros H. split; [tauto|]. rewrite <- hitsSegment_In. congruence.
  - intros [_ H]. rewrite <- hitsSegment_In in H.
    destruct (hitsSegment head (snake (this w))); congruence.
Qed.

Lemma checkCollision_true (w : World) (head : Point) :
  checkCollision w head = true <->
  ~ inBounds w head \/ In head (snake (this w)).
Proof.
  destruct (checkCollision w head) eqn:E.
  - split; [intros _ | reflexivity].
    destruct (in_dec (fun a b : Point =>
      match Z.eq_dec (px a) (px b), Z.eq_dec (py a) (py b) with
      | left e1, left e2 =>
          left (proj1 (same_cell_iff a b)
                  (proj2 (andb_true_iff _ _)
                     (conj (proj2 (Z.eqb_eq _ _) e1) (proj2 (Z.eqb_eq _ _) e2))))
      | right n, _ => right (fun e => n (f_equal px e))
      | _, right n => right (fun e => n (f_equal py e))
      end) head (snake (this w))) as [Hin|Hout].
    + right; exact Hin.
    + left. intros Hb.
      assert (checkCollision w head = false) by (apply checkCollision_false; tauto).
      congruence.
  - apply checkCollision_false in E. split; [discriminate|].
    intros [H|H]; tauto.
Qed.

Lemma In_removelast {A : Type} (a : A) (l : list A) :
  In a (removelast l) -> In a l.
Proof.
  induction l as [|b l IH]; simpl; [tauto|].
  destruct l as [|c l]; simpl in *; [tauto|].
  intros [H|H]; [left; exact H | right; apply IH; exact H].
Qed.

Lemma length_removelast_cons {A : Type} (a b : A) (l : list A) :
  List.length (removelast (a :: b :: l)) = List.length (b :: l).
Proof.
  revert a b. induction l as [|c l IH]; intros a b; [reflexivity|].
  change (removelast (a :: b :: c :: l)) with (a :: removelast (b :: c :: l)).
  change (S (List.length (removelast (b :: c :: l))) = S (List.length (c :: l))).
  f_equal. apply IH.
Qed.

(** ** The food generator *)

Lemma generateFood_pass (fuel : nat) (w : World) :
  generateFood (S fuel) w =
  if occupied w (draw w 0) then generateFood fuel (redraw w)
  else Done (fed w 0).
Proof.
  destruct w as [g [i nh st qx lg ov so rnd rc]].
  unfold occupied, fed, redraw, draw, on_page, on_this, set_randomCalls; simpl.
  replace (rc + 0)%nat with rc by lia.
  replace (rc + 1)%nat with (S rc) by lia.
  replace (rc + 2)%nat with (S (S rc)) by lia.
  reflexivity.
Qed.

Lemma draw_redraw (w : World) (k : nat) : draw (redraw w) k = draw w (S k).
Proof.
  destruct w as [g [i nh st qx lg ov so rnd rc]].
  unfold draw, redraw, on_page, set_randomCalls; simpl.
  replace (S (S (rc + (k + (k + 0)))))%nat
    with (rc + S (k + S (k + 0)))%nat by lia.
  replace (S (S (rc + (k + (k + 0)) + 1)))%nat
    with (rc + S (k + S (k + 0)) + 1)%nat by lia.
  reflexivity.
Qed.

Lemma fed_redraw (w : World) (k : nat) : fed (redraw w) k = fed w (S k).
Proof.
  unfold fed. rewrite draw_redraw.
  destruct w as [g [i nh st qx lg ov so rnd rc]].
  unfold redraw, on_page, on_this, set_randomCalls; simpl.
  replace (S (S (rc + S (k + S (k + 0)))))%nat
    with (rc + S (S (k + S (S (k + 0)))))%nat by lia.
  reflexivity.
Qed.

(** What a call of [generateFood] ends in: it returns after accepting the
    first draw that is off the snake, and spins only while every draw so far
    was on the snake; it never throws. *)
Lemma generateFood_outcome (fuel : nat) : forall w : World,
  match generateFood fuel w with
  | Done w' =>
      exists k, (k < fuel)%nat /\
        (forall j, (j < k)%nat -> occupied w (draw w j) = true) /\
        occupied w (draw w k) = false /\ w' = fed w k
  | Throws _ => False
  | Raises _ _ => False
  | Spinning => forall j, (j < fuel)%nat -> occupied w (draw w j) = true
  end.
Proof.
  induction fuel as [|fuel IH]; intros w.
  - simpl. intros j Hj. lia.
  - rewrite generateFood_pass.
    destruct (occupied w (draw w 0)) eqn:E.
    + specialize (IH (redraw w)).
      destruct (generateFood fuel (redraw w)) as [w'| | |].
      * destruct IH as [k [Hk [Hbefore [Hfree Hw']]]].
        exists (S k). split; [lia|]. split; [|split].
        -- intros [|j] Hj; [exact E|].
           rewrite <- draw_redraw. apply Hbefore. lia.
        -- rewrite <- draw_redraw. exact Hfree.
        -- rewrite <- fed_redraw. exact Hw'.
      * exact IH.
      * exact IH.
      * intros [|j] Hj; [exact E|].
        rewrite <- draw_redraw. apply IH. lia.
    + exists 0%nat. split; [lia|]. split; [|split].
      * intros j Hj. lia.
      * exact E.
      * reflexivity.
Qed.

(** Enough fuel: a draw off the snake within the first [fuel] passes makes
    [generateFood] return. *)
Lemma generateFood_returns (fuel : nat) (w : World) (k : nat) :
  (k < fuel)%nat -> occupied w (draw w k) = false ->
  exists w', generateFood fuel w = Done w'.
Proof.
  intros Hk Hfree.
  pose proof (generateFood_outcome fuel w) as H.
  destruct (generateFood fuel w) as [w'| | |].
  - exists w'; reflexivity.
  - contradiction.
  - contradiction.
  - rewrite (H k Hk) in Hfree. discriminate.
Qed.

(** ** The tick *)

Lemma playSound_this (type : string) (w : World) :
  this (playSound type w) = this w.
Proof.
  unfold playSound.
  destruct (negb (soundEnabled (this w)) || negb (audioContext (this w)));
    [reflexivity|].
  destruct (String.eqb type "eat" || String.eqb type "gameover"
            || String.eqb type "start"); reflexivity.
Qed.

Lemma playSound_page (type : string) (w : World) :
  exists log, page (playSound type w) = set_sounds log (page w).
Proof.
  unfold playSound.
  destruct (negb (soundEnabled (this w)) || negb (audioContext (this w))).
  - exists (sounds (page w)). destruct w as [g []]; reflexivity.
  - destruct (String.eqb type "eat" || String.eqb type "gameover"
              || String.eqb type "start").
    + eexists; reflexivity.
    + exists (sounds (page w)). destruct w as [g []]; reflexivity.
Qed.

Lemma draw_ext (w w' : World) (k : nat) :
  tileCount (this w') = tileCount (this w) ->
  Math_random (page w') = Math_random (page w) ->
  randomCalls (page w') = randomCalls (page w) ->
  draw w' k = draw w k.
Proof.
  intros Ht Hr Hc. unfold draw. rewrite Ht, Hr, Hc. reflexivity.
Qed.

Lemma onFood_true (head : Point) (f : option Point) :
  onFood head f = true <-> f = Some head.
Proof.
  destruct f as [c|]; simpl.
  - rewrite same_cell_iff. split; [intros ->; reflexivity | congruence].
  - split; discriminate.
Qed.

(** [update], once the head [s0] of the snake is known. *)
Lemma update_eq (fuel : nat) (w : World) (s0 : Point) (rest : list Point) :
  snake (this w) = s0 :: rest ->
  update fuel w =
  if checkCollision w (candidate w s0) then gameOver (commitDirection w)
  else
    let w2 := on_this (fun g => set_snake (candidate w s0 :: snake g) g)
                (commitDirection w) in
    if onFood (candidate w s0) (food (this w)) then
      generateFood fuel
        (playSound "eat" (on_this (fun g => set_score (score g + 10) g) w2))
    else Done (on_this (fun g => set_snake (removelast (snake g)) g) w2).
Proof.
  intros H. destruct w as [g p]. destruct g. simpl in H. subst.
  reflexivity.
Qed.


(** ** Unfolding the methods on a world given field by field *)

Ltac open_world w :=
  destruct w as [[gs tc sn fd dir nd sc hs gl sp rn pa se ac]
                 [iv nh st qx lg ov so rnd rc]].

Ltac methods :=
  unfold gameOver, gameOver_completed, gameOver_stopped, record_broken,
    localStorage_setItem, stopGame, pauseGame, resumeGame, setDifficulty,
    setSoundEnabled, changeDirection, playSound, showOverlay, hideOverlay,
    clearInterval, setInterval, commitDirection,
    fed, lifecycle, bind, on_this, on_page in *;
  cbn -[Z.add Z.gtb Number_gtb Number_toString String.append filter] in *.

(** ** The end of a game *)

Lemma left_by_Done (o : Outcome World) (w' : World) :
  o = Done w' -> left_by o w'.
Proof. intros ->. reflexivity. Qed.

Lemma left_by_Raises (o : Outcome World) (e : string) (w' : World) :
  o = Raises e w' -> left_by o w'.
Proof. intros ->. reflexivity. Qed.

(** [gameOver] returns, unless the score is a new high score and the store
    refuses the write: then it throws where it stands. *)
Lemma gameOver_eq (w : World) :
  gameOver w =
  if record_broken w && setItemThrows (page w)
  then Raises "QuotaExceededError" (gameOver_stopped w)
  else Done (gameOver_completed w).
Proof.
  open_world w. destruct gl as [h|], se, ac; methods;
    destruct (Number_gtb (Num sc) hs), qx; reflexivity.
Qed.

Lemma stopped_this (w : World) :
  this (gameOver_stopped w) =
  set_highScore
    (if record_broken w then Num (score (this w)) else highScore (this w))
    (set_isPaused false (set_isGameRunning false (this w))).
Proof.
  open_world w. destruct gl as [h|], se, ac; methods;
    destruct (Number_gtb (Num sc) hs); reflexivity.
Qed.

Lemma completed_this (w : World) :
  this (gameOver_completed w) = this (gameOver_stopped w).
Proof.
  open_world w. destruct gl as [h|], se, ac; methods;
    destruct (Number_gtb (Num sc) hs); reflexivity.
Qed.

Lemma stopped_page (w : World) :
  intervals (page (gameOver_stopped w)) =
    intervals (page (clearInterval (gameLoop (this w)) w)) /\
  overlay (page (gameOver_stopped w)) = overlay (page w) /\
  storedHighScore (page (gameOver_stopped w)) = storedHighScore (page w) /\
  setItemLog (page (gameOver_stopped w)) = setItemLog (page w) /\
  setItemThrows (page (gameOver_stopped w)) = setItemThrows (page w) /\
  Math_random (page (gameOver_stopped w)) = Math_random (page w).
Proof.
  open_world w. destruct gl as [h|], se, ac; methods;
    destruct (Number_gtb (Num sc) hs); repeat split.
Qed.

Lemma completed_intervals (w : World) :
  intervals (page (gameOver_completed w)) =
  intervals (page (clearInterval (gameLoop (this w)) w)).
Proof.
  open_world w. destruct gl as [h|], se, ac; methods;
    destruct (Number_gtb (Num sc) hs); reflexivity.
Qed.

Lemma completed_overlay (w : World) :
  overlay (page (gameOver_completed w)) =
  mkOverlay "游戏结束"
    ("最终得分: " ++ Number_toString (Num (score (this w)))) "重新开始"
    false.
Proof.
  open_world w. destruct gl as [h|], se, ac; methods;
    destruct (Number_gtb (Num sc) hs); reflexivity.
Qed.

Lemma completed_store (w : World) :
  (storedHighScore (page (gameOver_completed w)),
   setItemLog (page (gameOver_completed w))) =
  if record_broken w
  then (Some (Number_toString (Num (score (this w)))),
        setItemLog (page w) ++ [Number_toString (Num (score (this w)))])
  else (storedHighScore (page w), setItemLog (page w)).
Proof.
  open_world w. destruct gl as [h|], se, ac; methods;
    destruct (Number_gtb (Num sc) hs); reflexivity.
Qed.

Lemma completed_random (w : World) :
  Math_random (page (gameOver_completed w)) = Math_random (page w).
Proof.
  open_world w. destruct gl as [h|], se, ac; methods;
    destruct (Number_gtb (Num sc) hs); reflexivity.
Qed.

Lemma completed_lifecycle (w : World) :
  lifecycle (gameOver_completed w) = GameOver.
Proof.
  unfold lifecycle. rewrite completed_this, stopped_this, completed_overlay.
  reflexivity.
Qed.

(** The two ends of [gameOver]. *)
Lemma gameOver_left (w w' : World) :
  left_by (gameOver w) w' ->
  (gameOver w = Done w' /\ w' = gameOver_completed w /\
   (record_broken w = false \/ setItemThrows (page w) = false)) \/
  (gameOver w = Raises "QuotaExceededError" w' /\ w' = gameOver_stopped w /\
   record_broken w = true /\ setItemThrows (page w) = true).
Proof.
  rewrite gameOver_eq.
  destruct (record_broken w), (setItemThrows (page w)); cbn;
    intros ->; auto 6.
Qed.

Lemma gameOver_leaves (w : World) : exists w', left_by (gameOver w) w'.
Proof.
  rewrite gameOver_eq.
  destruct (record_broken w && setItemThrows (page w));
    eexists; reflexivity.
Qed.

(** What [gameOver] has done to the engine whichever way it ended. *)
Lemma gameOver_left_this (w w' : World) :
  left_by (gameOver w) w' ->
  this w' =
  set_highScore
    (if record_broken w then Num (score (this w)) else highScore (this w))
    (set_isPaused false (set_isGameRunning false (this w))).
Proof.
  intros H. destruct (gameOver_left w w' H) as [[_ [-> _]] | [_ [-> _]]].
  - rewrite completed_this. apply stopped_this.
  - apply stopped_this.
Qed.

Lemma gameOver_left_page (w w' : World) :
  left_by (gameOver w) w' ->
  intervals (page w') = intervals (page (clearInterval (gameLoop (this w)) w))
  /\ Math_random (page w') = Math_random (page w).
Proof.
  intros H. destruct (gameOver_left w w' H) as [[_ [-> _]] | [_ [-> _]]].
  - split; [apply completed_intervals | apply completed_random].
  - destruct (stopped_page w) as [Hi [_ [_ [_ [_ Hm]]]]]. auto.
Qed.

Lemma lifecycle_Running (w : World) :
  lifecycle w = Running <->
  isGameRunning (this w) = true /\ isPaused (this w) = false.
Proof.
  unfold lifecycle.
  destruct (isGameRunning (this w)), (isPaused (this w)).
  - split; [discriminate | intros [_ H]; discriminate].
  - split; auto.
  - destruct (negb _ && _); split; try discriminate; intros [H _]; discriminate.
  - destruct (negb _ && _); split; try discriminate; intros [H _]; discriminate.
Qed.

(** Disarming the timer in [gameLoop] leaves no timer armed. *)
Lemma schedule_cleared (w : World) :
  schedule_ok w ->
  intervals (page (clearInterval (gameLoop (this w)) w)) = [].
Proof.
  unfold schedule_ok. open_world w. cbn.
  destruct (rn && negb pa).
  - intros [h [-> ->]]. cbn. rewrite Nat.eqb_refl. reflexivity.
  - intros ->. destruct gl; reflexivity.
Qed.

(** A tick of the running game whose candidate head is off the board or on
    a cell of the snake stops the game and does not move: the snake, the
    score and Food are what they were, [isGameRunning] is false and no timer
    is left armed. The tick returns with the engine in GameOver, unless the
    score is a new high score and the store refuses the write: then the tick
    throws before the overlay is put up. *)
Lemma tick_collision_stops_game (fuel : nat) (w : World) (s0 : Point)
    (rest : list Point) :
  lifecycle w = Running ->
  schedule_ok w ->
  snake (this w) = s0 :: rest ->
  ~ inBounds w (candidate w s0) \/ In (candidate w s0) (snake (this w)) ->
  exists w', left_by (update fuel w) w' /\
    snake (this w') = snake (this w) /\
    score (this w') = score (this w) /\
    food (this w') = food (this w) /\
    isGameRunning (this w') = false /\
    intervals (page w') = [] /\
    (update fuel w = Done w' -> lifecycle w' = GameOver) /\
    (record_broken w = false \/ setItemThrows (page w) = false ->
     update fuel w = Done w') /\
    (record_broken w = true -> setItemThrows (page w) = true ->
     update fuel w = Raises "QuotaExceededError" w' /\
     overlay (page w') = overlay (page w)).
Proof.
  intros Hrun Hsched Hsnake Hhit.
  rewrite (update_eq fuel w s0 rest Hsnake).
  rewrite (proj2 (checkCollision_true w (candidate w s0)) Hhit).
  destruct (gameOver_leaves (commitDirection w)) as [w' Hleft].
  exists w'. split; [exact Hleft|].
  rewrite (gameOver_left_this _ _ Hleft).
  destruct (gameOver_left_page _ _ Hleft) as [Hiv _].
  assert (Hclear : intervals (page w') = []).
  { rewrite Hiv. apply (schedule_cleared (commitDirection w)).
    exact Hsched. }
  split; [reflexivity|]. split; [reflexivity|]. split; [reflexivity|].
  split; [reflexivity|]. split; [exact Hclear|].
  change (record_broken (commitDirection w)) with (record_broken w) in *.
  destruct (gameOver_left _ _ Hleft)
    as [[Hdone [Hw' Hor]] | [Hraise [Hw' [Hrb Hq]]]].
  - split; [|split].
    + intros _. rewrite Hw'. apply completed_lifecycle.
    + intros _. exact Hdone.
    + intros Hrb Hq. exfalso.
      change (record_broken (commitDirection w)) with (record_broken w) in Hor.
      change (setItemThrows (page (commitDirection w)))
        with (setItemThrows (page w)) in Hor.
      destruct Hor; congruence.
  - change (record_broken (commitDirection w)) with (record_broken w) in Hrb.
    change (setItemThrows (page (commitDirection w)))
      with (setItemThrows (page w)) in Hq.
    split; [|split].
    + rewrite Hraise. discriminate.
    + intros [H | H]; congruence.
    + intros _ _. split; [exact Hraise|].
      rewrite Hw'. destruct (stopped_page (commitDirection w)) as [_ [Ho _]].
      exact Ho.
Qed.

(** ** Outcomes of the commands *)

Lemma startGame_eq (fuel : nat) (w : World) :
  startGame fuel w =
  if isGameRunning (this w) then Done w
  else w1 <- generateFood fuel (reset_board w) ;; Done (launch w1).
Proof. reflexivity. Qed.

Lemma startGame_outcome (fuel : nat) (w : World) :
  match startGame fuel w with
  | Done w' =>
      (isGameRunning (this w) = true /\ w' = w) \/
      (isGameRunning (this w) = false /\
       exists k, (k < fuel)%nat /\
         ~ In (draw (reset_board w) k) (snake (this (reset_board w))) /\
         w' = launch (fed (reset_board w) k))
  | Throws _ => False
  | Raises _ _ => False
  | Spinning =>
      isGameRunning (this w) = false /\
      forall k, (k < fuel)%nat ->
        In (draw (reset_board w) k) (snake (this (reset_board w)))
  end.
Proof.
  rewrite startGame_eq.
  destruct (isGameRunning (this w)) eqn:Hr.
  - left; split; reflexivity.
  - pose proof (generateFood_outcome fuel (reset_board w)) as H.
    destruct (generateFood fuel (reset_board w)) as [w1| | |]; cbn [bind].
    + right. split; [reflexivity|].
      destruct H as [k [Hk [_ [Hfree ->]]]].
      exists k. apply occupied_false in Hfree. auto.
    + exact H.
    + exact H.
    + split; [reflexivity|]. intros k Hk. apply occupied_In. auto.
Qed.

Lemma update_outcome (fuel : nat) (w : World) :
  match update fuel w with
  | Done w' =>
      exists s0 rest, snake (this w) = s0 :: rest /\
        ((checkCollision w (candidate w s0) = true /\
          (record_broken w = false \/ setItemThrows (page w) = false) /\
          w' = gameOver_completed (commitDirection w)) \/
         (checkCollision w (candidate w s0) = false /\
          food (this w) = Some (candidate w s0) /\
          exists k, (k < fuel)%nat /\
            ~ In (draw w k) (candidate w s0 :: snake (this w)) /\
            w' = fed (playSound "eat"
                   (on_this (fun g => set_score (score g + 10) g)
                     (on_this (fun g => set_snake (candidate w s0 :: snake g) g)
                       (commitDirection w)))) k) \/
         (checkCollision w (candidate w s0) = false /\
          food (this w) <> Some (candidate w s0) /\
          w' = on_this (fun g => set_snake (removelast (snake g)) g)
                 (on_this (fun g => set_snake (candidate w s0 :: snake g) g)
                    (commitDirection w))))
  | Throws _ => False
  | Raises e w' =>
      (snake (this w) = [] /\ e = "TypeError"%string /\
       w' = commitDirection w) \/
      (exists s0 rest, snake (this w) = s0 :: rest /\
         checkCollision w (candidate w s0) = true /\
         record_broken w = true /\ setItemThrows (page w) = true /\
         e = "QuotaExceededError"%string /\
         w' = gameOver_stopped (commitDirection w))
  | Spinning => True
  end.
Proof.
  destruct (snake (this w)) as [|s0 rest] eqn:Hsnake.
  - unfold update. cbn. rewrite Hsnake. left. repeat split.
  - rewrite (update_eq fuel w s0 rest Hsnake).
    destruct (checkCollision w (candidate w s0)) eqn:Hc.
    + rewrite gameOver_eq.
      change (record_broken (commitDirection w)) with (record_broken w).
      change (setItemThrows (page (commitDirection w)))
        with (setItemThrows (page w)).
      destruct (record_broken w) eqn:Hrb;
        [destruct (setItemThrows (page w)) eqn:Hq|]; cbn [andb].
      * right. exists s0, rest. auto 10.
      * exists s0, rest. split; [reflexivity|]. left. auto.
      * exists s0, rest. split; [reflexivity|]. left. auto.
    + cbv zeta. destruct (onFood (candidate w s0) (food (this w))) eqn:Hf.
      * apply onFood_true in Hf.
        set (w3 := playSound "eat" _).
        pose proof (generateFood_outcome fuel w3) as H.
        destruct (generateFood fuel w3) as [w'| | |];
          [|contradiction|contradiction|exact I].
        destruct H as [k [Hk [_ [Hfree ->]]]].
        exists s0, rest. split; [reflexivity|]. right; left.
        split; [exact Hc|]. split; [exact Hf|].
        exists k. split; [exact Hk|]. split; [|reflexivity].
        apply occupied_false in Hfree.
        assert (Hd : draw w3 k = draw w k).
        { unfold w3. destruct (playSound_page "eat"
            (on_this (fun g => set_score (score g + 10) g)
               (on_this (fun g => set_snake (candidate w s0 :: snake g) g)
                  (commitDirection w)))) as [log Hlog].
          apply draw_ext; [rewrite playSound_this | rewrite Hlog ..];
            reflexivity. }
        rewrite Hd in Hfree. unfold w3 in Hfree.
        rewrite playSound_this in Hfree. cbn in Hfree.
        rewrite Hsnake in Hfree. exact Hfree.
      * exists s0, rest. split; [reflexivity|]. right; right.
        split; [exact Hc|]. split; [|reflexivity].
        intros E. apply onFood_true in E. congruence.
Qed.

(** Only a tick throws: a command returns or spins. *)
Lemma run_raises (fuel : nat) (c : Command) (w : World) (e : string)
    (w' : World) :
  run fuel c w = Raises e w' ->
  c = Tick /\
  ((snake (this w) = [] /\ e = "TypeError"%string /\
    w' = commitDirection w) \/
   (exists s0 rest, snake (this w) = s0 :: rest /\
      checkCollision w (candidate w s0) = true /\
      record_broken w = true /\ setItemThrows (page w) = true /\
      e = "QuotaExceededError"%string /\
      w' = gameOver_stopped (commitDirection w))).
Proof.
  destruct c as [ | | | |d|l|en| ]; cbn [run]; try discriminate.
  - intros Hrun. pose proof (startGame_outcome fuel w) as H.
    rewrite Hrun in H. contradiction.
  - unfold restartGame. intros Hrun.
    pose proof (startGame_outcome fuel (stopGame w)) as H.
    rewrite Hrun in H. contradiction.
  - intros Hrun. pose proof (update_outcome fuel w) as H.
    rewrite Hrun in H. split; [reflexivity | exact H].
Qed.

(** What a call left behind, it returned or threw in. *)
Lemma left_by_cases (o : Outcome World) (w' : World) :
  left_by o w' -> o = Done w' \/ exists e, o = Raises e w'.
Proof.
  destruct o as [a|e|e a|]; cbn; try contradiction; intros ->; eauto.
Qed.

(** ** The invariant *)

Lemma fed_facts (w : World) (k : nat) :
  this (fed w k) = set_food (Some (draw w k)) (this w) /\
  intervals (page (fed w k)) = intervals (page w) /\
  nextHandle (page (fed w k)) = nextHandle (page w) /\
  storedHighScore (page (fed w k)) = storedHighScore (page w) /\
  setItemLog (page (fed w k)) = setItemLog (page w) /\
  overlay (page (fed w k)) = overlay (page w).
Proof. open_world w. repeat split. Qed.

Lemma launch_facts (w : World) :
  this (launch w) =
    set_gameLoop (Some (nextHandle (page w)))
      (set_isPaused false (set_isGameRunning true (this w))) /\
  intervals (page (launch w)) =
    (nextHandle (page w), gameSpeed (this w)) :: intervals (page w) /\
  nextHandle (page (launch w)) = S (nextHandle (page w)) /\
  storedHighScore (page (launch w)) = storedHighScore (page w) /\
  setItemLog (page (launch w)) = setItemLog (page w) /\
  overlayHidden (overlay (page (launch w))) = true.
Proof.
  open_world w. unfold launch. destruct se, ac; methods; repeat split.
Qed.

Lemma invariant_launch (w : World) :
  intervals (page w) = [] ->
  food_off_snake w -> snake (this w) <> [] ->
  invariant (launch w).
Proof.
  intros Hiv Hfood Hsnake.
  destruct (launch_facts w) as [Ht [Hi _]].
  unfold invariant, food_off_snake, flags_ok, schedule_ok.
  rewrite Ht, Hi, Hiv. cbn.
  repeat split; try assumption.
  - intros [_ H]; discriminate.
  - eexists; split; reflexivity.
Qed.

Lemma invariant_started (w : World) (k : nat) :
  intervals (page w) = [] ->
  ~ In (draw (reset_board w) k) (snake (this (reset_board w))) ->
  invariant (launch (fed (reset_board w) k)).
Proof.
  intros Hiv Hfree.
  destruct (fed_facts (reset_board w) k) as [Ht [Hi _]].
  apply invariant_launch.
  - rewrite Hi. exact Hiv.
  - unfold food_off_snake. rewrite Ht. eexists. split; [reflexivity|].
    exact Hfree.
  - rewrite Ht. discriminate.
Qed.

Lemma stopGame_facts (w : World) :
  this (stopGame w) = set_isPaused false (set_isGameRunning false (this w)) /\
  intervals (page (stopGame w)) =
    intervals (page (clearInterval (gameLoop (this w)) w)) /\
  storedHighScore (page (stopGame w)) = storedHighScore (page w) /\
  setItemLog (page (stopGame w)) = setItemLog (page w).
Proof. open_world w. destruct gl; repeat split. Qed.

Lemma pauseGame_noop (w : World) :
  isGameRunning (this w) = false \/ isPaused (this w) = true ->
  pauseGame w = w.
Proof.
  unfold pauseGame. intros [-> | ->]; [reflexivity|].
  rewrite orb_true_r. reflexivity.
Qed.

Lemma pauseGame_facts (w : World) :
  isGameRunning (this w) = true -> isPaused (this w) = false ->
  this (pauseGame w) = set_isPaused true (this w) /\
  intervals (page (pauseGame w)) =
    intervals (page (clearInterval (gameLoop (this w)) w)) /\
  storedHighScore (page (pauseGame w)) = storedHighScore (page w) /\
  setItemLog (page (pauseGame w)) = setItemLog (page w).
Proof.
  unfold pauseGame. intros -> ->. open_world w. destruct gl; repeat split.
Qed.

Lemma resumeGame_noop (w : World) :
  isGameRunning (this w) = false \/ isPaused (this w) = false ->
  resumeGame w = w.
Proof.
  unfold resumeGame. intros [-> | ->]; [reflexivity|].
  rewrite orb_true_r. reflexivity.
Qed.

Lemma resumeGame_facts (w : World) :
  isGameRunning (this w) = true -> isPaused (this w) = true ->
  this (resumeGame w) =
    set_gameLoop (Some (nextHandle (page w))) (set_isPaused false (this w)) /\
  intervals (page (resumeGame w)) =
    (nextHandle (page w), gameSpeed (this w)) :: intervals (page w) /\
  storedHighScore (page (resumeGame w)) = storedHighScore (page w) /\
  setItemLog (page (resumeGame w)) = setItemLog (page w).
Proof.
  unfold resumeGame. intros -> ->. open_world w. repeat split.
Qed.

(** The interval [setDifficulty] selects. *)
Lemma setDifficulty_facts (difficulty : string) (w : World) :
  let speed :=
    if String.eqb difficulty "easy" then 200
    else if String.eqb difficulty "medium" then 150
    else if String.eqb difficulty "hard" then 100
    else gameSpeed (this w) in
  if isGameRunning (this w) && negb (isPaused (this w)) then
    this (setDifficulty difficulty w) =
      set_gameLoop (Some (nextHandle (page w)))
        (set_gameSpeed speed (this w)) /\
    page (setDifficulty difficulty w) =
      set_nextHandle (S (nextHandle (page w)))
        (set_intervals
           ((nextHandle (page w), speed)
              :: intervals (page (clearInterval (gameLoop (this w)) w)))
           (page w))
  else
    this (setDifficulty difficulty w) = set_gameSpeed speed (this w) /\
    page (setDifficulty difficulty w) = page w.
Proof.
  unfold setDifficulty.
  destruct (String.eqb difficulty "easy");
    [|destruct (String.eqb difficulty "medium");
      [|destruct (String.eqb difficulty "hard")]];
    open_world w; destruct rn, pa, gl; cbn; repeat split.
Qed.

Lemma changeDirection_eq (d : Point) (w : World) :
  changeDirection d w =
  if accepted (direction (this w)) d
  then on_this (set_nextDirection d) w else w.
Proof.
  unfold changeDirection, accepted. destruct d as [x y]; cbn [px py].
  destruct (negb (x =? 0) && negb (px (direction (this w)) =? 0));
    [reflexivity|].
  destruct (negb (y =? 0) && negb (py (direction (this w)) =? 0));
    reflexivity.
Qed.

(** The fields the invariant reads. *)
Lemma invariant_frame (w w' : World) :
  snake (this w') = snake (this w) ->
  food (this w') = food (this w) ->
  isGameRunning (this w') = isGameRunning (this w) ->
  isPaused (this w') = isPaused (this w) ->
  gameLoop (this w') = gameLoop (this w) ->
  gameSpeed (this w') = gameSpeed (this w) ->
  intervals (page w') = intervals (page w) ->
  invariant w -> invariant w'.
Proof.
  unfold invariant, food_off_snake, flags_ok, schedule_ok.
  intros -> -> -> -> -> -> ->. tauto.
Qed.

Lemma invariant_pauseGame (w : World) : invariant w -> invariant (pauseGame w).
Proof.
  intros Hinv.
  destruct (isGameRunning (this w)) eqn:Hr;
    [destruct (isPaused (this w)) eqn:Hp|];
    try (rewrite pauseGame_noop by auto; exact Hinv).
  destruct (pauseGame_facts w Hr Hp) as [Ht [Hi _]].
  destruct Hinv as [Hfood [_ [Hsched Hsnake]]].
  unfold invariant, food_off_snake, flags_ok, schedule_ok.
  rewrite Ht, Hi, (schedule_cleared w Hsched). cbn. rewrite Hr. cbn.
  repeat split; try assumption. intros [_ H]; discriminate.
Qed.

Lemma invariant_resumeGame (w : World) :
  invariant w -> invariant (resumeGame w).
Proof.
  intros Hinv.
  destruct (isGameRunning (this w)) eqn:Hr;
    [destruct (isPaused (this w)) eqn:Hp|];
    try (rewrite resumeGame_noop by auto; exact Hinv).
  destruct (resumeGame_facts w Hr Hp) as [Ht [Hi _]].
  destruct Hinv as [Hfood [_ [Hsched Hsnake]]].
  unfold invariant, food_off_snake, flags_ok, schedule_ok in *.
  rewrite Hr, Hp in Hsched. cbn in Hsched.
  rewrite Ht, Hi, Hsched. cbn. rewrite Hr. cbn.
  repeat split; try assumption.
  - intros [H _]; discriminate.
  - eexists; split; reflexivity.
Qed.

Lemma invariant_setDifficulty (difficulty : string) (w : World) :
  invariant w -> invariant (setDifficulty difficulty w).
Proof.
  intros [Hfood [Hflags [Hsched Hsnake]]].
  pose proof (setDifficulty_facts difficulty w) as H. cbv zeta in H.
  pose proof (schedule_cleared w Hsched) as Hclear.
  unfold invariant, food_off_snake, flags_ok, schedule_ok in *.
  destruct (isGameRunning (this w) && negb (isPaused (this w))) eqn:E;
    destruct H as [Ht Hp]; rewrite Ht, Hp; cbn; rewrite ?E.
  - rewrite Hclear. repeat split; try assumption.
    eexists; split; reflexivity.
  - repeat split; assumption.
Qed.

Lemma invariant_changeDirection (d : Point) (w : World) :
  invariant w -> invariant (changeDirection d w).
Proof.
  rewrite changeDirection_eq.
  destruct (accepted (direction (this w)) d); [|auto].
  apply invariant_frame; reflexivity.
Qed.

Lemma invariant_stopGame (w : World) :
  invariant w ->
  invariant (stopGame w) /\ intervals (page (stopGame w)) = [] /\
  isGameRunning (this (stopGame w)) = false.
Proof.
  intros [Hfood [Hflags [Hsched Hsnake]]].
  destruct (stopGame_facts w) as [Ht [Hi _]].
  unfold invariant, food_off_snake, flags_ok, schedule_ok.
  rewrite Ht, Hi, (schedule_cleared w Hsched). cbn.
  repeat split; try assumption. intros [H _]; discriminate.
Qed.

Lemma invariant_gameOver (w w' : World) :
  invariant w -> left_by (gameOver w) w' -> invariant w'.
Proof.
  intros [Hfood [Hflags [Hsched Hsnake]]] Hleft.
  destruct (gameOver_left_page w w' Hleft) as [Hiv _].
  unfold invariant, food_off_snake, flags_ok, schedule_ok.
  rewrite (gameOver_left_this w w' Hleft), Hiv, (schedule_cleared w Hsched).
  cbn. repeat split; try assumption. intros [H _]; discriminate.
Qed.

Lemma invariant_startGame (fuel : nat) (w w' : World) :
  invariant w -> startGame fuel w = Done w' -> invariant w'.
Proof.
  intros Hinv Hrun.
  pose proof (startGame_outcome fuel w) as H. rewrite Hrun in H.
  destruct H as [[_ ->] | [Hr [k [_ [Hfree ->]]]]]; [exact Hinv|].
  apply invariant_started; [|exact Hfree].
  destruct Hinv as [_ [_ [Hsched _]]]. unfold schedule_ok in Hsched.
  rewrite Hr in Hsched. exact Hsched.
Qed.

Lemma invariant_update (fuel : nat) (w w' : World) :
  invariant w -> update fuel w = Done w' -> invariant w'.
Proof.
  intros Hinv Hrun.
  pose proof (update_outcome fuel w) as H. rewrite Hrun in H.
  destruct H as [s0 [rest [Hsnake [[_ [Hor ->]] | [[_ [_ [k [_ [Hfree ->]]]]]
                                                | [_ [Hfood ->]]]]]]].
  - apply (invariant_gameOver (commitDirection w)).
    + revert Hinv. apply invariant_frame; reflexivity.
    + rewrite gameOver_eq.
      change (record_broken (commitDirection w)) with (record_broken w).
      change (setItemThrows (page (commitDirection w)))
        with (setItemThrows (page w)).
      destruct Hor as [-> | ->]; rewrite ?andb_false_r; reflexivity.
  - destruct Hinv as [_ [Hflags [Hsched _]]].
    set (w3 := playSound "eat" _) in *.
    assert (Ht : this w3 =
              set_score (score (this w) + 10)
                (set_snake (candidate w s0 :: snake (this w))
                   (set_direction (nextDirection (this w)) (this w)))).
    { unfold w3. rewrite playSound_this. reflexivity. }
    assert (Hd : draw w3 k = draw w k).
    { unfold w3. destruct (playSound_page "eat"
        (on_this (fun g => set_score (score g + 10) g)
           (on_this (fun g => set_snake (candidate w s0 :: snake g) g)
              (commitDirection w)))) as [log Hlog].
      apply draw_ext; [rewrite playSound_this | rewrite Hlog ..];
        reflexivity. }
    assert (Hi : intervals (page w3) = intervals (page w)).
    { unfold w3. destruct (playSound_page "eat"
        (on_this (fun g => set_score (score g + 10) g)
           (on_this (fun g => set_snake (candidate w s0 :: snake g) g)
              (commitDirection w)))) as [log Hlog].
      rewrite Hlog. reflexivity. }
    destruct (fed_facts w3 k) as [Hft [Hfi _]].
    unfold invariant, food_off_snake, flags_ok, schedule_ok in *.
    rewrite Hft, Hfi, Hi, Ht, Hd. cbn.
    repeat split; try assumption.
    + eexists; split; [reflexivity | exact Hfree].
    + discriminate.
  - destruct Hinv as [[f [Hf Hoff]] [Hflags [Hsched _]]].
    unfold invariant, food_off_snake, flags_ok, schedule_ok in *.
    cbn. repeat split; try assumption.
    + exists f. split; [exact Hf|].
      rewrite Hsnake.
      change (removelast (candidate w s0 :: s0 :: rest))
        with (candidate w s0 :: removelast (s0 :: rest)).
      intros [E | Hin].
      * apply Hfood. rewrite Hf, E. reflexivity.
      * apply Hoff. rewrite Hsnake. apply In_removelast. exact Hin.
    + rewrite Hsnake. discriminate.
Qed.

Lemma invariant_run (fuel : nat) (c : Command) (w w' : World) :
  invariant w -> run fuel c w = Done w' -> invariant w'.
Proof.
  intros Hinv.
  destruct c as [ | | | |d|l|e| ]; cbn [run].
  - apply invariant_startGame; exact Hinv.
  - intros [= <-]. apply invariant_pauseGame; exact Hinv.
  - intros [= <-]. apply invariant_resumeGame; exact Hinv.
  - unfold restartGame. apply invariant_startGame.
    apply invariant_stopGame; exact Hinv.
  - intros [= <-]. apply invariant_changeDirection; exact Hinv.
  - intros [= <-]. apply invariant_setDifficulty; exact Hinv.
  - intros [= <-]. revert Hinv. apply invariant_frame; reflexivity.
  - apply invariant_update; exact Hinv.
Qed.

Lemma invariant_constructor (fuel : nat) (b : Browser) (w : World) :
  constructor fuel b = Done w -> invariant w.
Proof.
  unfold constructor, init.
  destruct (localStorage b) as [|item]; [discriminate|].
  set (w0 := initAudio _ _).
  change (resetGame fuel w0) with (generateFood fuel (reset_board w0)).
  intros Hrun.
  pose proof (generateFood_outcome fuel (reset_board w0)) as H.
  rewrite Hrun in H. destruct H as [k [_ [_ [Hfree ->]]]].
  apply occupied_false in Hfree.
  destruct (fed_facts (reset_board w0) k) as [Ht [Hi _]].
  unfold invariant, food_off_snake, flags_ok, schedule_ok.
  rewrite Ht, Hi.
  assert (Hflags : isGameRunning (this w0) = false /\
                   isPaused (this w0) = false /\ intervals (page w0) = []).
  { unfold w0, initAudio. destruct (AudioContext_supported b); repeat split. }
  destruct Hflags as [Hr [Hp Hiv]].
  cbn. rewrite Hr, Hp. cbn.
  repeat split.
  - eexists; split; [reflexivity | exact Hfree].
  - intros [H _]; discriminate.
  - exact Hiv.
  - discriminate.
Qed.

Lemma invariant_raise (fuel : nat) (c : Command) (w : World) (e : string)
    (w' : World) :
  invariant w -> run fuel c w = Raises e w' -> invariant w'.
Proof.
  intros Hinv Hrun.
  destruct (run_raises fuel c w e w' Hrun)
    as [_ [[Hnil _] | [s0 [rest [_ [_ [Hrb [Hq [_ ->]]]]]]]]].
  - destruct Hinv as [_ [_ [_ Hsnake]]]. contradiction.
  - apply (invariant_gameOver (commitDirection w)).
    + revert Hinv. apply invariant_frame; reflexivity.
    + rewrite gameOver_eq.
      change (record_broken (commitDirection w)) with (record_broken w).
      change (setItemThrows (page (commitDirection w)))
        with (setItemThrows (page w)).
      rewrite Hrb, Hq. reflexivity.
Qed.

(** Every world the engine can be in satisfies the invariant. *)
Lemma reachable_invariant (b : Browser) (w : World) :
  reachable b w -> invariant w.
Proof.
  induction 1 as [fuel w Hnew | fuel c w w' _ IH Hrun
                 | fuel c w e w' _ IH Hrun | w v _ IH].
  - exact (invariant_constructor fuel b w Hnew).
  - exact (invariant_run fuel c w w' IH Hrun).
  - exact (invariant_raise fuel c w e w' IH Hrun).
  - revert IH. apply invariant_frame; reflexivity.
Qed.

(** C3. Food is never on the snake: in every world the engine can be in
    (after construction, after every command and after every tick, whether
    it returned or threw) Food's cell is not a cell of the snake.
    [generateFood] draws cells over the board: each coordinate is the
    integer part of the double product of a result of [Math.random] and the
    side, so cell [i] is drawn exactly when that product is in
    [[i, i + 1)], and for results in [[0, 1)] it is a cell of the board.
    The call returns the first drawn cell that no segment occupies, and it
    returns as soon as such a draw occurs within the fuel. *)
Theorem food_never_on_snake :
  (forall (b : Browser) (w : World), reachable b w -> food_off_snake w) /\
  (forall (fuel : nat) (w w' : World),
      (0 < tileCount (this w))%Q ->
      unit_interval (Math_random (page w)) ->
      generateFood fuel w = Done w' ->
      exists k, (k < fuel)%nat /\
        food (this w') = Some (draw w k) /\
        snake (this w') = snake (this w) /\
        inBounds w (draw w k) /\
        ~ In (draw w k) (snake (this w)) /\
        forall j, (j < k)%nat -> In (draw w j) (snake (this w))) /\
  (forall (fuel : nat) (w : World) (k : nat),
      (k < fuel)%nat -> ~ In (draw w k) (snake (this w)) ->
      exists w', generateFood fuel w = Done w') /\
  (forall (w : World) (k : nat) (i : Z),
      let x := Number_mul
                 (Math_random (page w) (randomCalls (page w) + 2 * k)%nat)
                 (tileCount (this w)) in
      let y := Number_mul
                 (Math_random (page w) (randomCalls (page w) + 2 * k + 1)%nat)
                 (tileCount (this w)) in
      (px (draw w k) = i <-> (inject_Z i <= x /\ x < inject_Z (i + 1))%Q) /\
      (py (draw w k) = i <-> (inject_Z i <= y /\ y < inject_Z (i + 1))%Q)).
Proof.
  split; [|split; [|split]].
  - intros b w Hreach. apply (reachable_invariant b w Hreach).
  - intros fuel w w' Hside Hunit Hrun.
    pose proof (generateFood_outcome fuel w) as H. rewrite Hrun in H.
    destruct H as [k [Hk [Hbefore [Hfree ->]]]].
    exists k. destruct (fed_facts w k) as [Ht _]. rewrite Ht.
    split; [exact Hk|]. split; [reflexivity|]. split; [reflexivity|].
    split; [|split].
    + unfold inBounds, draw; cbn [px py].
      destruct (Hunit (randomCalls (page w) + 2 * k)%nat) as [Hxd [Hx0 Hx1]].
      destruct (Hunit (randomCalls (page w) + 2 * k + 1)%nat)
        as [Hyd [Hy0 Hy1]].
      destruct (floor_scaled_range _ _ Hxd Hx0 Hx1 Hside) as [? ?].
      destruct (floor_scaled_range _ _ Hyd Hy0 Hy1 Hside) as [? ?].
      auto.
    + apply occupied_false. exact Hfree.
    + intros j Hj. apply occupied_In. apply Hbefore. exact Hj.
  - intros fuel w k Hk Hfree.
    apply (generateFood_returns fuel w k Hk).
    apply occupied_false. exact Hfree.
  - intros w k i x y. unfold draw; cbn [px py].
    split; apply floor_scaled_cell.
Qed.

(** ** The two lifecycle flags *)

(** What a command or a tick does to [isGameRunning] and [isPaused]: it
    leaves both, or it ends running and unpaused, or stopped and unpaused,
    or it pauses a game that was running. *)
Lemma run_flags (fuel : nat) (c : Command) (w w' : World) :
  run fuel c w = Done w' ->
  (isGameRunning (this w') = isGameRunning (this w) /\
   isPaused (this w') = isPaused (this w)) \/
  (isGameRunning (this w') = true /\ isPaused (this w') = false /\
   (c = Start \/ c = Restart \/
    (c = Resume /\ isGameRunning (this w) = true))) \/
  (isGameRunning (this w') = false /\ isPaused (this w') = false) \/
  (isGameRunning (this w) = true /\ isPaused (this w) = false /\
   isGameRunning (this w') = true /\ isPaused (this w') = true /\ c = Pause).
Proof.
  destruct c as [ | | | |d|l|e| ]; cbn [run].
  - intros Hrun. pose proof (startGame_outcome fuel w) as H.
    rewrite Hrun in H.
    destruct H as [[_ ->] | [_ [k [_ [_ ->]]]]]; [left; auto|].
    right; left. destruct (launch_facts (fed (reset_board w) k)) as [-> _].
    repeat split. auto.
  - intros [= <-].
    destruct (isGameRunning (this w)) eqn:Hr;
      [destruct (isPaused (this w)) eqn:Hp|];
      try (rewrite pauseGame_noop by auto; left; auto).
    destruct (pauseGame_facts w Hr Hp) as [-> _].
    right; right; right. cbn. auto.
  - intros [= <-].
    destruct (isGameRunning (this w)) eqn:Hr;
      [destruct (isPaused (this w)) eqn:Hp|];
      try (rewrite resumeGame_noop by auto; left; auto).
    destruct (resumeGame_facts w Hr Hp) as [-> _].
    right; left. cbn. auto 6.
  - unfold restartGame. intros Hrun.
    pose proof (startGame_outcome fuel (stopGame w)) as H.
    rewrite Hrun in H. destruct (stopGame_facts w) as [Hstop _].
    destruct H as [[Hr _] | [_ [k [_ [_ ->]]]]].
    + rewrite Hstop in Hr. discriminate.
    + right; left.
      destruct (launch_facts (fed (reset_board (stopGame w)) k)) as [-> _].
      repeat split. auto.
  - intros [= <-]. left. rewrite changeDirection_eq.
    destruct (accepted (direction (this w)) d); split; reflexivity.
  - intros [= <-]. left.
    pose proof (setDifficulty_facts l w) as H. cbv zeta in H.
    destruct (isGameRunning (this w) && negb (isPaused (this w)));
      destruct H as [-> _]; split; reflexivity.
  - intros [= <-]. left. split; reflexivity.
  - intros Hrun. pose proof (update_outcome fuel w) as H.
    rewrite Hrun in H.
    destruct H as [s0 [rest [_ [[_ [_ ->]] | [[_ [_ [k [_ [_ ->]]]]]
                                            | [_ [_ ->]]]]]]].
    + right; right; left. rewrite completed_this, stopped_this.
      split; reflexivity.
    + left. destruct (fed_facts (playSound "eat"
        (on_this (fun g => set_score (score g + 10) g)
           (on_this (fun g => set_snake (candidate w s0 :: snake g) g)
              (commitDirection w)))) k) as [-> _].
      rewrite playSound_this. split; reflexivity.
    + left. split; reflexivity.
Qed.

(** The same of a tick that threw. *)
Lemma run_flags_left (fuel : nat) (c : Command) (w w' : World) :
  left_by (run fuel c w) w' ->
  (isGameRunning (this w') = isGameRunning (this w) /\
   isPaused (this w') = isPaused (this w)) \/
  (isGameRunning (this w') = true /\ isPaused (this w') = false /\
   (c = Start \/ c = Restart \/
    (c = Resume /\ isGameRunning (this w) = true))) \/
  (isGameRunning (this w') = false /\ isPaused (this w') = false) \/
  (isGameRunning (this w) = true /\ isPaused (this w) = false /\
   isGameRunning (this w') = true /\ isPaused (this w') = true /\ c = Pause).
Proof.
  intros Hleft.
  destruct (left_by_cases _ _ Hleft) as [Hrun | [e Hrun]].
  - exact (run_flags fuel c w w' Hrun).
  - destruct (run_raises fuel c w e w' Hrun)
      as [_ [[_ [_ ->]] | [s0 [rest [_ [_ [_ [_ [_ ->]]]]]]]]].
    + left. split; reflexivity.
    + right; right; left. rewrite stopped_this. split; reflexivity.
Qed.

(** C7. The pair [isPaused = true], [isGameRunning = false] never occurs:
    not after construction, and every command and every tick preserves its
    absence, whether it returns or throws, so it is absent from every world
    the engine can be in. [pauseGame] sets [isPaused] only when
    [isGameRunning] is true, and whatever clears [isGameRunning]
    ([stopGame], [gameOver] however it ends, and with them any command or
    tick) leaves [isPaused] false as well. *)
Theorem paused_only_while_running :
  (forall (fuel : nat) (b : Browser) (w : World),
      constructor fuel b = Done w -> flags_ok w) /\
  (forall (fuel : nat) (c : Command) (w w' : World),
      flags_ok w -> left_by (run fuel c w) w' -> flags_ok w') /\
  (forall (b : Browser) (w : World), reachable b w -> flags_ok w) /\
  (forall w : World,
      isPaused (this w) = false -> isPaused (this (pauseGame w)) = true ->
      isGameRunning (this w) = true) /\
  (forall w : World,
      isGameRunning (this (stopGame w)) = false /\
      isPaused (this (stopGame w)) = false /\
      (exists w', left_by (gameOver w) w') /\
      forall w' : World, left_by (gameOver w) w' ->
        isGameRunning (this w') = false /\ isPaused (this w') = false) /\
  (forall (fuel : nat) (c : Command) (w w' : World),
      left_by (run fuel c w) w' ->
      isGameRunning (this w) = true -> isGameRunning (this w') = false ->
      isPaused (this w') = false).
Proof.
  split; [|split; [|split; [|split; [|split]]]].
  - intros fuel b w Hnew. apply (invariant_constructor fuel b w Hnew).
  - intros fuel c w w' Hok Hrun. unfold flags_ok in *.
    destruct (run_flags_left fuel c w w' Hrun)
      as [[-> ->] | [[-> [-> _]] | [[-> ->] | [_ [_ [-> [-> _]]]]]]];
      try exact Hok; intros [H1 H2]; discriminate.
  - intros b w Hreach. apply (reachable_invariant b w Hreach).
  - intros w Hp Hp'.
    destruct (isGameRunning (this w)) eqn:Hr; [reflexivity|].
    rewrite pauseGame_noop in Hp' by auto. congruence.
  - intros w. destruct (stopGame_facts w) as [-> _].
    split; [reflexivity|]. split; [reflexivity|].
    split; [apply gameOver_leaves|].
    intros w' Hleft. rewrite (gameOver_left_this w w' Hleft).
    split; reflexivity.
  - intros fuel c w w' Hrun Hr Hr'.
    destruct (run_flags_left fuel c w w' Hrun)
      as [[E _] | [[E _] | [[_ E] | [_ [_ [E _]]]]]]; congruence.
Qed.

(** ** The direction buffer *)

Lemma accepted_iff (current d : Point) :
  accepted current d = true <->
  ~ (px d <> 0 /\ px current <> 0) /\ ~ (py d <> 0 /\ py current <> 0).
Proof.
  unfold accepted.
  destruct (Z.eqb_spec (px d) 0), (Z.eqb_spec (px current) 0),
           (Z.eqb_spec (py d) 0), (Z.eqb_spec (py current) 0);
    cbn; split; try discriminate; try tauto.
Qed.

Lemma changeDirection_direction (d : Point) (w : World) :
  direction (this (changeDirection d w)) = direction (this w).
Proof.
  rewrite changeDirection_eq.
  destruct (accepted (direction (this w)) d); reflexivity.
Qed.

Lemma last_cons {A : Type} (a x : A) (l : list A) :
  last (a :: l) x = last l a.
Proof.
  revert a x. induction l as [|b l IH]; intros a x; [reflexivity|].
  change (last (a :: b :: l) x) with (last (b :: l) x).
  rewrite (IH b x), (IH b a). reflexivity.
Qed.

Lemma changeDirections_last (ds : list Point) : forall w : World,
  direction (this (changeDirections ds w)) = direction (this w) /\
  nextDirection (this (changeDirections ds w)) =
    last (filter (accepted (direction (this w))) ds) (nextDirection (this w)).
Proof.
  induction ds as [|d ds IH]; intros w; [split; reflexivity|].
  change (changeDirections (d :: ds) w)
    with (changeDirections ds (changeDirection d w)).
  destruct (IH (changeDirection d w)) as [Hd Hn].
  rewrite Hd, Hn, changeDirection_direction. split; [reflexivity|].
  rewrite changeDirection_eq. cbn [filter].
  destruct (accepted (direction (this w)) d); [|reflexivity].
  rewrite last_cons. destruct d; reflexivity.
Qed.

Lemma update_direction (fuel : nat) (w w' : World) :
  update fuel w = Done w' -> direction (this w') = nextDirection (this w).
Proof.
  intros Hrun. pose proof (update_outcome fuel w) as H. rewrite Hrun in H.
  destruct H as [s0 [rest [_ [[_ [_ ->]] | [[_ [_ [k [_ [_ ->]]]]]
                                          | [_ [_ ->]]]]]]].
  - rewrite completed_this, stopped_this. reflexivity.
  - destruct (fed_facts (playSound "eat"
      (on_this (fun g => set_score (score g + 10) g)
         (on_this (fun g => set_snake (candidate w s0 :: snake g) g)
            (commitDirection w)))) k) as [-> _].
    rewrite playSound_this. reflexivity.
  - reflexivity.
Qed.

(** C4. A direction request is dropped, the world left as it is, when it is
    horizontal while the current direction is horizontal or vertical while
    the current direction is vertical; any other request overwrites the
    pending direction and nothing else. Of the requests made between two
    ticks the last accepted one is pending at the next tick, which commits
    it. With current direction (1,0) a request (-1,0) leaves the pending
    direction, and (0,1) and (0,-1) each become the pending direction. *)
Theorem direction_request_guard :
  (forall (d : Point) (w : World),
      (px d <> 0 /\ px (direction (this w)) <> 0) \/
      (py d <> 0 /\ py (direction (this w)) <> 0) ->
      changeDirection d w = w) /\
  (forall (d : Point) (w : World),
      ~ (px d <> 0 /\ px (direction (this w)) <> 0) ->
      ~ (py d <> 0 /\ py (direction (this w)) <> 0) ->
      changeDirection d w = on_this (set_nextDirection d) w /\
      nextDirection (this (changeDirection d w)) = d) /\
  (forall (ds : list Point) (w : World),
      let kept := filter (accepted (direction (this w))) ds in
      nextDirection (this (changeDirections ds w))
        = last kept (nextDirection (this w)) /\
      (forall d, In d kept <->
         In d ds /\ ~ (px d <> 0 /\ px (direction (this w)) <> 0)
                 /\ ~ (py d <> 0 /\ py (direction (this w)) <> 0)) /\
      forall (fuel : nat) (w' : World),
        update fuel (changeDirections ds w) = Done w' ->
        direction (this w') = last kept (nextDirection (this w))) /\
  (forall w : World,
      direction (this w) = mkPoint 1 0 ->
      changeDirection (mkPoint (-1) 0) w = w /\
      nextDirection (this (changeDirection (mkPoint 0 1) w)) = mkPoint 0 1 /\
      nextDirection (this (changeDirection (mkPoint 0 (-1)) w))
        = mkPoint 0 (-1)).
Proof.
  split; [|split; [|split]].
  - intros d w H. rewrite changeDirection_eq.
    destruct (accepted (direction (this w)) d) eqn:E; [|reflexivity].
    apply accepted_iff in E. tauto.
  - intros d w Hx Hy. rewrite changeDirection_eq.
    rewrite (proj2 (accepted_iff (direction (this w)) d) (conj Hx Hy)).
    split; reflexivity.
  - intros ds w kept.
    destruct (changeDirections_last ds w) as [Hd Hn].
    split; [exact Hn|]. split.
    + intros d. unfold kept. rewrite filter_In, accepted_iff. tauto.
    + intros fuel w' Hrun.
      rewrite (update_direction fuel _ w' Hrun). exact Hn.
  - intros w Hdir. rewrite !changeDirection_eq, Hdir. cbn.
    repeat split.
Qed.

(** ** Leaving GameOver *)

Lemma lifecycle_GameOver (w : World) :
  lifecycle w = GameOver -> isGameRunning (this w) = false.
Proof.
  unfold lifecycle. destruct (isGameRunning (this w)); [|reflexivity].
  destruct (isPaused (this w)); discriminate.
Qed.

(** C5, as the engine has it. From GameOver a command that ends in Running
    is [startGame] or [restartGame], and each of the two does end in Running
    when it returns; it returns as soon as a draw within the fuel misses the
    three cells of the new snake. No other command and no tick leads from
    GameOver to Running. *)
Theorem GameOver_left_by_start_or_restart :
  (forall (fuel : nat) (c : Command) (w w' : World),
      lifecycle w = GameOver -> run fuel c w = Done w' ->
      lifecycle w' = Running -> c = Start \/ c = Restart) /\
  (forall (fuel : nat) (c : Command) (w w' : World),
      lifecycle w = GameOver -> c = Start \/ c = Restart ->
      run fuel c w = Done w' -> lifecycle w' = Running) /\
  (forall (fuel : nat) (c : Command) (w : World) (k : nat),
      lifecycle w = GameOver -> c = Start \/ c = Restart ->
      (k < fuel)%nat ->
      ~ In (draw w k) [mkPoint 10 10; mkPoint 9 10; mkPoint 8 10] ->
      exists w', run fuel c w = Done w').
Proof.
  split; [|split].
  - intros fuel c w w' Hover Hrun Hrunning.
    apply lifecycle_GameOver in Hover.
    apply lifecycle_Running in Hrunning. destruct Hrunning as [Hr Hp].
    destruct (run_flags fuel c w w' Hrun)
      as [[E _] | [[_ [_ [E | [E | [_ E]]]]] | [[E _] | [_ [_ [_ [E _]]]]]]];
      try congruence; auto.
  - intros fuel c w w' Hover Hc Hrun.
    apply lifecycle_GameOver in Hover.
    apply lifecycle_Running.
    assert (Hstart : exists w0, isGameRunning (this w0) = false /\
                                startGame fuel w0 = Done w').
    { destruct Hc as [-> | ->]; cbn [run] in Hrun.
      - exists w; auto.
      - exists (stopGame w). split; [|exact Hrun].
        destruct (stopGame_facts w) as [-> _]. reflexivity. }
    destruct Hstart as [w0 [Hr0 Hs]].
    pose proof (startGame_outcome fuel w0) as H. rewrite Hs in H.
    destruct H as [[E _] | [_ [k [_ [_ ->]]]]]; [congruence|].
    destruct (launch_facts (fed (reset_board w0) k)) as [-> _].
    split; reflexivity.
  - intros fuel c w k Hover Hc Hk Hfree.
    apply lifecycle_GameOver in Hover.
    assert (Hgen : forall w0, isGameRunning (this w0) = false ->
              draw (reset_board w0) k = draw w k ->
              exists w', startGame fuel w0 = Done w').
    { intros w0 Hr0 Hd. rewrite startGame_eq, Hr0.
      destruct (generateFood_returns fuel (reset_board w0) k Hk) as [w1 ->].
      - apply occupied_false. rewrite Hd. exact Hfree.
      - eexists; reflexivity. }
    destruct Hc as [-> | ->]; cbn [run].
    + apply Hgen; [exact Hover | reflexivity].
    + unfold restartGame. apply Hgen.
      * destruct (stopGame_facts w) as [-> _]. reflexivity.
      * open_world w. destruct gl; reflexivity.
Qed.

(** ** The high-score store *)

(** What a command or a tick does to the high score and its store: a tick
    into a collision runs [gameOver] once; everything else leaves the high
    score, the stored value and the log of writes as they are. *)
Lemma run_store (fuel : nat) (c : Command) (w w' : World) :
  run fuel c w = Done w' ->
  (c = Tick /\
   (exists s0 rest, snake (this w) = s0 :: rest /\
      checkCollision w (candidate w s0) = true) /\
   (record_broken w = false \/ setItemThrows (page w) = false) /\
   w' = gameOver_completed (commitDirection w)) \/
  (highScore (this w') = highScore (this w) /\
   storedHighScore (page w') = storedHighScore (page w) /\
   setItemLog (page w') = setItemLog (page w)).
Proof.
  assert (Hstart : forall w0, startGame fuel w0 = Done w' ->
            highScore (this w') = highScore (this w0) /\
            storedHighScore (page w') = storedHighScore (page w0) /\
            setItemLog (page w') = setItemLog (page w0)).
  { intros w0 Hrun. pose proof (startGame_outcome fuel w0) as H.
    rewrite Hrun in H.
    destruct H as [[_ ->] | [_ [k [_ [_ ->]]]]]; [auto|].
    destruct (launch_facts (fed (reset_board w0) k)) as [-> [_ [_ [-> [-> _]]]]].
    destruct (fed_facts (reset_board w0) k) as [-> [_ [_ [-> [-> _]]]]].
    repeat split. }
  destruct c as [ | | | |d|l|e| ]; cbn [run].
  - intros Hrun. right. apply Hstart; exact Hrun.
  - intros [= <-]. right.
    destruct (isGameRunning (this w)) eqn:Hr;
      [destruct (isPaused (this w)) eqn:Hp|];
      try (rewrite pauseGame_noop by auto; auto).
    destruct (pauseGame_facts w Hr Hp) as [-> [_ [-> ->]]]. repeat split.
  - intros [= <-]. right.
    destruct (isGameRunning (this w)) eqn:Hr;
      [destruct (isPaused (this w)) eqn:Hp|];
      try (rewrite resumeGame_noop by auto; auto).
    destruct (resumeGame_facts w Hr Hp) as [-> [_ [-> ->]]]. repeat split.
  - unfold restartGame. intros Hrun. right.
    destruct (Hstart _ Hrun) as [-> [-> ->]].
    destruct (stopGame_facts w) as [-> [_ [-> ->]]]. repeat split.
  - intros [= <-]. right. rewrite changeDirection_eq.
    destruct (accepted (direction (this w)) d); repeat split.
  - intros [= <-]. right.
    pose proof (setDifficulty_facts l w) as H. cbv zeta in H.
    destruct (isGameRunning (this w) && negb (isPaused (this w)));
      destruct H as [-> ->]; repeat split.
  - intros [= <-]. right. repeat split.
  - intros Hrun. pose proof (update_outcome fuel w) as H.
    rewrite Hrun in H.
    destruct H as [s0 [rest [Hsnake [[Hhit [Hor ->]]
                                    | [[_ [_ [k [_ [_ ->]]]]]
                                      | [_ [_ ->]]]]]]].
    + left. split; [reflexivity|]. split; [|auto].
      exists s0, rest. auto.
    + right.
      destruct (playSound_page "eat"
        (on_this (fun g => set_score (score g + 10) g)
           (on_this (fun g => set_snake (candidate w s0 :: snake g) g)
              (commitDirection w)))) as [log Hlog].
      destruct (fed_facts (playSound "eat"
        (on_this (fun g => set_score (score g + 10) g)
           (on_this (fun g => set_snake (candidate w s0 :: snake g) g)
              (commitDirection w)))) k) as [-> [_ [_ [-> [-> _]]]]].
      rewrite playSound_this, Hlog. repeat split.
    + right. repeat split.
Qed.

(** The same of every step, returned or thrown: it is the end of one
    [gameOver], or it leaves the high score and its store. *)
Lemma run_store_left (fuel : nat) (c : Command) (w w' : World) :
  left_by (run fuel c w) w' ->
  (c = Tick /\
   (exists s0 rest, snake (this w) = s0 :: rest /\
      checkCollision w (candidate w s0) = true) /\
   left_by (gameOver (commitDirection w)) w') \/
  (highScore (this w') = highScore (this w) /\
   storedHighScore (page w') = storedHighScore (page w) /\
   setItemLog (page w') = setItemLog (page w)).
Proof.
  intros Hleft.
  destruct (left_by_cases _ _ Hleft) as [Hrun | [e Hrun]].
  - destruct (run_store fuel c w w' Hrun)
      as [[Hc [Hhit [Hor Hw']]] | H]; [left | right; exact H].
    split; [exact Hc|]. split; [exact Hhit|].
    rewrite gameOver_eq.
    change (record_broken (commitDirection w)) with (record_broken w).
    change (setItemThrows (page (commitDirection w)))
      with (setItemThrows (page w)).
    destruct Hor as [-> | ->]; rewrite ?andb_false_r; exact Hw'.
  - destruct (run_raises fuel c w e w' Hrun)
      as [Hc [[_ [_ ->]] | [s0 [rest [Hs [Hhit [Hrb [Hq [_ ->]]]]]]]]].
    + right. repeat split.
    + left. split; [exact Hc|]. split; [exists s0, rest; auto|].
      rewrite gameOver_eq.
      change (record_broken (commitDirection w)) with (record_broken w).
      change (setItemThrows (page (commitDirection w)))
        with (setItemThrows (page w)).
      rewrite Hrb, Hq. reflexivity.
Qed.


(** [gameOver] with a new high score that the store accepts. *)
Lemma gameOver_record (w : World) :
  record_broken w = true -> setItemThrows (page w) = false ->
  exists w', gameOver w = Done w' /\
    highScore (this w') = Num (score (this w)) /\
    storedHighScore (page w')
      = Some (Number_toString (Num (score (this w)))) /\
    setItemLog (page w')
      = setItemLog (page w) ++ [Number_toString (Num (score (this w)))].
Proof.
  intros Hrb Hq. exists (gameOver_completed w).
  rewrite gameOver_eq, Hrb, Hq. split; [reflexivity|].
  pose proof (completed_store w) as Hs. rewrite Hrb in Hs.
  pose proof (f_equal fst Hs) as H1. pose proof (f_equal snd Hs) as H2.
  cbn [fst snd] in H1, H2.
  rewrite completed_this, stopped_this, Hrb, H1, H2. repeat split.
Qed.


(** ** Pausing *)

(** C8. [pauseGame] is idempotent, and it changes nothing unless the game is
    running and not paused. *)
Theorem pauseGame_idempotent (w : World) :
  pauseGame (pauseGame w) = pauseGame w /\
  (lifecycle w <> Running -> pauseGame w = w).
Proof.
  split.
  - destruct (isGameRunning (this w)) eqn:Hr;
      [destruct (isPaused (this w)) eqn:Hp|];
      try (rewrite (pauseGame_noop w) by auto; apply pauseGame_noop; auto).
    apply pauseGame_noop. right.
    destruct (pauseGame_facts w Hr Hp) as [-> _]. reflexivity.
  - intros Hnot. apply pauseGame_noop.
    destruct (isGameRunning (this w)) eqn:Hr; [|auto].
    destruct (isPaused (this w)) eqn:Hp; [auto|].
    exfalso. apply Hnot. apply lifecycle_Running. auto.
Qed.

(** ** Difficulty *)

(** C10. [setDifficulty] with a level other than easy, medium and hard
    leaves [gameSpeed]. While the game runs unpaused it still disarms the
    timer in [gameLoop] and arms a new one at that same interval, and of the
    fields of the engine only [gameLoop] changes; when exactly the timer of
    [gameLoop] was armed, the new one is the only one armed afterwards.
    Otherwise the call changes nothing. *)
Theorem setDifficulty_unknown_level (difficulty : string) (w : World) :
  known_level difficulty = false ->
  gameSpeed (this (setDifficulty difficulty w)) = gameSpeed (this w) /\
  (lifecycle w = Running ->
   this (setDifficulty difficulty w)
     = set_gameLoop (Some (nextHandle (page w))) (this w) /\
   page (setDifficulty difficulty w)
     = set_nextHandle (S (nextHandle (page w)))
         (set_intervals
            ((nextHandle (page w), gameSpeed (this w))
               :: intervals (page (clearInterval (gameLoop (this w)) w)))
            (page w)) /\
   (schedule_ok w ->
    intervals (page (setDifficulty difficulty w))
      = [(nextHandle (page w), gameSpeed (this w))])) /\
  (lifecycle w <> Running -> setDifficulty difficulty w = w).
Proof.
  unfold known_level. intros Hlevel.
  apply orb_false_iff in Hlevel. destruct Hlevel as [Hlevel Hhard].
  apply orb_false_iff in Hlevel. destruct Hlevel as [Heasy Hmedium].
  pose proof (setDifficulty_facts difficulty w) as H. cbv zeta in H.
  rewrite Heasy, Hmedium, Hhard in H.
  split; [|split].
  - destruct (isGameRunning (this w) && negb (isPaused (this w)));
      destruct H as [-> _]; reflexivity.
  - intros Hrun. apply lifecycle_Running in Hrun. destruct Hrun as [Hr Hp].
    rewrite Hr, Hp in H. cbn in H. destruct H as [Ht Hpg].
    split; [|split].
    + rewrite Ht. destruct w as [[] p]; reflexivity.
    + exact Hpg.
    + intros Hsched. rewrite Hpg, (schedule_cleared w Hsched). reflexivity.
  - intros Hnot.
    assert (E : isGameRunning (this w) && negb (isPaused (this w)) = false).
    { destruct (isGameRunning (this w)) eqn:Hr; [|reflexivity].
      destruct (isPaused (this w)) eqn:Hp; [reflexivity|].
      exfalso. apply Hnot. apply lifecycle_Running. auto. }
    rewrite E in H. destruct H as [Ht Hpg].
    destruct (setDifficulty difficulty w) as [g' p'], w as [g p].
    cbn in *. subst. destruct g; reflexivity.
Qed.

(** ** The high score at construction *)

Example parseInt_digits : parseInt "120" = Num 120.
Proof. vm_compute. reflexivity. Qed.

Example parseInt_null : parseInt (item_toString None) = NaN.
Proof. vm_compute. reflexivity. Qed.

Example parseInt_text : parseInt "best" = NaN.
Proof. vm_compute. reflexivity. Qed.

Example parseInt_prefix : parseInt "  42px" = Num 42.
Proof. vm_compute. reflexivity. Qed.

Example parseInt_hex : parseInt "-0x1F" = Num (-31).
Proof. vm_compute. reflexivity. Qed.

(** U+00A0 and U+3000 before the digits are skipped like a space. *)
Example parseInt_no_break_space :
  parseInt (String (ascii_of_nat 194) (String (ascii_of_nat 160)
             (String (ascii_of_nat 227) (String (ascii_of_nat 128)
               (String (ascii_of_nat 128) "42"))))) = Num 42.
Proof. vm_compute. reflexivity. Qed.

(** Beyond 2^53 the integer read is rounded to a double, and from 2^1024
    on it is infinite. *)
Example parseInt_rounds : parseInt "9007199254740993" = Num (2 ^ 53).
Proof. vm_compute. reflexivity. Qed.

(** The decimal text [setItem] stores is read back by [parseInt] as the
    number it was written from. *)
Lemma trimStart_keeps (c : ascii) (s : string) :
  isWhiteSpace1 (nat_of_ascii c) = false ->
  (nat_of_ascii c <? 128)%nat = true ->
  trimStart (String c s) = String c s.
Proof.
  intros H1 Hlow. apply Nat.ltb_lt in Hlow. cbn [trimStart]. rewrite H1.
  assert (E : forall n, (128 <= n)%nat -> (nat_of_ascii c =? n)%nat = false).
  { intros n Hn. apply Nat.eqb_neq. lia. }
  destruct s as [|c2 s2]; [reflexivity|].
  unfold isWhiteSpace2. rewrite (E 194%nat) by lia. cbn [andb].
  destruct s2 as [|c3 s3]; [reflexivity|].
  unfold isWhiteSpace3.
  rewrite (E 225%nat), (E 226%nat), (E 227%nat), (E 239%nat) by lia.
  reflexivity.
Qed.

Lemma parseDigits_decimal (d : Decimal.uint) : forall a : Z,
  parseDigits 10 (NilEmpty.string_of_uint d) (Some a) = Some (horner d a).
Proof.
  induction d; intros a; cbn [NilEmpty.string_of_uint horner];
    try reflexivity; apply IHd.
Qed.

Lemma horner_pos (d : Decimal.uint) : forall acc : positive,
  horner d (Z.pos acc) = Z.pos (Pos.of_uint_acc d acc).
Proof.
  induction d; intros acc; cbn [horner Pos.of_uint_acc];
    try reflexivity;
    match goal with
    | |- horner _ ?x = Z.pos (Pos.of_uint_acc _ ?p) =>
        replace x with (Z.pos p) by lia; apply IHd
    end.
Qed.

Lemma horner_of_uint (d : Decimal.uint) : horner d 0 = Z.of_N (Pos.of_uint d).
Proof.
  induction d; cbn [horner Pos.of_uint]; try reflexivity;
    try exact IHd; cbn [Z.mul Z.add Z.of_N]; apply horner_pos.
Qed.

Lemma parseDigits_decimal_first (d : Decimal.uint) :
  d <> Decimal.Nil ->
  parseDigits 10 (NilEmpty.string_of_uint d) None = Some (horner d 0).
Proof.
  destruct d; [congruence|..]; intros _;
    exact (parseDigits_decimal d _).
Qed.

Lemma parseInt_decimal (d : Decimal.uint) :
  d <> Decimal.Nil ->
  parseInt (NilEmpty.string_of_uint d)
    = read_digits 1 (NilEmpty.string_of_uint d) /\
  parseInt (String "-" (NilEmpty.string_of_uint d))
    = read_digits (-1) (NilEmpty.string_of_uint d).
Proof.
  intros Hd. unfold parseInt.
  rewrite (trimStart_keeps "-") by reflexivity.
  destruct d as [|d|d|d|d|d|d|d|d|d|d]; [congruence|..];
    cbn [NilEmpty.string_of_uint];
    rewrite trimStart_keeps by reflexivity;
    try (split; reflexivity).
  destruct d as [|d|d|d|d|d|d|d|d|d|d]; split; reflexivity.
Qed.

Lemma string_of_uint_nonnil (d : Decimal.uint) :
  d <> Decimal.Nil ->
  NilZero.string_of_uint d = NilEmpty.string_of_uint d.
Proof. destruct d; [congruence|..]; reflexivity. Qed.

Lemma parseInt_Number_toString (n : Z) :
  Z.abs n < 2 ^ 53 -> parseInt (Number_toString (Num n)) = Num n.
Proof.
  intros Hn. unfold Number_toString.
  assert (Hsmall : (Z.abs n <? 10 ^ 21) = true).
  { apply Z.ltb_lt. eapply Z.lt_trans; [exact Hn|]. reflexivity. }
  rewrite Hsmall.
  destruct n as [|p|p]; [vm_compute; reflexivity|..];
    cbn [Z.to_int NilZero.string_of_int];
    pose proof (DecimalPos.Unsigned.to_uint_nonnil p) as Hd;
    rewrite (string_of_uint_nonnil _ Hd).
  - rewrite (proj1 (parseInt_decimal _ Hd)). unfold read_digits.
    rewrite (parseDigits_decimal_first _ Hd), horner_of_uint,
      DecimalPos.Unsigned.of_to.
    apply Number_of_Z_exact. exact Hn.
  - rewrite (proj2 (parseInt_decimal _ Hd)). unfold read_digits.
    rewrite (parseDigits_decimal_first _ Hd), horner_of_uint,
      DecimalPos.Unsigned.of_to.
    apply Number_of_Z_exact. exact Hn.
Qed.

Lemma constructor_outcome (fuel : nat) (b : Browser) :
  match constructor fuel b with
  | Done w =>
      exists item k, localStorage b = StorageItems item /\ (k < fuel)%nat /\
        w = fed (reset_board
                   (initAudio (AudioContext_supported b)
                      (assign_fields b item))) k
  | Throws e =>
      localStorage b = StorageUnavailable /\ e = "SecurityError"%string
  | Raises _ _ => False
  | Spinning =>
      exists item, localStorage b = StorageItems item /\
        forall k, (k < fuel)%nat ->
          In (draw (assign_fields b item) k)
             [mkPoint 10 10; mkPoint 9 10; mkPoint 8 10]
  end.
Proof.
  unfold constructor, init.
  destruct (localStorage b) as [|item]; [split; reflexivity|].
  set (w0 := initAudio _ _).
  change (resetGame fuel w0) with (generateFood fuel (reset_board w0)).
  pose proof (generateFood_outcome fuel (reset_board w0)) as H.
  destruct (generateFood fuel (reset_board w0)) as [w| | |].
  - destruct H as [k [Hk [_ [_ ->]]]]. exists item, k. auto.
  - contradiction.
  - contradiction.
  - exists item. split; [reflexivity|]. intros k Hk.
    specialize (H k Hk). apply occupied_In in H.
    assert (Hd : draw (reset_board w0) k = draw (assign_fields b item) k).
    { unfold w0, initAudio. destruct (AudioContext_supported b); reflexivity. }
    rewrite Hd in H. exact H.
Qed.

(** With a store that can be read the constructor does not throw, and the
    high score is what [parseInt] reads from the stored text, with 0 in
    place of [NaN]: 0 when there is no item, 0 when the text does not start
    with a number, and the number read otherwise, which for the text
    [setItem] stored for a score below 2^53 is that score. The constructor
    then returns as soon as a draw within the fuel misses the three cells
    of the new snake. *)
Lemma highScore_from_readable_store :
  (forall (fuel : nat) (b : Browser) (item : option string) (w : World),
      localStorage b = StorageItems item ->
      constructor fuel b = Done w ->
      highScore (this w) = or_zero (parseInt (item_toString item)) /\
      (item = None -> highScore (this w) = Num 0) /\
      (parseInt (item_toString item) = NaN -> highScore (this w) = Num 0) /\
      (forall z, parseInt (item_toString item) = Num z ->
                 highScore (this w) = Num z)) /\
  (forall (fuel : nat) (b : Browser) (n : Z) (w : World),
      Z.abs n < 2 ^ 53 ->
      localStorage b = StorageItems (Some (Number_toString (Num n))) ->
      constructor fuel b = Done w -> highScore (this w) = Num n) /\
  (forall (fuel : nat) (b : Browser) (item : option string) (e : string),
      localStorage b = StorageItems item -> constructor fuel b <> Throws e) /\
  (forall (fuel : nat) (b : Browser) (item : option string) (k : nat),
      localStorage b = StorageItems item ->
      (k < fuel)%nat ->
      ~ In (draw (assign_fields b item) k)
           [mkPoint 10 10; mkPoint 9 10; mkPoint 8 10] ->
      exists w, constructor fuel b = Done w).
Proof.
  assert (Hread : forall (fuel : nat) (b : Browser) (item : option string)
                         (w : World),
      localStorage b = StorageItems item ->
      constructor fuel b = Done w ->
      highScore (this w) = or_zero (parseInt (item_toString item))).
  { intros fuel b item w Hstore Hnew.
    pose proof (constructor_outcome fuel b) as H. rewrite Hnew in H.
    destruct H as [item' [k [Hstore' [_ ->]]]].
    assert (item' = item) by congruence. subst item'.
    unfold initAudio. destruct (AudioContext_supported b); reflexivity. }
  split; [|split; [|split]].
  - intros fuel b item w Hstore Hnew.
    rewrite (Hread fuel b item w Hstore Hnew).
    split; [reflexivity|]. split; [|split].
    + intros ->. vm_compute. reflexivity.
    + intros ->. reflexivity.
    + intros z ->. reflexivity.
  - intros fuel b n w Hn Hstore Hnew.
    rewrite (Hread fuel b _ w Hstore Hnew). cbn [item_toString].
    rewrite (parseInt_Number_toString n Hn). reflexivity.
  - intros fuel b item e Hstore Hthrow.
    pose proof (constructor_outcome fuel b) as H. rewrite Hthrow in H.
    destruct H as [H _]. congruence.
  - intros fuel b item k Hstore Hk Hfree.
    pose proof (constructor_outcome fuel b) as H.
    destruct (constructor fuel b) as [w| | |].
    + exists w; reflexivity.
    + destruct H as [H _]. congruence.
    + contradiction.
    + destruct H as [item' [Hstore' Hall]].
      assert (item' = item) by congruence. subst item'.
      exfalso. apply Hfree. apply Hall. exact Hk.
Qed.

(** ** The sample games *)

Lemma reachable_runs (b : Browser) (fuel : nat) (cs : list Command) :
  forall w w' : World,
    reachable b w -> runs fuel cs w = Done w' -> reachable b w'.
Proof.
  induction cs as [|c cs IH]; intros w w' Hreach; cbn [runs].
  - intros [= <-]. exact Hreach.
  - destruct (run fuel c w) as [w1| |e w1|] eqn:E; cbn [and_then];
      try discriminate; apply IH.
    + exact (reach_run b fuel c w w1 Hreach E).
    + exact (reach_raise b fuel c w e w1 Hreach E).
Qed.

Example eating_reachable : reachable sample_browser eating.
Proof.
  apply (reachable_runs sample_browser 1 [Start]
           (outcome_or eating (constructor 1 sample_browser))).
  - apply (reach_new sample_browser 1). vm_compute. reflexivity.
  - vm_compute. reflexivity.
Qed.

Example at_wall_reachable : reachable sample_browser at_wall.
Proof.
  apply (reachable_runs sample_browser 1 (repeat Tick 9) eating).
  - exact eating_reachable.
  - reflexivity.
Qed.

Example crashed_reachable : reachable sample_browser crashed.
Proof.
  apply (reach_run sample_browser 1 Tick at_wall).
  - exact at_wall_reachable.
  - reflexivity.
Qed.

Example refused_at_wall_reachable : reachable readonly_browser refused_at_wall.
Proof.
  apply (reachable_runs readonly_browser 1 (Start :: repeat Tick 9)
           (outcome_or eating (constructor 1 readonly_browser))).
  - apply (reach_new readonly_browser 1). vm_compute. reflexivity.
  - vm_compute. reflexivity.
Qed.

Example refused_crashed_reachable :
  reachable readonly_browser refused_crashed.
Proof.
  apply (reach_raise readonly_browser 1 Tick refused_at_wall
           "QuotaExceededError").
  - exact refused_at_wall_reachable.
  - reflexivity.
Qed.

Example spec_scenario_eat :
  exists w', update 1 eating = Done w' /\
    snake (this w')
      = [mkPoint 11 10; mkPoint 10 10; mkPoint 9 10; mkPoint 8 10] /\
    score (this w') = 10 /\ food (this w') = Some (mkPoint 7 7).
Proof.
  exists (outcome_or eating (update 1 eating)). vm_compute. repeat split.
Qed.

Example spec_scenario_wall :
  snake (this at_wall)
    = [mkPoint 19 10; mkPoint 18 10; mkPoint 17 10; mkPoint 16 10] /\
  update 1 at_wall = Done crashed /\
  lifecycle crashed = GameOver /\
  snake (this crashed) = snake (this at_wall) /\
  intervals (page crashed) = [].
Proof. repeat split. Qed.

(** C2 at a game the engine reaches in a page whose store can be read but
    refuses writes. The game is running with the head on (19,10), heading
    right, after eating once, so the score of 10 is above the high score of
    0. The tick into the wall does not move and stops the engine, but it
    does not bring it to GameOver: [setItem] throws in [gameOver] before
    the overlay is put up, the exception leaves the timer callback, and the
    engine is left stopped behind a hidden overlay like one never
    started. *)
Theorem tick_collision_refused_store :
  reachable readonly_browser refused_at_wall /\
  lifecycle refused_at_wall = Running /\
  snake (this refused_at_wall)
    = [mkPoint 19 10; mkPoint 18 10; mkPoint 17 10; mkPoint 16 10] /\
  ~ inBounds refused_at_wall (candidate refused_at_wall (mkPoint 19 10)) /\
  score (this refused_at_wall) = 10 /\
  highScore (this refused_at_wall) = Num 0 /\
  update 1 refused_at_wall = Raises "QuotaExceededError" refused_crashed /\
  lifecycle refused_crashed = Idle /\
  lifecycle refused_crashed <> GameOver /\
  overlayHidden (overlay (page refused_crashed)) = true /\
  snake (this refused_crashed) = snake (this refused_at_wall) /\
  score (this refused_crashed) = score (this refused_at_wall) /\
  food (this refused_crashed) = food (this refused_at_wall) /\
  isGameRunning (this refused_crashed) = false /\
  intervals (page refused_crashed) = [].
Proof.
  split; [exact refused_at_wall_reachable|].
  split; [reflexivity|]. split; [reflexivity|].
  split; [intros [_ [H _]]; vm_compute in H; discriminate H|].
  repeat split. discriminate.
Qed.

(** ** The theorems at the sample games *)

Lemma sample_random_unit : unit_interval sample_random.
Proof.
  intros n. split.
  - destruct n as [|[|[|[|n]]]];
      [exists 5, (-5) | exists 3, (-3) | exists 9, (-4) | exists 1, (-1)
      | exists 3, (-3)];
      (split; [reflexivity | split; [discriminate | reflexivity]]).
  - destruct n as [|[|[|[|n]]]]; split; vm_compute;
      first [reflexivity | discriminate].
Defined.


(** C3 at the sample games: Food is off the snake in the game after nine
    ticks, and the food generator called there returns the cell (7,7). *)
Lemma food_never_on_snake_witness :
  food_off_snake at_wall /\
  (0 < tileCount (this at_wall))%Q /\
  unit_interval (Math_random (page at_wall)) /\
  exists k, (k < 1)%nat /\
    food (this (outcome_or at_wall (generateFood 1 at_wall)))
      = Some (draw at_wall k) /\
    inBounds at_wall (draw at_wall k) /\
    ~ In (draw at_wall k) (snake (this at_wall)).
Proof.
  destruct food_never_on_snake as [Hreach [Hgen _]].
  assert (Hside : (0 < tileCount (this at_wall))%Q) by reflexivity.
  split; [exact (Hreach sample_browser at_wall at_wall_reachable)|].
  split; [exact Hside|]. split; [exact sample_random_unit|].
  destruct (Hgen 1%nat at_wall (outcome_or at_wall (generateFood 1 at_wall))
              Hside sample_random_unit eq_refl)
    as [k [Hk [Hfood [_ [Hin [Hoff _]]]]]].
  exists k. auto.
Defined.

(** C4 at the first sample game, heading right. *)
Lemma direction_request_guard_witness :
  direction (this eating) = mkPoint 1 0 /\
  changeDirection (mkPoint (-1) 0) eating = eating /\
  nextDirection (this (changeDirection (mkPoint 0 1) eating)) = mkPoint 0 1 /\
  nextDirection (this (changeDirection (mkPoint 0 (-1)) eating))
    = mkPoint 0 (-1).
Proof.
  destruct direction_request_guard as [_ [_ [_ H]]].
  split; [reflexivity|]. exact (H eating eq_refl).
Defined.

(** C5 as stated fails: the game that hit the wall is in GameOver, and a
    bare [startGame] takes it to Running. *)
Lemma startGame_leaves_GameOver :
  lifecycle crashed = GameOver /\
  (exists w', run 1 Start crashed = Done w' /\ lifecycle w' = Running) /\
  ~ (forall (fuel : nat) (c : Command) (w w' : World),
        lifecycle w = GameOver -> run fuel c w = Done w' ->
        lifecycle w' = Running -> c = Restart).
Proof.
  assert (Hstart : exists w', run 1 Start crashed = Done w' /\
                              lifecycle w' = Running).
  { exists (outcome_or crashed (run 1 Start crashed)).
    split; vm_compute; reflexivity. }
  split; [reflexivity|]. split; [exact Hstart|].
  intros Hclaim. destruct Hstart as [w' [Hrun Hlife]].
  specialize (Hclaim 1%nat Start crashed w' eq_refl Hrun Hlife).
  discriminate Hclaim.
Qed.

(** C5 as the engine has it, at the game that hit the wall. *)
Lemma GameOver_left_by_start_or_restart_witness :
  lifecycle crashed = GameOver /\
  exists w', run 1 Restart crashed = Done w' /\ lifecycle w' = Running.
Proof.
  destruct GameOver_left_by_start_or_restart as [_ [Hruns Hreturns]].
  split; [reflexivity|].
  assert (Hfree : ~ In (draw crashed 0)
                       [mkPoint 10 10; mkPoint 9 10; mkPoint 8 10]).
  { vm_compute. intros [H|[H|[H|[]]]]; discriminate H. }
  destruct (Hreturns 1%nat Restart crashed 0%nat eq_refl
              (or_intror eq_refl) Nat.lt_0_1 Hfree) as [w' Hrun].
  exists w'. split; [exact Hrun|].
  exact (Hruns 1%nat Restart crashed w' eq_refl (or_intror eq_refl) Hrun).
Defined.



(** C7 at the game that hit the wall. *)
Lemma paused_only_while_running_witness :
  reachable sample_browser crashed /\ flags_ok crashed /\
  flags_ok (pauseGame crashed).
Proof.
  destruct paused_only_while_running as [_ [Hstep [Hreach _]]].
  split; [exact crashed_reachable|].
  split; [exact (Hreach sample_browser crashed crashed_reachable)|].
  exact (Hstep 1%nat Pause crashed (pauseGame crashed)
           (Hreach sample_browser crashed crashed_reachable) eq_refl).
Defined.

(** C8 at a running game and at a stopped one. *)
Lemma pauseGame_idempotent_witness :
  pauseGame (pauseGame eating) = pauseGame eating /\
  lifecycle crashed <> Running /\ pauseGame crashed = crashed.
Proof.
  split; [exact (proj1 (pauseGame_idempotent eating))|].
  assert (Hnot : lifecycle crashed <> Running) by (intros H; discriminate H).
  split; [exact Hnot|].
  exact (proj2 (pauseGame_idempotent crashed) Hnot).
Defined.

(** C9 at a page whose store cannot be read. The high score is to be 0
    when the store yields no value; here the constructor throws at the read
    of the store, whatever the fuel, and no engine with a high score of 0
    comes out of it. *)
Theorem constructor_throws_without_store :
  localStorage locked_browser = StorageUnavailable /\
  constructor 1 locked_browser = Throws "SecurityError" /\
  (forall fuel : nat, constructor fuel locked_browser = Throws "SecurityError")
  /\
  ~ (exists w, constructor 1 locked_browser = Done w /\
               highScore (this w) = Num 0).
Proof.
  split; [reflexivity|]. split; [reflexivity|]. split; [reflexivity|].
  intros [w [H _]]. discriminate H.
Qed.

(** The high score read at the sample page with 100 in the store. *)
Example highScore_at_sample_page :
  localStorage sample_browser = StorageItems (Some "100"%string) /\
  exists w, constructor 1 sample_browser = Done w /\
            highScore (this w) = Num 100.
Proof.
  split; [reflexivity|].
  exists (outcome_or eating (constructor 1 sample_browser)).
  split; vm_compute; reflexivity.
Qed.

(** C10 at the first sample game with a level the engine does not know. *)
Lemma setDifficulty_unknown_level_witness :
  known_level "insane" = false /\
  gameSpeed (this (setDifficulty "insane" eating)) = 150 /\
  gameLoop (this (setDifficulty "insane" eating)) = Some 2%nat /\
  intervals (page (setDifficulty "insane" eating)) = [(2%nat, 150)].
Proof.
  destruct (setDifficulty_unknown_level "insane" eating eq_refl)
    as [Hspeed [Hrun _]].
  destruct (Hrun eq_refl) as [Hthis [_ Hsched]].
  split; [reflexivity|]. split; [exact Hspeed|].
  split; [rewrite Hthis; reflexivity|].
  apply Hsched. exists 1%nat. split; reflexivity.
Defined.

(** * Further properties of the engine *)

(** ** What a command does to the board *)

Ltac kept_board :=
  split; [auto|]; left; cbn;
  (split; [|split; [|split; [|split; [|split]]]]); auto;
  try (intros; congruence).

(** The effect of a command or a tick on the snake, Food, the score and the
    two direction slots: it keeps them (a direction request may replace the
    pending direction), or it lays out a fresh board, or it is one of the
    three outcomes of a tick. The side of the board, the cell size and the
    source of random numbers never change. *)
Lemma run_board (fuel : nat) (c : Command) (w w' : World) :
  run fuel c w = Done w' ->
  (gridSize (this w') = gridSize (this w) /\
   tileCount (this w') = tileCount (this w) /\
   Math_random (page w') = Math_random (page w)) /\
  ((snake (this w') = snake (this w) /\ food (this w') = food (this w) /\
    score (this w') = score (this w) /\
    direction (this w') = direction (this w) /\
    (isGameRunning (this w') = true -> isGameRunning (this w) = true) /\
    (nextDirection (this w') = nextDirection (this w) \/
     exists d, c = ChangeDirection d /\
       accepted (direction (this w)) d = true /\
       nextDirection (this w') = d)) \/
   ((c = Start \/ c = Restart) /\
    snake (this w') = three_cells /\ score (this w') = 0 /\
    direction (this w') = mkPoint 1 0 /\
    nextDirection (this w') = mkPoint 1 0 /\
    isGameRunning (this w') = true /\
    isPaused (this w') = false /\
    exists w0 k,
      tileCount (this w0) = tileCount (this w) /\
      Math_random (page w0) = Math_random (page w) /\
      food (this w') = Some (draw w0 k) /\ ~ In (draw w0 k) three_cells) \/
   (c = Tick /\
    exists s0 rest, snake (this w) = s0 :: rest /\
      direction (this w') = nextDirection (this w) /\
      nextDirection (this w') = nextDirection (this w) /\
      ((checkCollision w (candidate w s0) = true /\
        snake (this w') = snake (this w) /\
        food (this w') = food (this w) /\
        score (this w') = score (this w) /\
        isGameRunning (this w') = false) \/
       (checkCollision w (candidate w s0) = false /\
        food (this w) = Some (candidate w s0) /\
        snake (this w') = candidate w s0 :: snake (this w) /\
        score (this w') = score (this w) + 10 /\
        isGameRunning (this w') = isGameRunning (this w) /\
        exists k, food (this w') = Some (draw w k) /\
                  ~ In (draw w k) (snake (this w'))) \/
       (checkCollision w (candidate w s0) = false /\
        food (this w) <> Some (candidate w s0) /\
        snake (this w') = candidate w s0 :: removelast (snake (this w)) /\
        score (this w') = score (this w) /\
        food (this w') = food (this w) /\
        isGameRunning (this w') = isGameRunning (this w))))).
Proof.
  assert (Hstart : forall w0,
            tileCount (this w0) = tileCount (this w) ->
            gridSize (this w0) = gridSize (this w) ->
            Math_random (page w0) = Math_random (page w) ->
            isGameRunning (this w0) = false ->
            startGame fuel w0 = Done w' ->
            (gridSize (this w') = gridSize (this w) /\
             tileCount (this w') = tileCount (this w) /\
             Math_random (page w') = Math_random (page w)) /\
            snake (this w') = three_cells /\ score (this w') = 0 /\
            direction (this w') = mkPoint 1 0 /\
            nextDirection (this w') = mkPoint 1 0 /\
            isGameRunning (this w') = true /\
            isPaused (this w') = false /\
            exists w1 k,
              tileCount (this w1) = tileCount (this w) /\
              Math_random (page w1) = Math_random (page w) /\
              food (this w') = Some (draw w1 k) /\
              ~ In (draw w1 k) three_cells).
  { intros w0 Ht Hg Hm Hr0 Hrun.
    pose proof (startGame_outcome fuel w0) as H. rewrite Hrun in H.
    destruct H as [[Hr _] | [_ [k [_ [Hfree ->]]]]]; [congruence|].
    destruct (launch_facts (fed (reset_board w0) k)) as [Hl _].
    destruct (fed_facts (reset_board w0) k) as [Hfd _].
    assert (Hpg : Math_random (page (launch (fed (reset_board w0) k)))
                  = Math_random (page w0)).
    { clear. open_world w0. unfold launch. destruct se, ac; reflexivity. }
    rewrite Hl, Hfd, Hpg. cbn.
    split; [auto|]. repeat split.
    exists (reset_board w0), k. repeat split; auto. }
  destruct c as [ | | | |d|l|e| ]; cbn [run].
  - intros Hrun. destruct (isGameRunning (this w)) eqn:Hr.
    + rewrite startGame_eq, Hr in Hrun. injection Hrun as <-.
      kept_board.
    + destruct (Hstart w) as [H1 H2]; auto.
      split; [exact H1|]. right; left. split; [auto | exact H2].
  - intros [= <-].
    destruct (isGameRunning (this w)) eqn:Hr;
      [destruct (isPaused (this w)) eqn:Hp|];
      try (rewrite pauseGame_noop by auto; kept_board).
    destruct (pauseGame_facts w Hr Hp) as [Ht _].
    assert (Hpg : Math_random (page (pauseGame w)) = Math_random (page w)).
    { clear. unfold pauseGame. open_world w. destruct rn, pa, gl; reflexivity. }
    rewrite Ht, Hpg. kept_board.
  - intros [= <-].
    destruct (isGameRunning (this w)) eqn:Hr;
      [destruct (isPaused (this w)) eqn:Hp|];
      try (rewrite resumeGame_noop by auto; kept_board).
    destruct (resumeGame_facts w Hr Hp) as [Ht _].
    assert (Hpg : Math_random (page (resumeGame w)) = Math_random (page w)).
    { clear. unfold resumeGame. open_world w. destruct rn, pa; reflexivity. }
    rewrite Ht, Hpg. kept_board.
  - unfold restartGame. intros Hrun.
    destruct (stopGame_facts w) as [Ht _].
    assert (Hpg : Math_random (page (stopGame w)) = Math_random (page w)).
    { clear. open_world w. destruct gl; reflexivity. }
    destruct (Hstart (stopGame w)) as [H1 H2]; auto;
      try (rewrite Ht; reflexivity).
    split; [exact H1|]. right; left. split; [auto | exact H2].
  - intros [= <-]. rewrite changeDirection_eq.
    destruct (accepted (direction (this w)) d) eqn:E.
    + split; [auto|]. left.
      split; [|split; [|split; [|split; [|split]]]]; auto.
      right. exists d. destruct d; auto.
    + kept_board.
  - intros [= <-].
    pose proof (setDifficulty_facts l w) as H. cbv zeta in H.
    destruct (isGameRunning (this w) && negb (isPaused (this w)));
      destruct H as [-> ->]; kept_board.
  - intros [= <-]. kept_board.
  - intros Hrun. pose proof (update_outcome fuel w) as H. rewrite Hrun in H.
    destruct H as [s0 [rest [Hsnake [[Hhit [_ ->]]
                                    | [[Hc [Hf [k [_ [Hfree ->]]]]]
                                      | [Hc [Hf ->]]]]]]].
    + assert (Hpg : Math_random (page (gameOver_completed (commitDirection w)))
                    = Math_random (page w)).
      { apply (completed_random (commitDirection w)). }
      rewrite completed_this, stopped_this, Hpg. split; [auto|].
      right; right.
      split; [reflexivity|]. exists s0, rest. cbn. auto 10.
    + set (w3 := playSound "eat" _) in *.
      assert (Ht : this w3 =
                set_score (score (this w) + 10)
                  (set_snake (candidate w s0 :: snake (this w))
                     (set_direction (nextDirection (this w)) (this w)))).
      { unfold w3. rewrite playSound_this. reflexivity. }
      destruct (playSound_page "eat"
        (on_this (fun g => set_score (score g + 10) g)
           (on_this (fun g => set_snake (candidate w s0 :: snake g) g)
              (commitDirection w)))) as [log Hlog].
      fold w3 in Hlog.
      assert (Hd : draw w3 k = draw w k).
      { apply draw_ext; [rewrite Ht | rewrite Hlog ..]; reflexivity. }
      destruct (fed_facts w3 k) as [Hft _].
      assert (Hpg : Math_random (page (fed w3 k)) = Math_random (page w)).
      { transitivity (Math_random (page w3)).
        - clear. destruct w3 as [g []]; reflexivity.
        - rewrite Hlog. reflexivity. }
      rewrite Hft, Ht, Hpg, Hd. cbn. split; [auto|]. right; right.
      split; [reflexivity|]. exists s0, rest.
      repeat split; auto. right; left. repeat split; auto.
      exists k. auto.
    + split; [cbn; auto|]. right; right.
      split; [reflexivity|]. exists s0, rest. cbn.
      repeat split; auto. right; right. repeat split; auto.
      rewrite Hsnake. reflexivity.
Qed.

(** What a command does to the settings: the tick interval changes only by
    [setDifficulty] with a level it knows, the sound switch only by
    [setSoundEnabled], the audio context never. *)
Lemma run_settings (fuel : nat) (c : Command) (w w' : World) :
  run fuel c w = Done w' ->
  audioContext (this w') = audioContext (this w) /\
  (soundEnabled (this w') = soundEnabled (this w) \/
   exists e, c = SetSoundEnabled e /\ soundEnabled (this w') = e) /\
  (gameSpeed (this w') = gameSpeed (this w) \/
   exists l, c = SetDifficulty l /\ known_level l = true /\
     gameSpeed (this w') =
       if String.eqb l "easy" then 200
       else if String.eqb l "medium" then 150 else 100).
Proof.
  assert (Hstart : forall w0,
            audioContext (this w0) = audioContext (this w) ->
            soundEnabled (this w0) = soundEnabled (this w) ->
            gameSpeed (this w0) = gameSpeed (this w) ->
            startGame fuel w0 = Done w' ->
            audioContext (this w') = audioContext (this w) /\
            soundEnabled (this w') = soundEnabled (this w) /\
            gameSpeed (this w') = gameSpeed (this w)).
  { intros w0 Ha Hs Hg Hrun.
    pose proof (startGame_outcome fuel w0) as H. rewrite Hrun in H.
    destruct H as [[_ ->] | [_ [k [_ [_ ->]]]]]; [auto|].
    destruct (launch_facts (fed (reset_board w0) k)) as [-> _].
    destruct (fed_facts (reset_board w0) k) as [-> _]. cbn. auto. }
  destruct c as [ | | | |d|l|e| ]; cbn [run].
  - intros Hrun. destruct (Hstart w) as [H1 [H2 H3]]; auto.
  - intros [= <-].
    destruct (isGameRunning (this w)) eqn:Hr;
      [destruct (isPaused (this w)) eqn:Hp|];
      try (rewrite pauseGame_noop by auto; auto).
    destruct (pauseGame_facts w Hr Hp) as [-> _]. cbn. auto.
  - intros [= <-].
    destruct (isGameRunning (this w)) eqn:Hr;
      [destruct (isPaused (this w)) eqn:Hp|];
      try (rewrite resumeGame_noop by auto; auto).
    destruct (resumeGame_facts w Hr Hp) as [-> _]. cbn. auto.
  - unfold restartGame. intros Hrun.
    destruct (stopGame_facts w) as [Ht _].
    destruct (Hstart (stopGame w)) as [H1 [H2 H3]]; auto;
      rewrite Ht; reflexivity.
  - intros [= <-]. rewrite changeDirection_eq.
    destruct (accepted (direction (this w)) d); cbn; auto.
  - intros [= <-].
    pose proof (setDifficulty_facts l w) as H. cbv zeta in H.
    assert (Hsp : gameSpeed (this (setDifficulty l w)) =
              if String.eqb l "easy" then 200
              else if String.eqb l "medium" then 150
              else if String.eqb l "hard" then 100
              else gameSpeed (this w)).
    { destruct (isGameRunning (this w) && negb (isPaused (this w)));
        destruct H as [-> _]; reflexivity. }
    assert (Hrest : audioContext (this (setDifficulty l w))
                      = audioContext (this w) /\
                    soundEnabled (this (setDifficulty l w))
                      = soundEnabled (this w)).
    { destruct (isGameRunning (this w) && negb (isPaused (this w)));
        destruct H as [-> _]; split; reflexivity. }
    destruct Hrest as [Ha Hs]. split; [exact Ha|]. split; [auto|].
    rewrite Hsp. unfold known_level.
    destruct (String.eqb l "easy") eqn:E1;
      [right; exists l; rewrite E1; repeat split|].
    destruct (String.eqb l "medium") eqn:E2;
      [right; exists l; rewrite E1, E2; repeat split|].
    destruct (String.eqb l "hard") eqn:E3;
      [right; exists l; rewrite E1, E2, E3; repeat split|].
    left; reflexivity.
  - intros [= <-]. cbn. split; [reflexivity|]. split; [|auto].
    right. exists e. auto.
  - intros Hrun. pose proof (update_outcome fuel w) as H. rewrite Hrun in H.
    destruct H as [s0 [rest [_ [[_ [_ ->]] | [[_ [_ [k [_ [_ ->]]]]]
                                            | [_ [_ ->]]]]]]].
    + rewrite completed_this, stopped_this. cbn. auto.
    + destruct (fed_facts (playSound "eat"
        (on_this (fun g => set_score (score g + 10) g)
           (on_this (fun g => set_snake (candidate w s0 :: snake g) g)
              (commitDirection w)))) k) as [-> _].
      rewrite playSound_this. cbn. auto.
    + cbn. auto.
Qed.

(** ** The board invariant *)

Lemma inBounds_ext (w w' : World) (c : Point) :
  tileCount (this w') = tileCount (this w) -> inBounds w c -> inBounds w' c.
Proof. unfold inBounds. intros ->. tauto. Qed.

Lemma draw_inBounds (w : World) (k : nat) :
  (0 < tileCount (this w))%Q -> unit_interval (Math_random (page w)) ->
  inBounds w (draw w k).
Proof.
  intros Hside Hunit. unfold inBounds, draw; cbn [px py].
  destruct (Hunit (randomCalls (page w) + 2 * k)%nat) as [Hxd [Hx0 Hx1]].
  destruct (Hunit (randomCalls (page w) + 2 * k + 1)%nat) as [Hyd [Hy0 Hy1]].
  destruct (floor_scaled_range _ _ Hxd Hx0 Hx1 Hside) as [? ?].
  destruct (floor_scaled_range _ _ Hyd Hy0 Hy1 Hside) as [? ?].
  auto.
Qed.

Lemma three_cells_inBounds (w : World) (c : Point) :
  (10 < tileCount (this w))%Q -> In c three_cells -> inBounds w c.
Proof.
  intros Hside Hin. unfold inBounds.
  assert (H9 : (inject_Z 9 < tileCount (this w))%Q).
  { eapply Qlt_trans; [|exact Hside]. reflexivity. }
  assert (H8 : (inject_Z 8 < tileCount (this w))%Q).
  { eapply Qlt_trans; [|exact Hside]. reflexivity. }
  destruct Hin as [<- | [<- | [<- | []]]]; cbn [px py];
    repeat split; try lia; assumption.
Qed.

Lemma NoDup_removelast {A : Type} (l : list A) :
  NoDup l -> NoDup (removelast l).
Proof.
  induction 1 as [|a l Hnot Hnd IH]; [constructor|].
  destruct l as [|b l]; [constructor|].
  change (removelast (a :: b :: l)) with (a :: removelast (b :: l)).
  constructor; [|exact IH].
  intros Hin. apply Hnot. apply In_removelast. exact Hin.
Qed.

Lemma length_removelast_head {A : Type} (a : A) (l : list A) :
  List.length (removelast (a :: l)) = List.length l.
Proof.
  destruct l as [|b l]; [reflexivity|]. apply length_removelast_cons.
Qed.

Ltac split6 := split; [|split; [|split; [|split; [|split]]]].

Lemma board_ok_constructor (fuel : nat) (b : Browser) (w : World) :
  constructor fuel b = Done w -> board_ok b w.
Proof.
  intros Hnew.
  pose proof (constructor_outcome fuel b) as H. rewrite Hnew in H.
  destruct H as [item [k [_ [_ ->]]]].
  remember (reset_board (initAudio (AudioContext_supported b)
                                   (assign_fields b item))) as w0 eqn:Ew0.
  assert (H0 : gridSize (this w0) = 20 /\ tileCount (this w0) = side_of b /\
               Math_random (page w0) = random_source b /\
               snake (this w0) = three_cells /\ score (this w0) = 0 /\
               gameSpeed (this w0) = 150).
  { subst w0. unfold initAudio.
    destruct (AudioContext_supported b); repeat split. }
  clear Ew0.
  destruct H0 as [Hg [Ht [Hm [Hs [Hsc Hsp]]]]].
  destruct (fed_facts w0 k) as [Hfd _].
  assert (Hpg : Math_random (page (fed w0 k)) = Math_random (page w0)).
  { clear. destruct w0 as [g []]; reflexivity. }
  unfold board_ok. rewrite Hfd, Hpg. cbn. rewrite Hg, Ht, Hm, Hs, Hsc, Hsp.
  split; [reflexivity|]. split; [reflexivity|]. split; [reflexivity|].
  split6.
  - repeat constructor; cbn; intuition discriminate.
  - cbn. lia.
  - reflexivity.
  - auto.
  - intros Hside c Hin.
    apply (inBounds_ext w0); [rewrite Hfd; reflexivity|].
    apply three_cells_inBounds; [rewrite Ht; exact Hside | exact Hin].
  - intros Hside Hunit f [= <-].
    apply (inBounds_ext w0); [rewrite Hfd; reflexivity|].
    apply draw_inBounds; [rewrite Ht | rewrite Hm]; assumption.
Qed.

Lemma board_ok_run (fuel : nat) (b : Browser) (c : Command) (w w' : World) :
  board_ok b w -> run fuel c w = Done w' -> board_ok b w'.
Proof.
  intros [Hg [Ht [Hm [Hnd [Hlen [Hsc [Hsp [Hin Hfood]]]]]]]] Hrun.
  destruct (run_board fuel c w w' Hrun) as [[Hg' [Ht' Hm']] Hcases].
  destruct (run_settings fuel c w w' Hrun) as [_ [_ Hspeed]].
  assert (Hsp' : gameSpeed (this w') = 100 \/ gameSpeed (this w') = 150
                 \/ gameSpeed (this w') = 200).
  { destruct Hspeed as [-> | [l [_ [_ ->]]]]; [exact Hsp|].
    destruct (String.eqb l "easy"); [auto|].
    destruct (String.eqb l "medium"); auto. }
  unfold board_ok. rewrite Hg', Ht', Hm'.
  split; [exact Hg|]. split; [exact Ht|]. split; [exact Hm|].
  destruct Hcases as [[Hs [Hf [Hscore _]]]
                     | [[_ [Hs [Hscore [_ [_ [_ [_ [w0 [k [Ht0 [Hm0 [Hf Hfree]]]]]]]]]]]]
                     | [_ [s0 [rest [Hsnake [_ [_ Htick]]]]]]]].
  - rewrite Hs, Hf, Hscore. split6; auto.
    + intros Hside c0 Hc0. apply (inBounds_ext w); auto.
    + intros Hside Hunit f Hff. apply (inBounds_ext w); auto.
  - rewrite Hs, Hscore, Hf. split6; auto.
    + repeat constructor; cbn; intuition discriminate.
    + intros Hside c0 Hc0. apply three_cells_inBounds; [|exact Hc0].
      rewrite Ht', Ht. exact Hside.
    + intros Hside Hunit f [= <-].
      apply (inBounds_ext w0); [congruence|].
      apply draw_inBounds; [rewrite Ht0, Ht | rewrite Hm0, Hm]; assumption.
  - destruct Htick as [[_ [Hs [Hf [Hscore _]]]]
                      | [[Hc [_ [Hs [Hscore [_ [k [Hf _]]]]]]]
                        | [Hc [_ [Hs [Hscore [Hf _]]]]]]].
    + rewrite Hs, Hf, Hscore. split6; auto.
      * intros Hside c0 Hc0. apply (inBounds_ext w); auto.
      * intros Hside Hunit f Hff. apply (inBounds_ext w); auto.
    + apply checkCollision_false in Hc. destruct Hc as [Hcin Hcoff].
      rewrite Hs, Hscore, Hf. split6; auto.
      * constructor; assumption.
      * cbn [List.length]. lia.
      * cbn [List.length]. rewrite Hsc. lia.
      * intros Hside c0 [<- | Hc0]; apply (inBounds_ext w); auto.
      * intros Hside Hunit f [= <-]. apply (inBounds_ext w); auto.
        apply draw_inBounds; [rewrite Ht | rewrite Hm]; assumption.
    + apply checkCollision_false in Hc. destruct Hc as [Hcin Hcoff].
      rewrite Hs, Hscore, Hf. rewrite Hsnake in *.
      split6; auto.
      * constructor; [|apply NoDup_removelast; exact Hnd].
        intros Hx. apply Hcoff. apply In_removelast. exact Hx.
      * cbn [List.length]. rewrite length_removelast_head.
        cbn [List.length] in Hlen. lia.
      * cbn [List.length]. rewrite length_removelast_head. exact Hsc.
      * intros Hside c0 [<- | Hc0]; apply (inBounds_ext w); auto.
        apply Hin; [exact Hside|]. apply In_removelast. exact Hc0.
      * intros Hside Hunit f Hff. apply (inBounds_ext w); auto.
Qed.

(** The fields [board_ok] reads. *)
Lemma board_ok_frame (b : Browser) (w w' : World) :
  gridSize (this w') = gridSize (this w) ->
  tileCount (this w') = tileCount (this w) ->
  Math_random (page w') = Math_random (page w) ->
  snake (this w') = snake (this w) ->
  score (this w') = score (this w) ->
  gameSpeed (this w') = gameSpeed (this w) ->
  food (this w') = food (this w) ->
  board_ok b w -> board_ok b w'.
Proof.
  unfold board_ok, inBounds. intros -> -> -> -> -> -> ->. tauto.
Qed.

Lemma board_ok_raise (fuel : nat) (b : Browser) (c : Command) (w : World)
    (e : string) (w' : World) :
  board_ok b w -> run fuel c w = Raises e w' -> board_ok b w'.
Proof.
  intros Hok Hrun.
  destruct (run_raises fuel c w e w' Hrun)
    as [_ [[Hnil _] | [s0 [rest [_ [_ [_ [_ [_ ->]]]]]]]]].
  - destruct Hok as [_ [_ [_ [_ [Hlen _]]]]]. rewrite Hnil in Hlen.
    cbn in Hlen. lia.
  - revert Hok.
    destruct (stopped_page (commitDirection w)) as [_ [_ [_ [_ [_ Hm]]]]].
    apply board_ok_frame; try (rewrite stopped_this; reflexivity).
    exact Hm.
Qed.

Lemma reachable_board_ok (b : Browser) (w : World) :
  reachable b w -> board_ok b w.
Proof.
  induction 1 as [fuel w Hnew | fuel c w w' _ IH Hrun
                 | fuel c w e w' _ IH Hrun | w v _ IH].
  - exact (board_ok_constructor fuel b w Hnew).
  - exact (board_ok_run fuel b c w w' IH Hrun).
  - exact (board_ok_raise fuel b c w e w' IH Hrun).
  - revert IH. apply board_ok_frame; reflexivity.
Qed.

(** ** Timers *)

Lemma lifecycle_not_Running (w : World) :
  lifecycle w <> Running <->
  isGameRunning (this w) && negb (isPaused (this w)) = false.
Proof.
  rewrite lifecycle_Running.
  destruct (isGameRunning (this w)), (isPaused (this w)); cbn;
    intuition congruence.
Qed.

(** An armed timer is the one of a running game. *)
Lemma armed_while_running (b : Browser) (w : World) (h : nat) :
  reachable b w -> armed h w = true ->
  lifecycle w = Running /\ gameLoop (this w) = Some h.
Proof.
  intros Hreach Harmed.
  destruct (reachable_invariant b w Hreach) as [_ [_ [Hsched _]]].
  unfold schedule_ok in Hsched. unfold armed in Harmed.
  destruct (isGameRunning (this w) && negb (isPaused (this w))) eqn:E.
  - destruct Hsched as [h0 [Hloop Hiv]]. rewrite Hiv in Harmed.
    cbn in Harmed. rewrite orb_false_r in Harmed.
    apply Nat.eqb_eq in Harmed. subst h0.
    split; [|exact Hloop].
    apply lifecycle_Running. apply andb_true_iff in E.
    destruct E as [E1 E2]. apply negb_true_iff in E2. auto.
  - rewrite Hsched in Harmed. discriminate.
Qed.

(** X1. The engine owns at most one timer. In every world it can be in,
    while the game runs unpaused exactly one timer is armed, the one whose
    handle is in [gameLoop], at the interval [gameSpeed]; while it is idle,
    paused or over no timer is armed, so no tick can fire. *)
Theorem one_timer_while_running (b : Browser) (w : World) :
  reachable b w ->
  (lifecycle w = Running ->
   exists h, gameLoop (this w) = Some h /\
             intervals (page w) = [(h, gameSpeed (this w))]) /\
  (lifecycle w <> Running -> intervals (page w) = []) /\
  (forall h, armed h w = true ->
             lifecycle w = Running /\ gameLoop (this w) = Some h).
Proof.
  intros Hreach.
  destruct (reachable_invariant b w Hreach) as [_ [_ [Hsched _]]].
  unfold schedule_ok in Hsched.
  split; [|split].
  - intros Hrun. apply lifecycle_Running in Hrun. destruct Hrun as [Hr Hp].
    rewrite Hr, Hp in Hsched. exact Hsched.
  - intros Hnot. apply lifecycle_not_Running in Hnot.
    rewrite Hnot in Hsched. exact Hsched.
  - intros h Harmed. exact (armed_while_running b w h Hreach Harmed).
Qed.

(** ** Snake, score and board *)

(** X2. The score counts the food eaten: in every world the engine can be
    in, the snake has at least three cells and the score is ten times the
    number of cells beyond three. *)
Theorem score_counts_growth (b : Browser) (w : World) :
  reachable b w ->
  (3 <= List.length (snake (this w)))%nat /\
  score (this w) = 10 * (Z.of_nat (List.length (snake (this w))) - 3).
Proof.
  intros Hreach.
  destruct (reachable_board_ok b w Hreach) as [_ [_ [_ [_ [Hlen [Hsc _]]]]]].
  auto.
Qed.

(** X3. The snake never overlaps itself: in every world the engine can be
    in, no two segments are on the same cell. *)
Theorem snake_cells_distinct (b : Browser) (w : World) :
  reachable b w -> NoDup (snake (this w)).
Proof.
  intros Hreach.
  destruct (reachable_board_ok b w Hreach) as [_ [_ [_ [Hnd _]]]].
  exact Hnd.
Qed.

(** X4. Nothing leaves the board: for a canvas more than ten cells wide,
    every segment of the snake is a cell of the board in every world the
    engine can be in, and so is Food when [Math.random] stays in [[0, 1)];
    the side of the board is the one the constructor computed. *)
Theorem snake_and_food_on_board (b : Browser) (w : World) :
  reachable b w ->
  (10 < side_of b)%Q ->
  tileCount (this w) = side_of b /\
  (forall c, In c (snake (this w)) -> inBounds w c) /\
  (unit_interval (random_source b) ->
   exists f, food (this w) = Some f /\ inBounds w f).
Proof.
  intros Hreach Hside.
  destruct (reachable_board_ok b w Hreach)
    as [_ [Ht [_ [_ [_ [_ [_ [Hin Hfood]]]]]]]].
  destruct (reachable_invariant b w Hreach) as [[f [Hf _]] _].
  split; [exact Ht|]. split; [exact (Hin Hside)|].
  intros Hunit. exists f. split; [exact Hf|].
  apply Hfood; [|exact Hunit|exact Hf].
  eapply Qlt_trans; [|exact Hside]. reflexivity.
Qed.

(** ** Difficulty *)

(** X5. [setDifficulty] maps easy, medium and hard to 200, 150 and 100
    milliseconds. While the game runs unpaused it leaves exactly one timer
    armed, at the new interval; otherwise it arms none. In every world the
    engine can be in the interval is one of the three. *)
Theorem difficulty_sets_interval (b : Browser) (w : World)
    (difficulty : string) :
  reachable b w ->
  known_level difficulty = true ->
  let w' := setDifficulty difficulty w in
  gameSpeed (this w') =
    (if String.eqb difficulty "easy" then 200
     else if String.eqb difficulty "medium" then 150 else 100) /\
  (lifecycle w = Running ->
   gameLoop (this w') = Some (nextHandle (page w)) /\
   intervals (page w') = [(nextHandle (page w), gameSpeed (this w'))]) /\
  (lifecycle w <> Running -> intervals (page w') = []) /\
  (gameSpeed (this w) = 100 \/ gameSpeed (this w) = 150
   \/ gameSpeed (this w) = 200).
Proof.
  intros Hreach Hknown w'. unfold w'.
  destruct (reachable_invariant b w Hreach) as [_ [_ [Hsched _]]].
  destruct (reachable_board_ok b w Hreach)
    as [_ [_ [_ [_ [_ [_ [Hsp _]]]]]]].
  pose proof (setDifficulty_facts difficulty w) as H. cbv zeta in H.
  pose proof (schedule_cleared w Hsched) as Hclear.
  assert (Hspeed :
    (if String.eqb difficulty "easy" then 200
     else if String.eqb difficulty "medium" then 150
     else if String.eqb difficulty "hard" then 100
     else gameSpeed (this w)) =
    (if String.eqb difficulty "easy" then 200
     else if String.eqb difficulty "medium" then 150 else 100)).
  { unfold known_level in Hknown.
    destruct (String.eqb difficulty "easy"); [reflexivity|].
    destruct (String.eqb difficulty "medium"); [reflexivity|].
    destruct (String.eqb difficulty "hard"); [reflexivity|discriminate]. }
  rewrite Hspeed in H.
  split; [|split; [|split]].
  - destruct (isGameRunning (this w) && negb (isPaused (this w)));
      destruct H as [-> _]; reflexivity.
  - intros Hrun. apply lifecycle_Running in Hrun. destruct Hrun as [Hr Hp].
    rewrite Hr, Hp in H. cbn [andb negb] in H. destruct H as [-> ->].
    rewrite Hclear. split; reflexivity.
  - intros Hnot. apply lifecycle_not_Running in Hnot.
    rewrite Hnot in H. destruct H as [_ ->].
    unfold schedule_ok in Hsched. rewrite Hnot in Hsched. exact Hsched.
  - exact Hsp.
Qed.

(** ** The stored high score *)

(** X6. A stored high score survives the engine: the text [gameOver] has
    written for a new high score below 2^53 reads back as that number, so
    an engine constructed later over the store it left starts with the
    high score the old engine ended with. *)
Theorem highScore_survives (w w' : World) :
  gameOver w = Done w' ->
  record_broken w = true ->
  Z.abs (score (this w)) < 2 ^ 53 ->
  highScore (this w') = Num (score (this w)) /\
  storedHighScore (page w')
    = Some (Number_toString (Num (score (this w)))) /\
  parseInt (Number_toString (Num (score (this w)))) = Num (score (this w)) /\
  forall (fuel : nat) (b' : Browser) (w2 : World),
    localStorage b' = StorageItems (storedHighScore (page w')) ->
    constructor fuel b' = Done w2 ->
    highScore (this w2) = highScore (this w').
Proof.
  intros Hrun Hrb Hsmall.
  pose proof (parseInt_Number_toString _ Hsmall) as Hread.
  assert (Hq : setItemThrows (page w) = false).
  { rewrite gameOver_eq, Hrb in Hrun.
    destruct (setItemThrows (page w)); [discriminate | reflexivity]. }
  destruct (gameOver_record w Hrb Hq) as [w1 [H0 [H1 [H2 _]]]].
  assert (w1 = w') by congruence. subst w1.
  split; [exact H1|]. split; [exact H2|]. split; [exact Hread|].
  intros fuel b' w2 Hstore Hnew.
  pose proof (constructor_outcome fuel b') as H. rewrite Hnew in H.
  destruct H as [item [k [Hitem [_ ->]]]].
  assert (item = storedHighScore (page w')) by congruence. subst item.
  rewrite H1.
  transitivity (or_zero (parseInt (item_toString (storedHighScore (page w'))))).
  - unfold initAudio. destruct (AudioContext_supported b'); reflexivity.
  - rewrite H2. cbn [item_toString]. rewrite Hread. reflexivity.
Qed.

Lemma Number_gtb_irrefl (v : JsNumber) : Number_gtb v v = false.
Proof.
  destruct v as [|z|[|]]; cbn; try reflexivity.
  rewrite Z.gtb_ltb. apply Z.ltb_irrefl.
Qed.

Lemma Number_gtb_asym (a v : JsNumber) :
  Number_gtb a v = true -> Number_gtb v a = false.
Proof.
  destruct a as [|x|[|]], v as [|y|[|]]; cbn; try congruence.
  rewrite !Z.gtb_ltb. intros H. apply Z.ltb_lt in H. apply Z.ltb_ge. lia.
Qed.

(** The high score after [gameOver], however it ended. *)
Lemma gameOver_highScore (w w' : World) :
  left_by (gameOver w) w' ->
  highScore (this w') =
    (if record_broken w then Num (score (this w)) else highScore (this w)) /\
  Number_gtb (highScore (this w)) (highScore (this w')) = false /\
  forall h, highScore (this w) = Num h ->
            highScore (this w') = Num (Z.max (score (this w)) h).
Proof.
  intros Hleft. rewrite (gameOver_left_this w w' Hleft).
  cbn [highScore set_highScore]. split; [reflexivity|]. split.
  - destruct (record_broken w) eqn:Hrb.
    + apply Number_gtb_asym. exact Hrb.
    + apply Number_gtb_irrefl.
  - intros h Hh. unfold record_broken. rewrite Hh. cbn [Number_gtb].
    destruct (Z.gtb_spec (score (this w)) h); f_equal; lia.
Qed.

(** X7. The high score never decreases: no command and no tick lowers it,
    whether it returns or throws, and after [gameOver], however it ended,
    it is the larger of the final score and the high score before. *)
Theorem highScore_never_decreases :
  (forall (fuel : nat) (c : Command) (w w' : World),
      left_by (run fuel c w) w' ->
      Number_gtb (highScore (this w)) (highScore (this w')) = false /\
      forall h, highScore (this w) = Num h ->
        exists h', highScore (this w') = Num h' /\ h <= h') /\
  (forall w : World,
      (exists w', left_by (gameOver w) w') /\
      forall w' : World, left_by (gameOver w) w' ->
        highScore (this w') =
          (if record_broken w then Num (score (this w))
           else highScore (this w)) /\
        forall h, highScore (this w) = Num h ->
          highScore (this w') = Num (Z.max (score (this w)) h)).
Proof.
  split.
  - intros fuel c w w' Hleft.
    destruct (run_store_left fuel c w w' Hleft) as [[_ [_ Hover]] | [-> _]].
    + destruct (gameOver_highScore _ _ Hover) as [_ [Hgt Hmax]].
      split; [exact Hgt|]. intros h Hh.
      exists (Z.max (score (this w)) h). split; [|lia].
      exact (Hmax h Hh).
    + split; [apply Number_gtb_irrefl|].
      intros h Hh. exists h. split; [exact Hh | lia].
  - intros w. split; [apply gameOver_leaves|]. intros w' Hleft.
    destruct (gameOver_highScore _ _ Hleft) as [H1 [_ H2]]. auto.
Qed.

(** ** Sound *)

Lemma playSound_sounds (type : string) (w : World) :
  sounds (page (playSound type w)) =
  sounds (page w) ++
  (if audible w && (String.eqb type "eat" || String.eqb type "gameover"
                    || String.eqb type "start")
   then [type] else []).
Proof.
  unfold playSound, audible.
  destruct (soundEnabled (this w)), (audioContext (this w)); cbn;
    try (rewrite app_nil_r; reflexivity).
  destruct (String.eqb type "eat" || String.eqb type "gameover"
            || String.eqb type "start"); cbn;
    [reflexivity | rewrite app_nil_r; reflexivity].
Qed.




(** ** Pause and resume *)

(** X9. Pausing and resuming brings the game back as it was: for a game
    running with its one timer armed, [pauseGame] stops the schedule and
    leaves it Paused; [resumeGame] after it returns to Running with every
    field of the engine as before the pause except the handle in
    [gameLoop], with one new timer armed at [gameSpeed], the overlay hidden
    and the store untouched. [resumeGame] changes nothing unless the game
    is Paused. *)
Theorem pause_then_resume (w : World) :
  (lifecycle w = Running -> schedule_ok w ->
   lifecycle (pauseGame w) = Paused /\
   intervals (page (pauseGame w)) = [] /\
   lifecycle (resumeGame (pauseGame w)) = Running /\
   this (resumeGame (pauseGame w))
     = set_gameLoop (Some (nextHandle (page w))) (this w) /\
   intervals (page (resumeGame (pauseGame w)))
     = [(nextHandle (page w), gameSpeed (this w))] /\
   overlayHidden (overlay (page (resumeGame (pauseGame w)))) = true /\
   storedHighScore (page (resumeGame (pauseGame w)))
     = storedHighScore (page w) /\
   setItemLog (page (resumeGame (pauseGame w))) = setItemLog (page w)) /\
  (lifecycle w <> Paused -> resumeGame w = w).
Proof.
  split.
  - intros Hrun Hsched.
    apply lifecycle_Running in Hrun. destruct Hrun as [Hr Hp].
    unfold schedule_ok in Hsched. rewrite Hr, Hp in Hsched.
    destruct Hsched as [h [Hloop Hiv]].
    open_world w. cbn in Hr, Hp, Hloop, Hiv. subst.
    unfold lifecycle, pauseGame, resumeGame. cbn.
    rewrite Nat.eqb_refl. cbn. repeat split.
  - intros Hnot. apply resumeGame_noop.
    destruct (isGameRunning (this w)) eqn:Hr; [|auto].
    destruct (isPaused (this w)) eqn:Hp; [|auto].
    exfalso. apply Hnot. unfold lifecycle. rewrite Hr, Hp. reflexivity.
Qed.

(** ** Start and restart *)

Lemma fresh_game (w0 : World) (k : nat) :
  intervals (page w0) = [] ->
  ~ In (draw (reset_board w0) k) three_cells ->
  let w' := launch (fed (reset_board w0) k) in
  lifecycle w' = Running /\
  snake (this w') = three_cells /\
  score (this w') = 0 /\
  direction (this w') = mkPoint 1 0 /\
  nextDirection (this w') = mkPoint 1 0 /\
  food_off_snake w' /\
  gameLoop (this w') = Some (nextHandle (page w0)) /\
  intervals (page w') = [(nextHandle (page w0), gameSpeed (this w0))] /\
  gameSpeed (this w') = gameSpeed (this w0) /\
  highScore (this w') = highScore (this w0) /\
  storedHighScore (page w') = storedHighScore (page w0) /\
  setItemLog (page w') = setItemLog (page w0).
Proof.
  intros Hiv Hfree w'. unfold w'.
  destruct (launch_facts (fed (reset_board w0) k))
    as [Hl [Hli [_ [Hls [Hll _]]]]].
  destruct (fed_facts (reset_board w0) k) as [Hf [Hfi [Hfn [Hfs [Hfl _]]]]].
  unfold lifecycle, food_off_snake.
  rewrite Hl, Hli, Hls, Hll, Hf, Hfi, Hfn, Hfs, Hfl.
  change (page (reset_board w0)) with (page w0). rewrite Hiv. cbn.
  repeat split.
  exists (draw (reset_board w0) k). split; [reflexivity | exact Hfree].
Qed.

Lemma draw_stopGame (w : World) (k : nat) :
  draw (reset_board (stopGame w)) k = draw w k.
Proof. open_world w. destruct gl; reflexivity. Qed.

(** X10. A restart always gives a fresh running game: from any world the
    engine can be in, [restartGame], and [startGame] when the game is not
    running, end (when they return) in Running with the three-cell snake
    heading right, score 0, Food off the snake, exactly one timer armed at
    [gameSpeed], and the high score, its store and the interval as they
    were. They return as soon as a draw within the fuel misses the three
    cells. [startGame] on a game that is running or paused changes
    nothing. *)
Theorem restart_gives_fresh_game (b : Browser) (w : World) :
  reachable b w ->
  (forall (fuel : nat) (c : Command) (w' : World),
      c = Restart \/ (c = Start /\ isGameRunning (this w) = false) ->
      run fuel c w = Done w' ->
      lifecycle w' = Running /\
      snake (this w') = three_cells /\
      score (this w') = 0 /\
      direction (this w') = mkPoint 1 0 /\
      nextDirection (this w') = mkPoint 1 0 /\
      food_off_snake w' /\
      (exists h, gameLoop (this w') = Some h /\
                 intervals (page w') = [(h, gameSpeed (this w))]) /\
      gameSpeed (this w') = gameSpeed (this w) /\
      highScore (this w') = highScore (this w) /\
      storedHighScore (page w') = storedHighScore (page w) /\
      setItemLog (page w') = setItemLog (page w)) /\
  (forall (fuel : nat) (c : Command) (k : nat),
      c = Restart \/ (c = Start /\ isGameRunning (this w) = false) ->
      (k < fuel)%nat -> ~ In (draw w k) three_cells ->
      exists w', run fuel c w = Done w') /\
  (forall fuel : nat,
      isGameRunning (this w) = true -> startGame fuel w = Done w).
Proof.
  intros Hreach.
  pose proof (reachable_invariant b w Hreach) as Hinv.
  assert (Hfrom : forall c,
            c = Restart \/ (c = Start /\ isGameRunning (this w) = false) ->
            exists w0,
              (forall fuel, run fuel c w = startGame fuel w0) /\
              isGameRunning (this w0) = false /\
              intervals (page w0) = [] /\
              (forall k, draw (reset_board w0) k = draw w k) /\
              gameSpeed (this w0) = gameSpeed (this w) /\
              highScore (this w0) = highScore (this w) /\
              storedHighScore (page w0) = storedHighScore (page w) /\
              setItemLog (page w0) = setItemLog (page w)).
  { intros c [-> | [-> Hr]].
    - exists (stopGame w).
      destruct (invariant_stopGame w Hinv) as [_ [Hiv Hr]].
      destruct (stopGame_facts w) as [Ht [_ [Hs Hl]]].
      split; [reflexivity|]. split; [exact Hr|]. split; [exact Hiv|].
      split; [apply draw_stopGame|]. rewrite Ht, Hs, Hl. repeat split.
    - exists w. split; [reflexivity|]. split; [exact Hr|].
      destruct Hinv as [_ [_ [Hsched _]]]. unfold schedule_ok in Hsched.
      rewrite Hr in Hsched. repeat split. exact Hsched. }
  split; [|split].
  - intros fuel c w' Hc Hrun.
    destruct (Hfrom c Hc) as [w0 [Heq [Hr [Hiv [Hd [Hsp [Hh [Hs Hl]]]]]]]].
    rewrite Heq in Hrun.
    pose proof (startGame_outcome fuel w0) as H. rewrite Hrun in H.
    destruct H as [[E _] | [_ [k [_ [Hfree ->]]]]]; [congruence|].
    destruct (fresh_game w0 k Hiv Hfree)
      as [H1 [H2 [H3 [H4 [H5 [H6 [H7 [H8 [H9 [H10 [H11 H12]]]]]]]]]]].
    rewrite H9, H10, H11, H12, Hsp, Hh, Hs, Hl.
    repeat split; auto.
    exists (nextHandle (page w0)). rewrite <- Hsp. auto.
  - intros fuel c k Hc Hk Hfree.
    destruct (Hfrom c Hc) as [w0 [Heq [Hr [_ [Hd _]]]]].
    rewrite Heq, startGame_eq, Hr.
    destruct (generateFood_returns fuel (reset_board w0) k Hk) as [w1 ->].
    + apply occupied_false. rewrite Hd. exact Hfree.
    + eexists; reflexivity.
  - intros fuel Hr. rewrite startGame_eq, Hr. reflexivity.
Qed.

(** ** A request that is no direction *)

(** X11. [changeDirection] does not ask for a unit step: the request (0,0)
    passes the guard in every state, and the tick that commits it stops the
    game without moving, because the candidate head is the head itself.
    That tick returns with the engine in GameOver, unless the score is a
    new high score and the store refuses the write. *)
Theorem zero_request_ends_game (fuel : nat) (w : World) (s0 : Point)
    (rest : list Point) :
  snake (this w) = s0 :: rest ->
  nextDirection (this (changeDirection (mkPoint 0 0) w)) = mkPoint 0 0 /\
  exists w', left_by (update fuel (changeDirection (mkPoint 0 0) w)) w' /\
    isGameRunning (this w') = false /\
    snake (this w') = snake (this w) /\
    score (this w') = score (this w) /\
    (update fuel (changeDirection (mkPoint 0 0) w) = Done w' ->
     lifecycle w' = GameOver) /\
    (record_broken w = false \/ setItemThrows (page w) = false ->
     update fuel (changeDirection (mkPoint 0 0) w) = Done w').
Proof.
  intros Hsnake.
  assert (Hcd : changeDirection (mkPoint 0 0) w
                = on_this (set_nextDirection (mkPoint 0 0)) w).
  { rewrite changeDirection_eq. reflexivity. }
  rewrite Hcd. split; [reflexivity|].
  set (w0 := on_this (set_nextDirection (mkPoint 0 0)) w).
  rewrite (update_eq fuel w0 s0 rest Hsnake).
  assert (Hhit : checkCollision w0 (candidate w0 s0) = true).
  { apply checkCollision_true. right.
    unfold candidate, w0. cbn. rewrite !Z.add_0_r, Hsnake.
    left. destruct s0; reflexivity. }
  rewrite Hhit.
  destruct (gameOver_leaves (commitDirection w0)) as [w' Hleft].
  exists w'. split; [exact Hleft|].
  rewrite (gameOver_left_this _ _ Hleft).
  split; [reflexivity|]. split; [reflexivity|]. split; [reflexivity|].
  destruct (gameOver_left _ _ Hleft)
    as [[Hdone [Hw' _]] | [Hraise [_ [Hrb Hq]]]].
  - split; [|intros _; exact Hdone].
    intros _. rewrite Hw'. apply completed_lifecycle.
  - split; [rewrite Hraise; discriminate|].
    change (record_broken (commitDirection w0)) with (record_broken w) in Hrb.
    change (setItemThrows (page (commitDirection w0)))
      with (setItemThrows (page w)) in Hq.
    intros [H | H]; congruence.
Qed.

(** ** From the listeners to the commands *)

Lemma cardinal_cases (d : Point) :
  cardinal d = true <->
  d = mkPoint 1 0 \/ d = mkPoint (-1) 0 \/ d = mkPoint 0 1
  \/ d = mkPoint 0 (-1).
Proof.
  unfold cardinal, Point_eqb. rewrite !orb_true_iff, !same_cell_iff. tauto.
Qed.

(** Every event is a command, a tick of an armed timer, or nothing; the
    direction requests of the listeners are unit steps. *)
Lemma dispatch_run (fuel : nat) (e : Event) (w w' : World) :
  dispatch fuel e w = Done w' ->
  w' = w \/
  exists c, run fuel c w = Done w' /\
    (forall d, c = ChangeDirection d -> cardinal d = true) /\
    (c = Tick -> exists h, e = IntervalFires h /\ armed h w = true).
Proof.
  assert (Hcmd : forall c, (forall d, c <> ChangeDirection d) -> c <> Tick ->
            run fuel c w = Done w' ->
            w' = w \/
            exists c, run fuel c w = Done w' /\
              (forall d, c = ChangeDirection d -> cardinal d = true) /\
              (c = Tick -> exists h, e = IntervalFires h /\ armed h w = true)).
  { intros c Hd Ht Hrun. right. exists c. split; [exact Hrun|].
    split; [intros d E; destruct (Hd d E) | intros E; destruct (Ht E)]. }
  assert (Hturn : forall d, cardinal d = true ->
            Done (changeDirection d w) = Done w' ->
            w' = w \/
            exists c, run fuel c w = Done w' /\
              (forall d, c = ChangeDirection d -> cardinal d = true) /\
              (c = Tick -> exists h, e = IntervalFires h /\ armed h w = true)).
  { intros d Hd Hrun. right. exists (ChangeDirection d).
    split; [exact Hrun|]. split; [|discriminate].
    intros d' [= <-]. exact Hd. }
  destruct e as [key|id|value|checked|handle]; cbn [dispatch].
  - unfold onKeyDown.
    destruct (negb (isGameRunning (this w)) || isPaused (this w)).
    + destruct (String.eqb key " " || String.eqb key "Enter");
        [|intros [= <-]; auto].
      destruct (isPaused (this w)).
      * apply (Hcmd Resume); discriminate.
      * destruct (negb (isGameRunning (this w)));
          [apply (Hcmd Start); discriminate | intros [= <-]; auto].
    + destruct (key_in key _); [apply Hturn; reflexivity|].
      destruct (key_in key _); [apply Hturn; reflexivity|].
      destruct (key_in key _); [apply Hturn; reflexivity|].
      destruct (key_in key _); [apply Hturn; reflexivity|].
      destruct (String.eqb key " ");
        [apply (Hcmd Pause); discriminate | intros [= <-]; auto].
  - unfold onClick.
    destruct (String.eqb id "start-btn");
      [apply (Hcmd Start); discriminate|].
    destruct (String.eqb id "pause-btn").
    { destruct (isPaused (this w));
        [apply (Hcmd Resume) | apply (Hcmd Pause)]; discriminate. }
    destruct (String.eqb id "restart-btn");
      [apply (Hcmd Restart); discriminate|].
    destruct (String.eqb id "overlay-button").
    { destruct (isPaused (this w));
        [apply (Hcmd Resume) | apply (Hcmd Restart)]; discriminate. }
    destruct (String.eqb id "up-btn"); [apply Hturn; reflexivity|].
    destruct (String.eqb id "down-btn"); [apply Hturn; reflexivity|].
    destruct (String.eqb id "left-btn"); [apply Hturn; reflexivity|].
    destruct (String.eqb id "right-btn"); [apply Hturn; reflexivity|].
    intros [= <-]; auto.
  - apply (Hcmd (SetDifficulty value)); discriminate.
  - apply (Hcmd (SetSoundEnabled checked)); discriminate.
  - destruct (armed handle w) eqn:E; [|intros [= <-]; auto].
    intros Hrun. right. exists Tick. split; [exact Hrun|].
    split; [discriminate|]. intros _. exists handle. auto.
Qed.

Lemma startGame_returns_or_spins (fuel : nat) (w : World) (e : string)
    (w' : World) :
  startGame fuel w <> Raises e w'.
Proof.
  intros H. pose proof (startGame_outcome fuel w) as Hout.
  rewrite H in Hout. exact Hout.
Qed.

(** Only the callback of an armed timer throws. *)
Lemma dispatch_raises (fuel : nat) (e : Event) (w : World) (err : string)
    (w' : World) :
  dispatch fuel e w = Raises err w' ->
  exists h, e = IntervalFires h /\ armed h w = true /\
            run fuel Tick w = Raises err w'.
Proof.
  destruct e as [key|id|value|checked|handle]; cbn [dispatch];
    try discriminate.
  - unfold onKeyDown. intros H. exfalso. revert H.
    repeat match goal with
           | |- context [if ?c then _ else _] => destruct c
           end;
      try discriminate; apply startGame_returns_or_spins.
  - unfold onClick, restartGame. intros H. exfalso. revert H.
    repeat match goal with
           | |- context [if ?c then _ else _] => destruct c
           end;
      try discriminate; apply startGame_returns_or_spins.
  - destruct (armed handle w) eqn:E; [|discriminate].
    intros Hrun. exists handle. auto.
Qed.

Lemma events_reachable (b : Browser) (w : World) :
  reachable_by_events b w -> reachable b w.
Proof.
  induction 1 as [fuel w Hnew | fuel e w w' _ IH Hstep
                 | fuel e w err w' _ IH Hstep | w v _ IH].
  - exact (reach_new b fuel w Hnew).
  - destruct (dispatch_run fuel e w w' Hstep) as [-> | [c [Hrun _]]].
    + exact IH.
    + exact (reach_run b fuel c w w' IH Hrun).
  - destruct (dispatch_raises fuel e w err w' Hstep) as [h [_ [_ Hrun]]].
    exact (reach_raise b fuel Tick w err w' IH Hrun).
  - exact (reach_store b w v IH).
Qed.

(** ** Steering *)

Lemma chain_removelast (l : list Point) : chain l -> chain (removelast l).
Proof.
  induction l as [|a l IH]; [auto|].
  destruct l as [|b l]; [auto|].
  destruct l as [|c l]; [cbn; auto|].
  intros [Hab Hrest].
  change (removelast (a :: b :: c :: l))
    with (a :: b :: removelast (c :: l)).
  split; [exact Hab|]. apply IH. exact Hrest.
Qed.

Lemma accepted_not_opposite (current d : Point) :
  cardinal d = true -> accepted current d = true -> ~ opposite d current.
Proof.
  intros Hd Hacc [Hx Hy].
  apply accepted_iff in Hacc. destruct Hacc as [Ax Ay].
  apply cardinal_cases in Hd.
  destruct Hd as [-> | [-> | [-> | ->]]]; cbn in *;
    first [apply Ax; split; lia | apply Ay; split; lia].
Qed.

Lemma cardinal_not_self_opposite (d : Point) :
  cardinal d = true -> ~ opposite d d.
Proof.
  intros Hd [Hx Hy]. apply cardinal_cases in Hd.
  destruct Hd as [-> | [-> | [-> | ->]]]; cbn in *; lia.
Qed.

Lemma cardinal_step_adjacent (s0 d : Point) :
  cardinal d = true ->
  adjacent (mkPoint (px s0 + px d) (py s0 + py d)) s0.
Proof.
  intros Hd. apply cardinal_cases in Hd. unfold adjacent.
  destruct Hd as [-> | [-> | [-> | ->]]]; cbn; lia.
Qed.

Lemma steering_ok_constructor (fuel : nat) (b : Browser) (w : World) :
  constructor fuel b = Done w -> steering_ok w.
Proof.
  intros Hnew.
  pose proof (constructor_outcome fuel b) as H. rewrite Hnew in H.
  destruct H as [item [k [_ [_ ->]]]].
  unfold steering_ok, neck_behind, initAudio.
  destruct (AudioContext_supported b); cbn;
    repeat split; try discriminate; try (unfold adjacent; cbn; lia);
    intros [H _]; cbn in H; lia.
Qed.

Lemma steering_ok_run (fuel : nat) (c : Command) (w w' : World) :
  (forall d, c = ChangeDirection d -> cardinal d = true) ->
  steering_ok w -> run fuel c w = Done w' -> steering_ok w'.
Proof.
  intros Hcard [Hd [Hn [Hopp [Hchain Hneck]]]] Hrun.
  destruct (run_board fuel c w w' Hrun) as [_ Hcases].
  unfold steering_ok, neck_behind in *.
  destruct Hcases as [[Hs [_ [_ [Hdir [Hrun' Hnext]]]]]
                     | [[_ [Hs [_ [Hdir [Hnext [_ _]]]]]]
                     | [_ [s0 [rest [Hsnake [Hdir [Hnext Htick]]]]]]]].
  - rewrite Hs, Hdir.
    split; [exact Hd|].
    destruct Hnext as [-> | [d [-> [Hacc ->]]]].
    + split; [exact Hn|]. split; [exact Hopp|]. split; [exact Hchain|].
      intros Hr. apply Hneck. apply Hrun'. exact Hr.
    + pose proof (Hcard d eq_refl) as Hcd.
      split; [exact Hcd|].
      split; [apply accepted_not_opposite; assumption|].
      split; [exact Hchain|].
      intros Hr. apply Hneck. apply Hrun'. exact Hr.
  - rewrite Hs, Hdir, Hnext. cbn.
    repeat split; try (unfold adjacent; cbn; lia).
    intros [H _]; cbn in H; lia.
  - rewrite Hdir, Hnext.
    split; [exact Hn|]. split; [exact Hn|].
    split; [apply cardinal_not_self_opposite; exact Hn|].
    destruct Htick as [[_ [Hs [_ [_ Hr]]]]
                      | [[_ [_ [Hs _]]] | [_ [_ [Hs _]]]]].
    + rewrite Hs. split; [exact Hchain|]. intros E. congruence.
    + rewrite Hs, Hsnake. unfold candidate. split.
      * split; [apply cardinal_step_adjacent; exact Hn|].
        rewrite <- Hsnake. exact Hchain.
      * intros _. cbn. destruct s0 as [x y]. cbn. f_equal; lia.
    + rewrite Hs, Hsnake. unfold candidate.
      destruct rest as [|r rest].
      * cbn. auto.
      * change (removelast (s0 :: r :: rest))
          with (s0 :: removelast (r :: rest)).
        split.
        -- split; [apply cardinal_step_adjacent; exact Hn|].
           change (s0 :: removelast (r :: rest))
             with (removelast (s0 :: r :: rest)).
           apply chain_removelast. rewrite <- Hsnake. exact Hchain.
        -- intros _. cbn. destruct s0 as [x y]. cbn. f_equal; lia.
Qed.

Lemma steering_ok_raise (fuel : nat) (c : Command) (w : World) (e : string)
    (w' : World) :
  steering_ok w -> run fuel c w = Raises e w' -> steering_ok w'.
Proof.
  intros [Hd [Hn [Hopp [Hchain Hneck]]]] Hrun.
  unfold steering_ok, neck_behind.
  destruct (run_raises fuel c w e w' Hrun)
    as [_ [[Hnil [_ ->]] | [s0 [rest [_ [_ [_ [_ [_ ->]]]]]]]]].
  - cbn. rewrite Hnil.
    split; [exact Hn|]. split; [exact Hn|].
    split; [apply cardinal_not_self_opposite; exact Hn|].
    split; [exact I | intros _; exact I].
  - rewrite stopped_this. cbn.
    split; [exact Hn|]. split; [exact Hn|].
    split; [apply cardinal_not_self_opposite; exact Hn|].
    split; [exact Hchain | discriminate].
Qed.

Lemma steering_ok_store (v : bool) (w : World) :
  steering_ok w -> steering_ok (on_page (set_setItemThrows v) w).
Proof. intros H. exact H. Qed.

Lemma events_steering_ok (b : Browser) (w : World) :
  reachable_by_events b w -> steering_ok w.
Proof.
  induction 1 as [fuel w Hnew | fuel e w w' _ IH Hstep
                 | fuel e w err w' _ IH Hstep | w v _ IH].
  - exact (steering_ok_constructor fuel b w Hnew).
  - destruct (dispatch_run fuel e w w' Hstep) as [-> | [c [Hrun [Hcard _]]]].
    + exact IH.
    + exact (steering_ok_run fuel c w w' Hcard IH Hrun).
  - destruct (dispatch_raises fuel e w err w' Hstep) as [h [_ [_ Hrun]]].
    exact (steering_ok_raise fuel Tick w err w' IH Hrun).
  - exact (steering_ok_store v w IH).
Qed.

(** X12. The snake never turns back on itself. In every world the page can
    bring the engine to, both direction slots hold unit steps along an axis,
    the direction a tick commits is never the reverse of the direction
    before it, and in a running game the candidate head is never the cell
    of the second segment. *)
Theorem snake_never_reverses (b : Browser) (w : World) :
  reachable_by_events b w ->
  cardinal (direction (this w)) = true /\
  cardinal (nextDirection (this w)) = true /\
  (forall (fuel : nat) (w' : World),
      update fuel w = Done w' ->
      ~ opposite (direction (this w')) (direction (this w))) /\
  (isGameRunning (this w) = true ->
   forall h n rest, snake (this w) = h :: n :: rest -> candidate w h <> n).
Proof.
  intros Hev.
  destruct (events_steering_ok b w Hev) as [Hd [Hn [Hopp [_ Hneck]]]].
  split; [exact Hd|]. split; [exact Hn|]. split.
  - intros fuel w' Hrun. rewrite (update_direction fuel w w' Hrun).
    exact Hopp.
  - intros Hr h n rest Hsnake Hc.
    specialize (Hneck Hr). unfold neck_behind in Hneck.
    rewrite Hsnake in Hneck. apply Hopp.
    unfold candidate in Hc. rewrite Hneck in Hc.
    injection Hc as Hx Hy. split; lia.
Qed.

(** X13. The body is connected: in every world the page can bring the
    engine to, each segment of the snake shares an edge with the next. *)
Theorem snake_is_connected (b : Browser) (w : World) :
  reachable_by_events b w -> chain (snake (this w)).
Proof.
  intros Hev.
  destruct (events_steering_ok b w Hev) as [_ [_ [_ [Hchain _]]]].
  exact Hchain.
Qed.

(** ** The keyboard *)

(** X14. What the keyboard does depends on the lifecycle. While the game is
    paused or not running every key but Space and Enter is ignored, the
    direction keys included, whereas the on-screen direction buttons still
    reach [changeDirection]. Space pauses a running game; Space or Enter
    resumes a paused one and starts a stopped one; Enter does nothing
    while the game runs. *)
Theorem keyboard_by_lifecycle (fuel : nat) (w : World) :
  (forall key : string,
      lifecycle w <> Running ->
      String.eqb key " " = false -> String.eqb key "Enter" = false ->
      onKeyDown fuel key w = Done w) /\
  (onClick fuel "up-btn" w = Done (changeDirection (mkPoint 0 (-1)) w) /\
   onClick fuel "down-btn" w = Done (changeDirection (mkPoint 0 1) w) /\
   onClick fuel "left-btn" w = Done (changeDirection (mkPoint (-1) 0) w) /\
   onClick fuel "right-btn" w = Done (changeDirection (mkPoint 1 0) w)) /\
  (lifecycle w = Running ->
   onKeyDown fuel " " w = Done (pauseGame w) /\
   lifecycle (pauseGame w) = Paused /\
   onKeyDown fuel "Enter" w = Done w) /\
  (lifecycle w = Paused ->
   onKeyDown fuel " " w = Done (resumeGame w) /\
   onKeyDown fuel "Enter" w = Done (resumeGame w) /\
   lifecycle (resumeGame w) = Running) /\
  (isGameRunning (this w) = false -> isPaused (this w) = false ->
   onKeyDown fuel " " w = startGame fuel w /\
   onKeyDown fuel "Enter" w = startGame fuel w).
Proof.
  split; [|split; [|split; [|split]]].
  - intros key Hnot Hspace Henter.
    apply lifecycle_not_Running in Hnot.
    unfold onKeyDown.
    replace (negb (isGameRunning (this w)) || isPaused (this w)) with true
      by (destruct (isGameRunning (this w)), (isPaused (this w));
          cbn in *; congruence).
    rewrite Hspace, Henter. reflexivity.
  - repeat split.
  - intros Hrun. apply lifecycle_Running in Hrun. destruct Hrun as [Hr Hp].
    unfold onKeyDown. rewrite Hr, Hp. cbn. split; [reflexivity|].
    split; [|reflexivity].
    destruct (pauseGame_facts w Hr Hp) as [Ht _].
    unfold lifecycle. rewrite Ht. cbn. rewrite Hr. reflexivity.
  - intros Hpa.
    assert (Hflags : isGameRunning (this w) = true /\ isPaused (this w) = true).
    { unfold lifecycle in Hpa.
      destruct (isGameRunning (this w)), (isPaused (this w));
        try discriminate; auto;
        destruct (negb _ && _); discriminate. }
    destruct Hflags as [Hr Hp].
    unfold onKeyDown. rewrite Hr, Hp. cbn. split; [reflexivity|].
    split; [reflexivity|].
    destruct (resumeGame_facts w Hr Hp) as [Ht _].
    unfold lifecycle. rewrite Ht. cbn. rewrite Hr. reflexivity.
  - intros Hr Hp. unfold onKeyDown. rewrite Hr, Hp. cbn. auto.
Qed.

(** ** The lifecycle as a state machine *)

Lemma lifecycle_flags_overlay (w w' : World) :
  isGameRunning (this w') = isGameRunning (this w) ->
  isPaused (this w') = isPaused (this w) ->
  overlay (page w') = overlay (page w) ->
  lifecycle w' = lifecycle w.
Proof. unfold lifecycle. intros -> -> ->. reflexivity. Qed.

(** What a command or a tick does to the lifecycle. *)
Lemma run_lifecycle (fuel : nat) (c : Command) (w w' : World) :
  run fuel c w = Done w' ->
  lifecycle w' = lifecycle w \/
  (lifecycle w' = Running /\
   (c = Start \/ c = Restart \/ (c = Resume /\ lifecycle w = Paused))) \/
  (lifecycle w' = Paused /\ c = Pause /\ lifecycle w = Running) \/
  (lifecycle w' = GameOver /\ c = Tick).
Proof.
  assert (Hstart : forall w0, startGame fuel w0 = Done w' ->
            w' = w0 \/ lifecycle w' = Running).
  { intros w0 Hrun. pose proof (startGame_outcome fuel w0) as H.
    rewrite Hrun in H.
    destruct H as [[_ ->] | [_ [k [_ [_ ->]]]]]; [auto|]. right.
    destruct (launch_facts (fed (reset_board w0) k)) as [Hl _].
    unfold lifecycle. rewrite Hl. reflexivity. }
  destruct c as [ | | | |d|l|e| ]; cbn [run].
  - intros Hrun. destruct (Hstart w Hrun) as [-> | H]; auto 8.
  - intros [= <-].
    destruct (isGameRunning (this w)) eqn:Hr;
      [destruct (isPaused (this w)) eqn:Hp|];
      try (rewrite pauseGame_noop by auto; auto).
    right; right; left.
    destruct (pauseGame_facts w Hr Hp) as [Ht _].
    split; [|split; [reflexivity|]].
    + unfold lifecycle. rewrite Ht. cbn. rewrite Hr. reflexivity.
    + apply lifecycle_Running. auto.
  - intros [= <-].
    destruct (isGameRunning (this w)) eqn:Hr;
      [destruct (isPaused (this w)) eqn:Hp|];
      try (rewrite resumeGame_noop by auto; auto).
    right; left.
    destruct (resumeGame_facts w Hr Hp) as [Ht _].
    split.
    + unfold lifecycle. rewrite Ht. cbn. rewrite Hr. reflexivity.
    + right; right. split; [reflexivity|].
      unfold lifecycle. rewrite Hr, Hp. reflexivity.
  - unfold restartGame. intros Hrun.
    destruct (Hstart (stopGame w) Hrun) as [-> | H]; [|auto 8].
    exfalso. pose proof (startGame_outcome fuel (stopGame w)) as H.
    rewrite Hrun in H. destruct (stopGame_facts w) as [Hstop _].
    destruct H as [[Hr _] | [_ [k [_ [_ E]]]]].
    + rewrite Hstop in Hr. discriminate.
    + assert (Hr : isGameRunning (this (stopGame w)) = true).
      { rewrite E at 1.
        destruct (launch_facts (fed (reset_board (stopGame w)) k)) as [-> _].
        reflexivity. }
      rewrite Hstop in Hr. discriminate.
  - intros [= <-]. left. rewrite changeDirection_eq.
    destruct (accepted (direction (this w)) d); reflexivity.
  - intros [= <-]. left.
    pose proof (setDifficulty_facts l w) as H. cbv zeta in H.
    destruct (isGameRunning (this w) && negb (isPaused (this w)));
      destruct H as [Ht Hp]; apply lifecycle_flags_overlay;
      rewrite ?Ht, ?Hp; reflexivity.
  - intros [= <-]. left. reflexivity.
  - intros Hrun. pose proof (update_outcome fuel w) as H. rewrite Hrun in H.
    destruct H as [s0 [rest [_ [[_ [_ ->]] | [[_ [_ [k [_ [_ ->]]]]]
                                            | [_ [_ ->]]]]]]].
    + right; right; right. split; [apply completed_lifecycle | reflexivity].
    + left.
      destruct (playSound_page "eat"
        (on_this (fun g => set_score (score g + 10) g)
           (on_this (fun g => set_snake (candidate w s0 :: snake g) g)
              (commitDirection w)))) as [log Hlog].
      destruct (fed_facts (playSound "eat"
        (on_this (fun g => set_score (score g + 10) g)
           (on_this (fun g => set_snake (candidate w s0 :: snake g) g)
              (commitDirection w)))) k) as [Ht [_ [_ [_ [_ Ho]]]]].
      apply lifecycle_flags_overlay; rewrite ?Ht, ?Ho, ?playSound_this,
        ?Hlog; reflexivity.
    + left. reflexivity.
Qed.

(** The overlay is hidden in every running game the engine can be in. *)
Lemma overlay_ok_run (fuel : nat) (c : Command) (w w' : World) :
  overlay_ok w -> run fuel c w = Done w' -> overlay_ok w'.
Proof.
  assert (Hstart : forall w0, overlay_ok w0 -> startGame fuel w0 = Done w' ->
            overlay_ok w').
  { intros w0 Hok Hrun. pose proof (startGame_outcome fuel w0) as H.
    rewrite Hrun in H.
    destruct H as [[_ ->] | [_ [k [_ [_ ->]]]]]; [exact Hok|].
    intros _ _.
    destruct (launch_facts (fed (reset_board w0) k))
      as [_ [_ [_ [_ [_ Hh]]]]].
    exact Hh. }
  intros Hok. unfold overlay_ok in *.
  destruct c as [ | | | |d|l|e| ]; cbn [run].
  - apply Hstart. exact Hok.
  - intros [= <-].
    destruct (isGameRunning (this w)) eqn:Hr;
      [destruct (isPaused (this w)) eqn:Hp|];
      try (rewrite pauseGame_noop by auto; rewrite ?Hr, ?Hp; exact Hok).
    destruct (pauseGame_facts w Hr Hp) as [-> _]. cbn. discriminate.
  - intros [= <-].
    destruct (isGameRunning (this w)) eqn:Hr;
      [destruct (isPaused (this w)) eqn:Hp|];
      try (rewrite resumeGame_noop by auto; rewrite ?Hr, ?Hp; exact Hok).
    intros _ _. clear Hok. unfold resumeGame. rewrite Hr, Hp.
    open_world w. reflexivity.
  - unfold restartGame. apply Hstart.
    destruct (stopGame_facts w) as [-> _]. cbn. discriminate.
  - intros [= <-]. rewrite changeDirection_eq.
    destruct (accepted (direction (this w)) d); exact Hok.
  - intros [= <-].
    pose proof (setDifficulty_facts l w) as H. cbv zeta in H.
    destruct (isGameRunning (this w) && negb (isPaused (this w)));
      destruct H as [-> ->]; exact Hok.
  - intros [= <-]. exact Hok.
  - intros Hrun. pose proof (update_outcome fuel w) as H. rewrite Hrun in H.
    destruct H as [s0 [rest [_ [[_ [_ ->]] | [[_ [_ [k [_ [_ ->]]]]]
                                            | [_ [_ ->]]]]]]].
    + rewrite completed_this, stopped_this. cbn. discriminate.
    + destruct (playSound_page "eat"
        (on_this (fun g => set_score (score g + 10) g)
           (on_this (fun g => set_snake (candidate w s0 :: snake g) g)
              (commitDirection w)))) as [log Hlog].
      destruct (fed_facts (playSound "eat"
        (on_this (fun g => set_score (score g + 10) g)
           (on_this (fun g => set_snake (candidate w s0 :: snake g) g)
              (commitDirection w)))) k) as [-> [_ [_ [_ [_ ->]]]]].
      rewrite playSound_this, Hlog. exact Hok.
    + exact Hok.
Qed.

Lemma reachable_overlay_ok (b : Browser) (w : World) :
  reachable b w -> overlay_ok w.
Proof.
  induction 1 as [fuel w Hnew | fuel c w w' _ IH Hrun
                 | fuel c w e w' _ IH Hrun | w v _ IH].
  - destruct (invariant_constructor fuel b w Hnew) as [_ [_ [Hsched _]]].
    pose proof (constructor_outcome fuel b) as H. rewrite Hnew in H.
    destruct H as [item [k [_ [_ ->]]]]. intros Hr. exfalso. revert Hr.
    unfold initAudio. destruct (AudioContext_supported b); discriminate.
  - exact (overlay_ok_run fuel c w w' IH Hrun).
  - destruct (run_raises fuel c w e w' Hrun)
      as [_ [[_ [_ ->]] | [s0 [rest [_ [_ [_ [_ [_ ->]]]]]]]]].
    + exact IH.
    + intros Hr. rewrite stopped_this in Hr. discriminate Hr.
  - exact IH.
Qed.

(** X15. The lifecycle is a four-state machine. Whatever the page delivers,
    an idle engine stays idle or starts running; a paused one stays paused
    or runs again; a finished one stays in GameOver or runs again; a running
    one keeps running, pauses, or is ended by a tick of the armed timer.
    That tick leaves it in GameOver when it returns; when it throws, which
    it does only for a new high score that the store refuses, it leaves the
    engine stopped behind the hidden overlay, which is Idle. *)
Theorem lifecycle_transitions (b : Browser) (fuel : nat) (e : Event)
    (w w' : World) :
  reachable_by_events b w ->
  left_by (dispatch fuel e w) w' ->
  match lifecycle w with
  | Idle => lifecycle w' = Idle \/ lifecycle w' = Running
  | Running =>
      lifecycle w' = Running \/ lifecycle w' = Paused \/
      (lifecycle w' = GameOver /\ (exists h, e = IntervalFires h) /\
       dispatch fuel e w = Done w') \/
      (lifecycle w' = Idle /\ (exists h, e = IntervalFires h) /\
       dispatch fuel e w = Raises "QuotaExceededError" w' /\
       record_broken w = true /\ setItemThrows (page w) = true)
  | Paused => lifecycle w' = Paused \/ lifecycle w' = Running
  | GameOver => lifecycle w' = GameOver \/ lifecycle w' = Running
  end.
Proof.
  intros Hev Hleft.
  pose proof (events_reachable b w Hev) as Hreach.
  pose proof (fun h => armed_while_running b w h Hreach) as Harmed.
  destruct (left_by_cases _ _ Hleft) as [Hstep | [err Hstep]].
  - destruct (dispatch_run fuel e w w' Hstep) as [-> | [c [Hrun [_ Htick]]]].
    + destruct (lifecycle w); auto.
    + destruct (run_lifecycle fuel c w w' Hrun)
        as [-> | [[-> _] | [[-> [_ Hw]] | [-> Hc]]]].
      * destruct (lifecycle w); auto.
      * destruct (lifecycle w); auto.
      * rewrite Hw. auto.
      * destruct (Htick Hc) as [h [He Hh]].
        destruct (Harmed h Hh) as [-> _]. right; right; left.
        split; [reflexivity|]. split; [exists h; exact He | exact Hstep].
  - destruct (dispatch_raises fuel e w err w' Hstep) as [h [He [Hh Hrun]]].
    destruct (Harmed h Hh) as [Hrunning _]. rewrite Hrunning.
    destruct (reachable_invariant b w Hreach) as [_ [_ [_ Hsnake]]].
    destruct (run_raises fuel Tick w err w' Hrun)
      as [_ [[Hnil _] | [s0 [rest [_ [_ [Hrb [Hq [Herr Hw']]]]]]]]];
      [contradiction|].
    right; right; right.
    split; [|split; [exists h; exact He|]].
    + apply lifecycle_Running in Hrunning. destruct Hrunning as [Hr Hp].
      pose proof (reachable_overlay_ok b w Hreach Hr Hp) as Hhidden.
      destruct (stopped_page (commitDirection w)) as [_ [Ho _]].
      unfold lifecycle. rewrite Hw', stopped_this, Ho. cbn.
      rewrite Hhidden. reflexivity.
    + rewrite Hstep, Herr. auto.
Qed.

(** X16. A game that is not running stands still. In a world the page can
    bring the engine to that is paused, idle or over, a timer callback
    changes nothing, and any other event either leaves the snake, Food,
    the score and the current direction as they are or starts a fresh
    running game. *)
Theorem stopped_game_stands_still (b : Browser) (fuel : nat) (e : Event)
    (w w' : World) :
  reachable_by_events b w ->
  lifecycle w <> Running ->
  dispatch fuel e w = Done w' ->
  (forall h, e = IntervalFires h -> w' = w) /\
  ((snake (this w') = snake (this w) /\ food (this w') = food (this w) /\
    score (this w') = score (this w) /\
    direction (this w') = direction (this w)) \/
   (lifecycle w' = Running /\ snake (this w') = three_cells /\
    score (this w') = 0)).
Proof.
  intros Hev Hnot Hstep.
  pose proof (events_reachable b w Hev) as Hreach.
  pose proof (fun h => armed_while_running b w h Hreach) as Harmed.
  split.
  - intros h ->. cbn [dispatch] in Hstep.
    destruct (armed h w) eqn:E; [|congruence].
    destruct (Harmed h E) as [Hrun _]. contradiction.
  - destruct (dispatch_run fuel e w w' Hstep) as [-> | [c [Hrun [_ Htick]]]];
      [left; auto|].
    destruct (run_board fuel c w w' Hrun) as [_ Hcases].
    destruct Hcases as [[Hs [Hf [Hsc [Hd _]]]]
                       | [[_ [Hs [Hsc [_ [_ [Hr [Hp _]]]]]]]
                       | [Hc _]]].
    + left. auto.
    + right. split; [|auto]. apply lifecycle_Running. auto.
    + destruct (Htick Hc) as [h [_ Hh]].
      destruct (Harmed h Hh) as [Hrunning _]. contradiction.
Qed.

(** ** Construction *)

(** X17. A new engine is at rest: when the constructor returns, the game is
    not running and not paused, no timer is armed, nothing has been written
    to the store, no tone has been played, and the board is laid out with
    the three-cell snake heading right, score 0, interval 150 and sound
    on. *)
Theorem constructed_engine_at_rest (fuel : nat) (b : Browser) (w : World) :
  constructor fuel b = Done w ->
  isGameRunning (this w) = false /\ isPaused (this w) = false /\
  gameLoop (this w) = None /\ intervals (page w) = [] /\
  setItemLog (page w) = [] /\ sounds (page w) = [] /\
  snake (this w) = three_cells /\
  direction (this w) = mkPoint 1 0 /\ nextDirection (this w) = mkPoint 1 0 /\
  score (this w) = 0 /\ gameSpeed (this w) = 150 /\
  soundEnabled (this w) = true /\
  audioContext (this w) = AudioContext_supported b /\
  overlay (page w) = overlay_markup b /\
  food_off_snake w.
Proof.
  intros Hnew.
  destruct (invariant_constructor fuel b w Hnew) as [Hfood _].
  pose proof (constructor_outcome fuel b) as H. rewrite Hnew in H.
  destruct H as [item [k [_ [_ Hw]]]].
  repeat (split; [rewrite Hw; unfold initAudio;
                  destruct (AudioContext_supported b); reflexivity|]).
  exact Hfood.
Qed.

(** ** The eyes *)

(** X18. The eyes are drawn on the head, looking ahead: for a cell size of
    at least 8 every circle [drawEyes] draws lies within the square of the
    head's cell, whatever the direction; for a cell size above 10 and a
    unit direction both eyes are in the half of the cell the snake moves
    towards. The cell size of every engine is 20. *)
Theorem eyes_on_the_head (w : World) (head : Point) :
  (8 <= gridSize (this w) ->
   Forall (inside_cell w head) (drawEyes w head)) /\
  (10 < gridSize (this w) -> cardinal (direction (this w)) = true ->
   Forall (in_leading_half w head (direction (this w))) (drawEyes w head)) /\
  (forall b, reachable b w -> gridSize (this w) = 20).
Proof.
  split; [|split].
  - intros Hg. unfold drawEyes.
    destruct (px (direction (this w)) =? 1);
      [|destruct (px (direction (this w)) =? -1);
        [|destruct (py (direction (this w)) =? 1)]];
      repeat constructor;
      unfold Qle, Qminus, Qplus, Qopp, inject_Z; cbn [Qnum Qden]; lia.
  - intros Hg Hd. apply cardinal_cases in Hd. unfold drawEyes.
    destruct Hd as [-> | [-> | [-> | ->]]]; cbn [px py Z.eqb Pos.eqb];
      repeat (apply Forall_cons; [cbn [in_leading_half px py]; try exact I|]);
      try apply Forall_nil; lia.
  - intros b Hreach.
    destruct (reachable_board_ok b w Hreach) as [Hgs _]. exact Hgs.
Qed.

(** ** The further properties at the sample games *)

Lemma events_dispatches (b : Browser) (fuel : nat) (es : list Event) :
  forall w w' : World,
    reachable_by_events b w -> dispatches fuel es w = Done w' ->
    reachable_by_events b w'.
Proof.
  induction es as [|e es IH]; intros w w' Hev; cbn [dispatches].
  - intros [= <-]. exact Hev.
  - destruct (dispatch fuel e w) as [w1| |err w1|] eqn:E; cbn [and_then];
      try discriminate; apply IH.
    + exact (events_step b fuel e w w1 Hev E).
    + exact (events_raise b fuel e w err w1 Hev E).
Qed.

Example at_rest_by_events : reachable_by_events sample_browser at_rest.
Proof. apply (events_new sample_browser 1). vm_compute. reflexivity. Qed.

Example eating_by_events : reachable_by_events sample_browser eating.
Proof.
  apply (events_step sample_browser 1 (Click "start-btn") at_rest).
  - exact at_rest_by_events.
  - vm_compute. reflexivity.
Qed.

Example at_wall_by_events : reachable_by_events sample_browser at_wall.
Proof.
  apply (events_dispatches sample_browser 1
           (repeat (IntervalFires 1) 9) eating).
  - exact eating_by_events.
  - vm_compute. reflexivity.
Qed.

Example crashed_by_events : reachable_by_events sample_browser crashed.
Proof.
  apply (events_step sample_browser 1 (IntervalFires 1) at_wall).
  - exact at_wall_by_events.
  - vm_compute. reflexivity.
Qed.

Example paused_game_by_events :
  reachable_by_events sample_browser paused_game.
Proof.
  apply (events_step sample_browser 1 (KeyDown " ") eating).
  - exact eating_by_events.
  - vm_compute. reflexivity.
Qed.

Example refused_at_wall_by_events :
  reachable_by_events readonly_browser refused_at_wall.
Proof.
  apply (events_dispatches readonly_browser 1
           (Click "start-btn" :: repeat (IntervalFires 1) 9)
           (outcome_or eating (constructor 1 readonly_browser))).
  - apply (events_new readonly_browser 1). vm_compute. reflexivity.
  - vm_compute. reflexivity.
Qed.

Lemma one_timer_while_running_witness :
  reachable sample_browser at_wall /\ lifecycle at_wall = Running /\
  exists h, gameLoop (this at_wall) = Some h /\
            intervals (page at_wall) = [(h, gameSpeed (this at_wall))].
Proof.
  split; [exact at_wall_reachable|]. split; [reflexivity|].
  exact (proj1 (one_timer_while_running sample_browser at_wall
                  at_wall_reachable) eq_refl).
Defined.

Lemma score_counts_growth_witness :
  reachable sample_browser at_wall /\
  score (this at_wall)
    = 10 * (Z.of_nat (List.length (snake (this at_wall))) - 3).
Proof.
  split; [exact at_wall_reachable|].
  exact (proj2 (score_counts_growth sample_browser at_wall
                  at_wall_reachable)).
Defined.

Lemma snake_cells_distinct_witness :
  reachable sample_browser at_wall /\ NoDup (snake (this at_wall)).
Proof.
  split; [exact at_wall_reachable|].
  exact (snake_cells_distinct sample_browser at_wall at_wall_reachable).
Defined.

Lemma snake_and_food_on_board_witness :
  reachable sample_browser at_wall /\ (10 < side_of sample_browser)%Q /\
  unit_interval (random_source sample_browser) /\
  (forall c, In c (snake (this at_wall)) -> inBounds at_wall c) /\
  exists f, food (this at_wall) = Some f /\ inBounds at_wall f.
Proof.
  assert (Hside : (10 < side_of sample_browser)%Q) by reflexivity.
  destruct (snake_and_food_on_board sample_browser at_wall
              at_wall_reachable Hside) as [_ [Hsnake Hfood]].
  split; [exact at_wall_reachable|]. split; [exact Hside|].
  split; [exact sample_random_unit|]. split; [exact Hsnake|].
  exact (Hfood sample_random_unit).
Defined.

Lemma difficulty_sets_interval_witness :
  reachable sample_browser eating /\ known_level "hard" = true /\
  gameSpeed (this (setDifficulty "hard" eating)) = 100 /\
  intervals (page (setDifficulty "hard" eating)) = [(2%nat, 100)].
Proof.
  destruct (difficulty_sets_interval sample_browser eating "hard"
              eating_reachable eq_refl) as [Hspeed [Hrun _]].
  split; [exact eating_reachable|]. split; [reflexivity|].
  split; [exact Hspeed|].
  exact (proj2 (Hrun eq_refl)).
Defined.

Lemma highScore_survives_witness :
  gameOver record_run = Done (gameOver_completed record_run) /\
  record_broken record_run = true /\
  Z.abs (score (this record_run)) < 2 ^ 53 /\
  storedHighScore (page (gameOver_completed record_run))
    = Some "120"%string /\
  constructor 1 revisited_browser = Done revisited /\
  highScore (this revisited) = Num 120.
Proof.
  assert (Hrun : gameOver record_run = Done (gameOver_completed record_run))
    by reflexivity.
  assert (Hrb : record_broken record_run = true) by reflexivity.
  assert (Hsmall : Z.abs (score (this record_run)) < 2 ^ 53) by reflexivity.
  assert (Hnew : constructor 1 revisited_browser = Done revisited)
    by (vm_compute; reflexivity).
  destruct (highScore_survives record_run (gameOver_completed record_run)
              Hrun Hrb Hsmall) as [Hh [Hs [_ Hnext]]].
  split; [exact Hrun|]. split; [exact Hrb|]. split; [exact Hsmall|].
  split; [exact Hs|]. split; [exact Hnew|].
  rewrite (Hnext 1%nat revisited_browser revisited eq_refl Hnew).
  exact Hh.
Defined.

Lemma highScore_never_decreases_witness :
  left_by (run 1 Tick record_run_refused)
    (gameOver_stopped (commitDirection record_run_refused)) /\
  highScore (this record_run_refused) = Num 100 /\
  exists h', highScore (this (gameOver_stopped
                                (commitDirection record_run_refused)))
             = Num h' /\ 100 <= h'.
Proof.
  assert (Hleft : left_by (run 1 Tick record_run_refused)
                    (gameOver_stopped (commitDirection record_run_refused)))
    by reflexivity.
  split; [exact Hleft|]. split; [reflexivity|].
  exact (proj2 (proj1 highScore_never_decreases 1%nat Tick record_run_refused
                  _ Hleft) 100 eq_refl).
Defined.


Lemma pause_then_resume_witness :
  lifecycle eating = Running /\ schedule_ok eating /\
  lifecycle (resumeGame (pauseGame eating)) = Running /\
  this (resumeGame (pauseGame eating))
    = set_gameLoop (Some 2%nat) (this eating).
Proof.
  assert (Hsched : schedule_ok eating).
  { exists 1%nat. split; reflexivity. }
  destruct (proj1 (pause_then_resume eating) eq_refl Hsched)
    as [_ [_ [Hlife [Hthis _]]]].
  split; [reflexivity|]. split; [exact Hsched|].
  split; [exact Hlife | exact Hthis].
Defined.

Lemma restart_gives_fresh_game_witness :
  reachable sample_browser crashed /\
  exists w', run 1 Restart crashed = Done w' /\
    lifecycle w' = Running /\ snake (this w') = three_cells /\
    score (this w') = 0.
Proof.
  destruct (restart_gives_fresh_game sample_browser crashed
              crashed_reachable) as [Hfresh [Hreturns _]].
  split; [exact crashed_reachable|].
  assert (Hfree : ~ In (draw crashed 0) three_cells).
  { vm_compute. intros [H|[H|[H|[]]]]; discriminate H. }
  destruct (Hreturns 1%nat Restart 0%nat (or_introl eq_refl)
              Nat.lt_0_1 Hfree) as [w' Hrun].
  exists w'. split; [exact Hrun|].
  destruct (Hfresh 1%nat Restart w' (or_introl eq_refl) Hrun)
    as [H1 [H2 [H3 _]]].
  auto.
Defined.

Lemma zero_request_ends_game_witness :
  snake (this eating) = [mkPoint 10 10; mkPoint 9 10; mkPoint 8 10] /\
  exists w', update 1 (changeDirection (mkPoint 0 0) eating) = Done w' /\
    lifecycle w' = GameOver /\ snake (this w') = snake (this eating).
Proof.
  split; [reflexivity|].
  destruct (zero_request_ends_game 1 eating (mkPoint 10 10)
              [mkPoint 9 10; mkPoint 8 10] eq_refl)
    as [_ [w' [_ [_ [Hsnake [_ [Hover Hdone]]]]]]].
  exists w'.
  pose proof (Hdone (or_introl eq_refl)) as Hrun.
  split; [exact Hrun|]. split; [exact (Hover Hrun) | exact Hsnake].
Defined.

Lemma snake_never_reverses_witness :
  reachable_by_events sample_browser at_wall /\
  cardinal (direction (this at_wall)) = true /\
  candidate at_wall (mkPoint 19 10) <> mkPoint 18 10.
Proof.
  destruct (snake_never_reverses sample_browser at_wall at_wall_by_events)
    as [Hd [_ [_ Hneck]]].
  split; [exact at_wall_by_events|]. split; [exact Hd|].
  exact (Hneck eq_refl (mkPoint 19 10) (mkPoint 18 10)
           [mkPoint 17 10; mkPoint 16 10] eq_refl).
Defined.

Lemma snake_is_connected_witness :
  reachable_by_events sample_browser at_wall /\
  chain (snake (this at_wall)).
Proof.
  split; [exact at_wall_by_events|].
  exact (snake_is_connected sample_browser at_wall at_wall_by_events).
Defined.

Lemma keyboard_by_lifecycle_witness :
  lifecycle paused_game <> Running /\
  onKeyDown 1 "ArrowUp" paused_game = Done paused_game /\
  lifecycle paused_game = Paused /\
  onKeyDown 1 " " paused_game = Done (resumeGame paused_game).
Proof.
  assert (Hnot : lifecycle paused_game <> Running)
    by (intros H; discriminate H).
  destruct (keyboard_by_lifecycle 1 paused_game)
    as [Hignored [_ [_ [Hpaused _]]]].
  split; [exact Hnot|].
  split; [exact (Hignored "ArrowUp"%string Hnot eq_refl eq_refl)|].
  split; [reflexivity|].
  exact (proj1 (Hpaused eq_refl)).
Defined.

Lemma lifecycle_transitions_witness :
  reachable_by_events sample_browser at_wall /\
  left_by (dispatch 1 (IntervalFires 1) at_wall) crashed /\
  lifecycle at_wall = Running /\
  (lifecycle crashed = Running \/ lifecycle crashed = Paused \/
   (lifecycle crashed = GameOver /\
    (exists h, IntervalFires 1 = IntervalFires h) /\
    dispatch 1 (IntervalFires 1) at_wall = Done crashed) \/
   (lifecycle crashed = Idle /\
    (exists h, IntervalFires 1 = IntervalFires h) /\
    dispatch 1 (IntervalFires 1) at_wall
      = Raises "QuotaExceededError" crashed /\
    record_broken at_wall = true /\ setItemThrows (page at_wall) = true)).
Proof.
  assert (Hleft : left_by (dispatch 1 (IntervalFires 1) at_wall) crashed)
    by reflexivity.
  split; [exact at_wall_by_events|]. split; [exact Hleft|].
  split; [reflexivity|].
  exact (lifecycle_transitions sample_browser 1 (IntervalFires 1)
           at_wall crashed at_wall_by_events Hleft).
Defined.

(** The same at the game in the page whose store refuses writes: the tick
    into the wall leaves the engine idle. *)
Example lifecycle_after_refused_write :
  reachable_by_events readonly_browser refused_at_wall /\
  lifecycle refused_at_wall = Running /\
  dispatch 1 (IntervalFires 1) refused_at_wall
    = Raises "QuotaExceededError" refused_crashed /\
  lifecycle refused_crashed = Idle.
Proof.
  split; [exact refused_at_wall_by_events|]. repeat split.
Qed.

Lemma stopped_game_stands_still_witness :
  reachable_by_events sample_browser paused_game /\
  lifecycle paused_game <> Running /\
  dispatch 1 (Click "up-btn") paused_game
    = Done (changeDirection (mkPoint 0 (-1)) paused_game) /\
  snake (this (changeDirection (mkPoint 0 (-1)) paused_game))
    = snake (this paused_game).
Proof.
  assert (Hnot : lifecycle paused_game <> Running)
    by (intros H; discriminate H).
  split; [exact paused_game_by_events|]. split; [exact Hnot|].
  split; [reflexivity|].
  destruct (stopped_game_stands_still sample_browser 1 (Click "up-btn")
              paused_game (changeDirection (mkPoint 0 (-1)) paused_game)
              paused_game_by_events Hnot eq_refl) as [_ [[H _] | [H _]]].
  - exact H.
  - discriminate H.
Defined.

Lemma constructed_engine_at_rest_witness :
  constructor 1 sample_browser = Done at_rest /\
  isGameRunning (this at_rest) = false /\ intervals (page at_rest) = [] /\
  setItemLog (page at_rest) = [].
Proof.
  destruct (constructed_engine_at_rest 1 sample_browser at_rest eq_refl)
    as [H1 [_ [_ [H2 [H3 _]]]]].
  split; [reflexivity|]. auto.
Defined.

Lemma eyes_on_the_head_witness :
  8 <= gridSize (this eating) /\
  Forall (inside_cell eating (mkPoint 10 10))
         (drawEyes eating (mkPoint 10 10)) /\
  Forall (in_leading_half eating (mkPoint 10 10) (mkPoint 1 0))
         (drawEyes eating (mkPoint 10 10)).
Proof.
  assert (H8 : 8 <= gridSize (this eating)) by (intros H; discriminate H).
  assert (H10 : 10 < gridSize (this eating)) by reflexivity.
  destruct (eyes_on_the_head eating (mkPoint 10 10)) as [Hin [Hlead _]].
  split; [exact H8|]. split; [exact (Hin H8)|].
  exact (Hlead H10 eq_refl).
Defined.
